(** * MicroRemed: chaos campaign, recovery oracle and remediation loop

    A shallow embedding of the parts of the MicroRemed sources that carry
    state and failure handling:

    - [chaos/check_status.py]: the unit parsers and the CPU, memory,
      network and disk recovery predicates;
    - [models/llm.py]: [parse_streamed_response];
    - [methods/ThinkRemed/coordinator.py] and [methods/execution_agent.py]:
      the remediation loop;
    - [inject_and_remediate.py], [chaos/injection.py], [envs/env.py]:
      the campaign loop.

    Python values are modelled as follows.  A [str] is a [string] (ASCII
    bytes); an [int] is a [Z]; a [float] is a binary64 value of module
    [Binary64], with round-to-nearest-even written out on [Z]; a raised
    exception is the [Raise] constructor of [result].  External
    collaborators (kubectl, the cluster client, the model transport, the
    clock) are scripted: every call that the source makes takes its outcome
    from an explicit sample or scenario record.  A polling loop bounded by
    a deadline is given the rounds that start before the deadline; a loop
    without a bound of its own takes fuel, and [None] stands for a run that
    is still going when the fuel is spent.

    Besides the code of the claims, the development embeds

    - [chaos/check_status.py]: the readiness gate of the predicates, the
      pod-readiness predicate and the dispatcher [check];
    - [chaos/failures.py], [chaos/injection.py] with its files,
      [chaos/deployment.py];
    - [envs/env.py]: the wait loop of [deploy_env] and the random draws;
    - [methods/ThinkRemed/probe_agent.py] and
      [methods/SoloGen/generator.py];
    - [models/llm.py]: [get_tool_from_content] and the request loop of
      [LLMClient.generate];
    - [inject_and_remediate.py]: the reading of the experiment file.

    There, an object of the cluster client has its [metadata] and its
    [status]; a document of a manifest is a record of the keys that the
    code reads, each missing, [null] or with a value of the shape that the
    code expects; a value of a resource quantity is what [bool] and [str]
    make of it; the files that the code reads and writes are a map from
    paths to contents; an [AttributeError] is written [OtherError].

    Not modelled: characters outside ASCII, the sign of a floating-point
    zero, the limit that CPython 3.11 puts on the number of digits of an
    [int] read from or written to a [str], and exceptions of collaborators
    whose outcome a sample does not script (such a call returns). *)

From Stdlib Require Import ZArith Ascii String List Bool Lia.
From stdpp Require Import base option list strings pretty gmap sorting.
Import ListNotations.

Local Open Scope string_scope.
Local Open Scope Z_scope.

(** ** Exceptions *)

Inductive exn : Type :=
| ValueError
| OverflowError
| ZeroDivisionError
| IndexError
| KeyError
| TypeError
| FileNotFoundError
| RuntimeError
| TimeoutExpired
| OtherError.

Inductive result (A : Type) : Type :=
| Ok (a : A)
| Raise (e : exn).
Arguments Ok {A} a.
Arguments Raise {A} e.

Definition rbind {A B} (r : result A) (k : A -> result B) : result B :=
  match r with
  | Ok a => k a
  | Raise e => Raise e
  end.

Notation "x <-! r ; k" := (rbind r (fun x => k))
  (at level 100, r at next level, right associativity).

Definition is_ok {A} (r : result A) : bool :=
  match r with Ok _ => true | Raise _ => false end.

(** [try: ... except Exception: handler] *)
Definition catch {A} (r : result A) (handler : exn -> A) : A :=
  match r with
  | Ok a => a
  | Raise e => handler e
  end.

(** ** Python string operations *)

Module PyStr.

Definition chr (n : N) : ascii := ascii_of_N n.

(** ASCII characters for which [str.isspace] holds. *)
Definition is_space (c : ascii) : bool :=
  let n := N_of_ascii c in
  (((9 <=? n) && (n <=? 13)) || ((28 <=? n) && (n <=? 32)))%N.

Definition is_digit (c : ascii) : bool :=
  let n := N_of_ascii c in ((48 <=? n) && (n <=? 57))%N.

Definition digit_val (c : ascii) : Z := Z.of_N (N_of_ascii c) - 48.

Definition lower_char (c : ascii) : ascii :=
  let n := N_of_ascii c in
  if ((65 <=? n) && (n <=? 90))%N then ascii_of_N (n + 32) else c.

Fixpoint lower (s : string) : string :=
  match s with
  | EmptyString => EmptyString
  | String c r => String (lower_char c) (lower r)
  end.

Fixpoint rev_onto (s acc : string) : string :=
  match s with
  | EmptyString => acc
  | String c r => rev_onto r (String c acc)
  end.

Definition rev (s : string) : string := rev_onto s EmptyString.

Fixpoint lstrip (s : string) : string :=
  match s with
  | EmptyString => EmptyString
  | String c r => if is_space c then lstrip r else s
  end.

Definition rstrip (s : string) : string := rev (lstrip (rev s)).

(** [s.strip()] *)
Definition strip (s : string) : string := rstrip (lstrip s).

(** [s.startswith(p)] *)
Definition startswith (s p : string) : bool := String.prefix p s.

(** [s.endswith(p)] *)
Definition endswith (s p : string) : bool := String.prefix (rev p) (rev s).

(** [s[:-n]] for a string of length at least [n] ([""] otherwise) *)
Definition drop_last (n : nat) (s : string) : string :=
  String.substring 0 (String.length s - n) s.

(** [s[n:]] *)
Fixpoint drop_first (n : nat) (s : string) : string :=
  match n, s with
  | O, _ => s
  | S k, String _ r => drop_first k r
  | S _, EmptyString => EmptyString
  end.

(** [sub in s] *)
Fixpoint contains (sub s : string) : bool :=
  String.prefix sub s ||
  match s with
  | EmptyString => false
  | String _ r => contains sub r
  end.

(** [s.split(sep)] for a one-character separator: never empty. *)
Fixpoint split_go (sep : ascii) (acc : string) (s : string) : list string :=
  match s with
  | EmptyString => [rev acc]
  | String c r =>
      if Ascii.eqb c sep then rev acc :: split_go sep EmptyString r
      else split_go sep (String c acc) r
  end.

Definition split (sep : ascii) (s : string) : list string :=
  split_go sep EmptyString s.

Definition flush (acc : string) : list string :=
  match acc with
  | EmptyString => []
  | _ => [rev acc]
  end.

(** [s.split()]: fields separated by runs of white space, none empty. *)
Fixpoint split_ws_go (acc : string) (s : string) : list string :=
  match s with
  | EmptyString => flush acc
  | String c r =>
      if is_space c then flush acc ++ split_ws_go EmptyString r
      else split_ws_go (String c acc) r
  end.

Definition split_ws (s : string) : list string := split_ws_go EmptyString s.

Definition newline : ascii := chr 10.

(** [s.split('\n')] *)
Definition lines (s : string) : list string := split newline s.

End PyStr.

(** ** Binary64 floating point

    A Python [float] is an IEEE-754 binary64 value.  A finite value is kept
    as [m * 2^e]; every operation computes the exact rational result and
    rounds it to 53 significant bits, ties to even, with gradual underflow
    below [2^-1022] and overflow to infinity from [2^1024] on.  The sign of
    zero is not kept: no operation modelled here observes it. *)

Module Binary64.

Inductive float : Type :=
| Finite (m e : Z)
| Infinity (neg : bool)
| NaN.

Definition emin : Z := -1074.
Definition emax_q : Z := 971.

(** Nearest integer to [n / d], ties to even; [0 <= n], [0 < d]. *)
Definition rne (n d : Z) : Z :=
  let k := n / d in
  let r := n mod d in
  match (2 * r ?= d) with
  | Lt => k
  | Gt => k + 1
  | Eq => if Z.even k then k else k + 1
  end.

(** [floor (log2 (n / d))] for [0 < n], [0 < d]. *)
Definition ilog2_ratio (n d : Z) : Z :=
  let e0 := Z.log2 n - Z.log2 d in
  if n * 2 ^ Z.max 0 (- e0) <? d * 2 ^ Z.max 0 e0 then e0 - 1 else e0.

Definition round_pos (n d : Z) : float :=
  let e := ilog2_ratio n d in
  let q := Z.max (e - 52) emin in
  let m := rne (n * 2 ^ Z.max 0 (- q)) (d * 2 ^ Z.max 0 q) in
  if (emax_q <? q) || ((q =? emax_q) && (m =? 2 ^ 53))
  then Infinity false
  else Finite m q.

Definition opp (x : float) : float :=
  match x with
  | Finite m e => Finite (- m) e
  | Infinity s => Infinity (negb s)
  | NaN => NaN
  end.

(** The binary64 value nearest to [n / d], for [0 < d]. *)
Definition round_ratio (n d : Z) : float :=
  if n =? 0 then Finite 0 0
  else if n <? 0 then opp (round_pos (- n) d)
  else round_pos n d.

Definition round_scaled (m e : Z) : float :=
  if 0 <=? e then round_ratio (m * 2 ^ e) 1 else round_ratio m (2 ^ (- e)).

Definition is_neg (x : float) : bool :=
  match x with
  | Finite m _ => m <? 0
  | Infinity s => s
  | NaN => false
  end.

Definition is_zero (x : float) : bool :=
  match x with
  | Finite m _ => m =? 0
  | _ => false
  end.

(** [x * y] on floats *)
Definition mul (x y : float) : float :=
  match x, y with
  | NaN, _ | _, NaN => NaN
  | Infinity s, z | z, Infinity s =>
      if is_zero z then NaN else Infinity (xorb s (is_neg z))
  | Finite m1 e1, Finite m2 e2 => round_scaled (m1 * m2) (e1 + e2)
  end.

(** Conversion of an [int] operand of a mixed operation. *)
Definition of_int (z : Z) : result float :=
  match round_ratio z 1 with
  | Infinity _ => Raise OverflowError
  | f => Ok f
  end.

(** [x * z] for a float [x] and an int [z] *)
Definition mul_int (x : float) (z : Z) : result float :=
  y <-! of_int z; Ok (mul x y).

(** [a / b] on ints: the correctly rounded quotient *)
Definition div_int (a b : Z) : result float :=
  if b =? 0 then Raise ZeroDivisionError
  else
    let f := if b <? 0 then round_ratio (- a) (- b) else round_ratio a b in
    match f with
    | Infinity _ => Raise OverflowError
    | _ => Ok f
    end.

(** [x / y] on floats *)
Definition div (x y : float) : result float :=
  match x, y with
  | _, Finite 0 _ => Raise ZeroDivisionError
  | NaN, _ | _, NaN => Ok NaN
  | Infinity _, Infinity _ => Ok NaN
  | Infinity s, z => Ok (Infinity (xorb s (is_neg z)))
  | Finite _ _, Infinity _ => Ok (Finite 0 0)
  | Finite m1 e1, Finite m2 e2 =>
      let s := if m2 <? 0 then -1 else 1 in
      Ok (if 0 <=? e1 - e2
          then round_ratio (s * m1 * 2 ^ (e1 - e2)) (s * m2)
          else round_ratio (s * m1) (s * m2 * 2 ^ (e2 - e1)))
  end.

(** [int(x)]: truncation towards zero *)
Definition to_int (x : float) : result Z :=
  match x with
  | Finite m e => Ok (if 0 <=? e then m * 2 ^ e else Z.quot m (2 ^ (- e)))
  | Infinity _ => Raise OverflowError
  | NaN => Raise ValueError
  end.

(** Three-way comparison of [m1 * 2^e1] with [m2 * 2^e2]. *)
Definition cmp_finite (m1 e1 m2 e2 : Z) : comparison :=
  let e := Z.min e1 e2 in
  (m1 * 2 ^ (e1 - e) ?= m2 * 2 ^ (e2 - e)).

(** [None] when the operands are unordered (a NaN is involved). *)
Definition compare (x y : float) : option comparison :=
  match x, y with
  | NaN, _ | _, NaN => None
  | Infinity s1, Infinity s2 =>
      Some (if s1 then (if s2 then Eq else Lt) else (if s2 then Gt else Eq))
  | Infinity s, Finite _ _ => Some (if s then Lt else Gt)
  | Finite _ _, Infinity s => Some (if s then Gt else Lt)
  | Finite m1 e1, Finite m2 e2 => Some (cmp_finite m1 e1 m2 e2)
  end.

(** [x > y] *)
Definition gtb (x y : float) : bool :=
  match compare x y with Some Gt => true | _ => false end.

(** [x >= y] *)
Definition geb (x y : float) : bool :=
  match compare x y with Some Gt | Some Eq => true | _ => false end.

(** [x < y] *)
Definition ltb (x y : float) : bool :=
  match compare x y with Some Lt => true | _ => false end.

(** [x <= y] *)
Definition leb (x y : float) : bool :=
  match compare x y with Some Lt | Some Eq => true | _ => false end.

(** An [int] compared with a float is compared by exact value. *)
Definition exact (z : Z) : float := Finite z 0.

(** The float written [n / d] in the source, e.g. [0.5]. *)
Definition lit (n d : Z) : float := round_ratio n d.

End Binary64.

(** ** [int(str)] and [float(str)] *)

Module PyNum.
Import PyStr.

(** A [digitpart]: digits, single underscores allowed between digits.
    Returns the value read, the number of digits and the rest. *)
Fixpoint digits_go (acc : Z) (cnt : nat) (s : string) : Z * nat * string :=
  match s with
  | String c r =>
      if is_digit c then digits_go (10 * acc + digit_val c) (S cnt) r
      else if Ascii.eqb c "_" then
        match cnt, r with
        | S _, String d r' =>
            if is_digit d
            then digits_go (10 * acc + digit_val d) (S cnt) r'
            else (acc, cnt, s)
        | _, _ => (acc, cnt, s)
        end
      else (acc, cnt, s)
  | EmptyString => (acc, cnt, s)
  end.

Definition digitpart (s : string) : Z * nat * string := digits_go 0 0 s.

(** An optional sign: [true] for a minus. *)
Definition sign (s : string) : bool * string :=
  match s with
  | String c r =>
      if Ascii.eqb c "-" then (true, r)
      else if Ascii.eqb c "+" then (false, r)
      else (false, s)
  | EmptyString => (false, s)
  end.

(** [int(s)] in base ten *)
Definition py_int (s : string) : result Z :=
  let '(neg, body) := sign (strip s) in
  match digitpart body with
  | (v, S _, EmptyString) => Ok (if neg then - v else v)
  | _ => Raise ValueError
  end.

(** The exponent part of a float literal: [None] when malformed. *)
Definition exponent (s : string) : option Z :=
  match s with
  | EmptyString => Some 0
  | String c r =>
      if Ascii.eqb c "e" || Ascii.eqb c "E" then
        let '(neg, body) := sign r in
        match digitpart body with
        | (v, S _, EmptyString) => Some (if neg then - v else v)
        | _ => None
        end
      else None
  end.

(** The value [d * 10^x], rounded to binary64. *)
Definition decimal (d x : Z) : Binary64.float :=
  if 0 <=? x then Binary64.round_ratio (d * 10 ^ x) 1
  else Binary64.round_ratio d (10 ^ (- x)).

Definition special (s : string) : option Binary64.float :=
  let l := lower s in
  if String.eqb l "inf" || String.eqb l "infinity"
  then Some (Binary64.Infinity false)
  else if String.eqb l "nan" then Some Binary64.NaN
  else None.

(** [float(s)] *)
Definition py_float (s : string) : result Binary64.float :=
  let '(neg, body) := sign (strip s) in
  let finish (f : Binary64.float) :=
    Ok (if neg then Binary64.opp f else f) in
  match special body with
  | Some f => finish f
  | None =>
      let '(ip, ni, r1) := digitpart body in
      let '(fp, nf, r2) :=
        match r1 with
        | String c r =>
            if Ascii.eqb c "." then digitpart r else (0, O, r1)
        | EmptyString => (0, O, r1)
        end in
      match (ni + nf)%nat with
      | O => Raise ValueError
      | S _ =>
          match exponent r2 with
          | Some x =>
              finish (decimal (ip * 10 ^ Z.of_nat nf + fp) (x - Z.of_nat nf))
          | None => Raise ValueError
          end
      end
  end.

(** *** Plain decimal numerals

    A non-empty string of ASCII digits, and the integer it denotes. *)

Fixpoint all_digits (s : string) : bool :=
  match s with
  | EmptyString => true
  | String c r => is_digit c && all_digits r
  end.

Fixpoint horner (acc : Z) (s : string) : Z :=
  match s with
  | EmptyString => acc
  | String c r => horner (10 * acc + digit_val c) r
  end.

Definition numeral (s : string) : Prop :=
  all_digits s = true /\ s <> EmptyString.

Definition value (s : string) : Z := horner 0 s.

End PyNum.

(** ** The recovery oracle: [chaos/check_status.py] *)

Module CheckStatus.
Import PyStr PyNum.

(** *** Unit parsers *)

(** [int(float(s) * k)] *)
Definition scaled (s : string) (k : Z) : result Z :=
  x <-! py_float s;
  y <-! Binary64.mul_int x k;
  Binary64.to_int y.

Definition parse_cpu_to_millicores (cpu_str : string) : result Z :=
  if endswith cpu_str "m" then py_int (drop_last 1 cpu_str)
  else scaled cpu_str 1000.

Definition parse_memory_to_bytes (mem_str : string) : result Z :=
  let mem_str := strip mem_str in
  if endswith mem_str "Ki" then scaled (drop_last 2 mem_str) 1024
  else if endswith mem_str "Mi" then scaled (drop_last 2 mem_str) (1024 ^ 2)
  else if endswith mem_str "Gi" then scaled (drop_last 2 mem_str) (1024 ^ 3)
  else if endswith mem_str "Ti" then scaled (drop_last 2 mem_str) (1024 ^ 4)
  else if endswith mem_str "Pi" then scaled (drop_last 2 mem_str) (1024 ^ 5)
  else if endswith mem_str "Ei" then scaled (drop_last 2 mem_str) (1024 ^ 6)
  else if endswith mem_str "K" then scaled (drop_last 1 mem_str) 1000
  else if endswith mem_str "M" then scaled (drop_last 1 mem_str) (1000 ^ 2)
  else if endswith mem_str "G" then scaled (drop_last 1 mem_str) (1000 ^ 3)
  else if endswith mem_str "T" then scaled (drop_last 1 mem_str) (1000 ^ 4)
  else py_int mem_str.

(** *** Cluster objects, as far as the predicates read them *)

(** [c.resources.limits]: [None] when [resources] or [limits] is unset. *)
Record container : Type := {
  c_name : string;
  c_limits : option (gmap string string)
}.

Record pod : Type := {
  p_name : string;
  p_containers : list container
}.

(** The outcome of [subprocess.run] when it returns. *)
Record completed : Type := {
  returncode : Z;
  stdout : string;
  stderr : string
}.

(** Truthiness of [c.resources and c.resources.limits]. *)
Definition limits_of (c : container) : option (gmap string string) :=
  match c_limits c with
  | Some m => if decide (m = ∅) then None else Some m
  | None => None
  end.

(** Truthiness of a [str] looked up with [dict.get]. *)
Definition nonempty (o : option string) : option string :=
  match o with
  | Some s => if String.eqb s "" then None else Some s
  | None => None
  end.

Fixpoint cpu_limit_in (cs : list container) (container_name : string)
  : result (option Z) :=
  match cs with
  | [] => Ok None
  | c :: rest =>
      match (if String.eqb (c_name c) container_name
             then limits_of c else None) with
      | Some limits =>
          match nonempty (limits !! "cpu") with
          | None => Ok None
          | Some cpu_limit =>
              if endswith cpu_limit "m"
              then v <-! py_int (drop_last 1 cpu_limit); Ok (Some v)
              else v <-! scaled cpu_limit 1000; Ok (Some v)
          end
      | None => cpu_limit_in rest container_name
      end
  end.

Definition get_container_cpu_limit_millicores (p : pod)
    (container_name : string) : result (option Z) :=
  cpu_limit_in (p_containers p) container_name.

Definition get_container_memory_limit_bytes (c : container)
  : result (option Z) :=
  match limits_of c with
  | None => Ok None
  | Some limits =>
      match nonempty (limits !! "memory") with
      | None => Ok None
      | Some mem_limit => v <-! parse_memory_to_bytes mem_limit; Ok (Some v)
      end
  end.

(** [usage / limit >= threshold] *)
Definition ratio_reaches (usage limit : Z) (threshold : Binary64.float)
  : result bool :=
  usage_ratio <-! Binary64.div_int usage limit;
  Ok (Binary64.geb usage_ratio threshold).

(** A polling loop bounded by a deadline: [samples] are the rounds that
    start before the deadline, in order; the loop returns [True] from the
    first round that passes and [False] once the deadline is reached. *)
Fixpoint poll {S : Type} (round : S -> bool) (samples : list S) : bool :=
  match samples with
  | [] => false
  | s :: rest => if round s then true else poll round rest
  end.

(** What the body of a per-container loop decides. *)
Inductive verdict : Type :=
| Skipped
| Normal
| High
| Unobserved.

(** *** CPU *)

Definition is_sidecar (container_name : string) : bool :=
  contains "sidecar" container_name || contains "busybox" container_name.

Definition find_pod (pods : list pod) (pod_name : string) : option pod :=
  List.find (fun p => String.eqb (p_name p) pod_name) pods.

(** The body of [for line in lines[1:]]. *)
Definition cpu_line (pods : list pod) (threshold : Binary64.float)
    (line : string) : result verdict :=
  match split_ws line with
  | pod_name :: container_name :: cpu_str :: _ =>
      if is_sidecar container_name then Ok Skipped
      else
        match find_pod pods pod_name with
        | None => Ok Skipped
        | Some p =>
            current_cpu_m <-! parse_cpu_to_millicores cpu_str;
            limit_cpu_m <-! get_container_cpu_limit_millicores p container_name;
            match limit_cpu_m with
            | None => Ok Skipped
            | Some l =>
                if l =? 0 then Ok Skipped
                else
                  high <-! ratio_reaches current_cpu_m l threshold;
                  Ok (if high then High else Normal)
            end
        end
  | _ => Ok Skipped
  end.

Definition keep (flag : bool) (v : verdict) : bool :=
  match v with
  | High | Unobserved => false
  | Skipped | Normal => flag
  end.

Fixpoint cpu_lines (pods : list pod) (threshold : Binary64.float)
    (ls : list string) (all_cpu_normal : bool) : result bool :=
  match ls with
  | [] => Ok all_cpu_normal
  | line :: rest =>
      v <-! cpu_line pods threshold line;
      cpu_lines pods threshold rest (keep all_cpu_normal v)
  end.

(** [lines[1:]] of the table printed by [kubectl top]. *)
Definition data_lines (r : completed) : list string :=
  List.tl (lines (strip (stdout r))).

(** One round of the convergence loop of [check_cpu_stress_recovered]:
    [true] when the round executes [return True]. *)
Definition cpu_round (pods : list pod) (threshold : Binary64.float)
    (top : result completed) : bool :=
  catch
    (r <-! top;
     if negb (returncode r =? 0) then Ok false
     else if (length (lines (strip (stdout r))) <? 2)%nat then Ok false
     else cpu_lines pods threshold (data_lines r) true)
    (fun _ => false).

(** [pods] is the list bound by the readiness gate. *)
Definition check_cpu_stress_recovered (pods : list pod)
    (cpu_usage_ratio_threshold : Binary64.float)
    (samples : list (result completed)) : bool :=
  poll (cpu_round pods cpu_usage_ratio_threshold) samples.

(** *** Memory *)

(** The rows of [kubectl top pod <pod> --containers], searched for the
    container. *)
Fixpoint usage_in_lines (container_name : string) (ls : list string)
  : result (option Z) :=
  match ls with
  | [] => Ok None
  | line :: rest =>
      match split_ws line with
      | _ :: cname :: _ :: mem_str :: _ =>
          if String.eqb cname container_name
          then v <-! parse_memory_to_bytes mem_str; Ok (Some v)
          else usage_in_lines container_name rest
      | _ => usage_in_lines container_name rest
      end
  end.

Definition get_container_memory_usage_bytes (top : result completed)
    (container_name : string) : option Z :=
  catch
    (r <-! top;
     if negb (returncode r =? 0) then Ok None
     else usage_in_lines container_name (data_lines r))
    (fun _ => None).

(** What one round of the memory loop observes: the pods listed, the
    answer of [read_namespaced_pod] per pod name, and the answer of
    [kubectl top pod] at the call made for a pod and container. *)
Record memory_sample : Type := {
  ms_pods : list pod;
  ms_read : string -> result pod;
  ms_top : string -> string -> result completed
}.

(** The body of [for container in containers]. *)
Definition memory_container (s : memory_sample)
    (threshold : Binary64.float) (pod_name : string) (c : container)
  : result verdict :=
  limit_bytes <-! get_container_memory_limit_bytes c;
  match limit_bytes with
  | None => Ok Skipped
  | Some l =>
      if l =? 0 then Ok Skipped
      else
        match get_container_memory_usage_bytes
                (ms_top s pod_name (c_name c)) (c_name c) with
        | None => Ok Unobserved
        | Some usage_bytes =>
            high <-! ratio_reaches usage_bytes l threshold;
            (* the log line prints both values in MB *)
            _ <-! Binary64.div_int usage_bytes (1024 ^ 2);
            _ <-! Binary64.div_int l (1024 ^ 2);
            Ok (if high then High else Normal)
        end
  end.

Fixpoint memory_containers (s : memory_sample)
    (threshold : Binary64.float) (pod_name : string)
    (cs : list container) (pod_normal : bool) : result bool :=
  match cs with
  | [] => Ok pod_normal
  | c :: rest =>
      v <-! memory_container s threshold pod_name c;
      memory_containers s threshold pod_name rest (keep pod_normal v)
  end.

Definition is_main (c : container) : bool :=
  negb (contains "busybox" (lower (c_name c)))
  && negb (contains "sidecar" (lower (c_name c))).

(** The body of [for pod in pods]: [false] when the pod clears
    [all_pods_normal]. *)
Definition memory_pod (s : memory_sample) (threshold : Binary64.float)
    (p : pod) : bool :=
  catch
    (pod_obj <-! ms_read s (p_name p);
     memory_containers s threshold (p_name p)
       (List.filter is_main (p_containers pod_obj)) true)
    (fun _ => false).

Fixpoint memory_pods (s : memory_sample) (threshold : Binary64.float)
    (pods : list pod) (all_pods_normal : bool) : bool :=
  match pods with
  | [] => all_pods_normal
  | p :: rest =>
      memory_pods s threshold rest
        (if memory_pod s threshold p then all_pods_normal else false)
  end.

Definition memory_round (threshold : Binary64.float) (s : memory_sample)
  : bool :=
  match ms_pods s with
  | [] => false
  | pods => memory_pods s threshold pods true
  end.

Definition check_memory_stress_recovered
    (memory_usage_ratio_threshold : Binary64.float)
    (samples : list memory_sample) : bool :=
  poll (memory_round memory_usage_ratio_threshold) samples.

(** *** Network *)

(** What one round of the ping loop observes. *)
Record ping_sample : Type := {
  ps_pods : list pod;
  ps_ping : string -> result completed;
  ps_fallback : string -> result completed
}.

(** [l[i]] *)
Definition index {A : Type} (l : list A) (i : nat) : result A :=
  match List.nth_error l i with
  | Some a => Ok a
  | None => Raise IndexError
  end.

(** [except (IndexError, ValueError)] *)
Definition parse_error (e : exn) : bool :=
  match e with
  | IndexError | ValueError => true
  | _ => false
  end.

Definition is_loss_line (line : string) : bool :=
  contains "packet loss" line && contains "transmitted" line.

(** [float(line.split(",")[2].strip().split("%")[0])] *)
Definition loss_field (line : string) : result Binary64.float :=
  field <-! index (split "," line) 2;
  head <-! index (split "%" (strip field)) 0;
  py_float head.

(** The value of [packet_loss_percent] after the first parsing loop. *)
Definition packet_loss_percent (output : string) : result Binary64.float :=
  match List.find is_loss_line (lines output) with
  | None => Ok (Binary64.exact 100)
  | Some line =>
      match loss_field line with
      | Ok v => Ok v
      | Raise e =>
          if parse_error e then Ok (Binary64.exact 100) else Raise e
      end
  end.

Definition is_rtt_line (line : string) : bool :=
  contains "round-trip min/avg/max" line || contains "rtt min/avg/max" line.

Definition rtt_field (line : string) : result Binary64.float :=
  rhs <-! index (split "=" line) 1;
  time_part <-! index (split_ws (strip rhs)) 0;
  avg <-! index (split "/" time_part) 1;
  py_float avg.

(** The value of [avg_latency] after the second parsing loop. *)
Definition avg_latency (output : string)
  : result (option Binary64.float) :=
  match List.find is_rtt_line (lines output) with
  | None => Ok None
  | Some line =>
      match rtt_field line with
      | Ok v => Ok (Some v)
      | Raise e => if parse_error e then Ok None else Raise e
      end
  end.

(** The command whose output is judged, after the optional fall back to
    the side-car container. *)
Definition ping_output (s : ping_sample) (pod_name : string)
  : result (completed * string) :=
  r <-! ps_ping s pod_name;
  let output := strip (stdout r ++ stderr r)%string in
  if contains "executable file not found" output
     || contains "OCI runtime exec failed" output
  then r2 <-! ps_fallback s pod_name; Ok (r2, strip (stdout r2))
  else Ok (r, output).

(** The body of [for pod in pods]: [false] when the pod clears
    [all_ok]. *)
Definition ping_pod (max_latency_ms max_loss_percent : Binary64.float)
    (s : ping_sample) (p : pod) : bool :=
  catch
    (judged <-! ping_output s (p_name p);
     let '(r, output) := judged in
     if negb (returncode r =? 0)
        && negb (contains "100% packet loss" output)
     then Ok false
     else
       loss <-! packet_loss_percent output;
       if Binary64.gtb loss max_loss_percent then Ok false
       else
         avg <-! avg_latency output;
         match avg with
         | None => Ok false
         | Some a => Ok (negb (Binary64.gtb a max_latency_ms))
         end)
    (fun _ => false).

Fixpoint all_pods {S : Type} (body : S -> pod -> bool) (s : S)
    (pods : list pod) (all_ok : bool) : bool :=
  match pods with
  | [] => all_ok
  | p :: rest => all_pods body s rest (if body s p then all_ok else false)
  end.

Definition ping_round (max_latency_ms max_loss_percent : Binary64.float)
    (s : ping_sample) : bool :=
  match ps_pods s with
  | [] => false
  | pods => all_pods (ping_pod max_latency_ms max_loss_percent) s pods true
  end.

Definition check_ping_latency_recovered
    (max_latency_ms max_loss_percent : Binary64.float)
    (samples : list ping_sample) : bool :=
  poll (ping_round max_latency_ms max_loss_percent) samples.

(** The defaults of the signature: [max_latency_ms=1000],
    [max_loss_percent=0]. *)
Definition default_max_latency_ms : Binary64.float := Binary64.exact 1000.
Definition default_max_loss_percent : Binary64.float := Binary64.exact 0.

(** The summary of a ping gives numbers: neither the loss nor the average
    latency is read as a NaN, which [float] reads from the text [nan]
    alone.  The loss that [ping] prints is a percentage of the packets
    sent, and the average a time. *)
Definition numeric (output : string) : Prop :=
  packet_loss_percent output <> Ok Binary64.NaN /\
  avg_latency output <> Ok (Some Binary64.NaN).

(** The loss and the average latency of the pod are read from the output
    of its probe, and are within the thresholds. *)
Definition within_thresholds (max_latency_ms max_loss_percent : Binary64.float)
    (s : ping_sample) (p : pod) : Prop :=
  exists r output loss avg,
    ping_output s (p_name p) = Ok (r, output) /\
    packet_loss_percent output = Ok loss /\
    avg_latency output = Ok (Some avg) /\
    Binary64.leb loss max_loss_percent = true /\
    Binary64.leb avg max_latency_ms = true.

(** The output has no line that parses as a loss summary. *)
Definition unparsable (output : string) : Prop :=
  forall line,
    List.find is_loss_line (lines output) = Some line ->
    exists e, loss_field line = Raise e /\ parse_error e = true.

(** *** Disk *)

(** The commands a round runs inside a pod. *)
Inductive command : Type :=
| WriteTest (pod_name : string)
| RemoveTestFile (pod_name : string).

Record disk_sample : Type := {
  ds_pods : list pod;
  ds_write : string -> result completed;
  ds_remove : string -> result completed
}.

(** [speed < min_write_speed_mb] for the duration printed by the write
    test. *)
Definition too_slow (duration_ms : Z) (min_write_speed_mb : Binary64.float)
  : result bool :=
  let duration_ms := if duration_ms =? 0 then 1 else duration_ms in
  seconds <-! Binary64.div_int duration_ms 1000;
  speed <-! Binary64.div (Binary64.exact 10) seconds;
  Ok (Binary64.ltb speed min_write_speed_mb).

(** [int(output.split('\n')[-1])] *)
Definition last_line_int (output : string) : result Z :=
  py_int (List.last (lines output) "").

(** The body of [for pod in pods]: the commands it runs, and [false]
    when the pod clears [all_ok]. *)
Definition disk_pod (min_write_speed_mb : Binary64.float)
    (s : disk_sample) (p : pod) : list command * bool :=
  let pod_name := p_name p in
  match ds_write s pod_name with
  | Raise _ => ([WriteTest pod_name], false)
  | Ok r =>
      let output := strip (stdout r) in
      if String.eqb output "" then ([WriteTest pod_name], false)
      else
        match (d <-! last_line_int output; too_slow d min_write_speed_mb) with
        | Raise _ => ([WriteTest pod_name], false)
        | Ok true => ([WriteTest pod_name], false)
        | Ok false =>
            ([WriteTest pod_name; RemoveTestFile pod_name],
             is_ok (ds_remove s pod_name))
        end
  end.

Fixpoint disk_pods (min_write_speed_mb : Binary64.float) (s : disk_sample)
    (pods : list pod) (all_ok : bool) : list command * bool :=
  match pods with
  | [] => ([], all_ok)
  | p :: rest =>
      let '(cmds, ok) := disk_pod min_write_speed_mb s p in
      let '(cmds', all_ok') :=
        disk_pods min_write_speed_mb s rest (if ok then all_ok else false) in
      ((cmds ++ cmds')%list, all_ok')
  end.

Definition disk_round (min_write_speed_mb : Binary64.float)
    (s : disk_sample) : list command * bool :=
  match ds_pods s with
  | [] => ([], false)
  | pods => disk_pods min_write_speed_mb s pods true
  end.

(** The whole convergence loop, with the commands run in order. *)
Fixpoint check_disk_io_performance (min_write_speed_mb : Binary64.float)
    (samples : list disk_sample) : list command * bool :=
  match samples with
  | [] => ([], false)
  | s :: rest =>
      let '(cmds, ok) := disk_round min_write_speed_mb s in
      if ok then (cmds, true)
      else
        let '(cmds', res) :=
          check_disk_io_performance min_write_speed_mb rest in
        ((cmds ++ cmds')%list, res)
  end.

Definition default_min_write_speed_mb : Binary64.float := Binary64.exact 10.

(** The write test of a pod passed its throughput check. *)
Definition throughput_ok (min_write_speed_mb : Binary64.float)
    (s : disk_sample) (p : pod) : Prop :=
  exists r d,
    ds_write s (p_name p) = Ok r /\
    strip (stdout r) <> "" /\
    last_line_int (strip (stdout r)) = Ok d /\
    too_slow d min_write_speed_mb = Ok false.

(** The factors of the unit suffixes. *)
Definition binary_factors : list Z :=
  [1024 ^ 1; 1024 ^ 2; 1024 ^ 3; 1024 ^ 4; 1024 ^ 5; 1024 ^ 6].

Definition decimal_factors : list Z :=
  [1000 ^ 1; 1000 ^ 2; 1000 ^ 3; 1000 ^ 4].

(** *** Judged containers

    A container is judged when the loop body reaches the comparison of
    its usage ratio with the threshold: it is not a side-car, and it has
    a non-zero limit.  It fails when the ratio reaches the threshold. *)

Inductive cpu_row_fails (pods : list pod) (threshold : Binary64.float)
    (line : string) : Prop :=
| CpuRowFails (pod_name container_name cpu_str : string)
    (rest : list string) (p : pod) (current_cpu_m limit_cpu_m : Z) :
    split_ws line = pod_name :: container_name :: cpu_str :: rest ->
    is_sidecar container_name = false ->
    find_pod pods pod_name = Some p ->
    parse_cpu_to_millicores cpu_str = Ok current_cpu_m ->
    get_container_cpu_limit_millicores p container_name
      = Ok (Some limit_cpu_m) ->
    limit_cpu_m <> 0 ->
    ratio_reaches current_cpu_m limit_cpu_m threshold = Ok true ->
    cpu_row_fails pods threshold line.

Inductive memory_container_fails (s : memory_sample)
    (threshold : Binary64.float) (pod_name : string) (c : container)
  : Prop :=
| MemoryContainerFails (limit_bytes usage_bytes : Z) :
    is_main c = true ->
    get_container_memory_limit_bytes c = Ok (Some limit_bytes) ->
    limit_bytes <> 0 ->
    get_container_memory_usage_bytes (ms_top s pod_name (c_name c))
      (c_name c) = Some usage_bytes ->
    ratio_reaches usage_bytes limit_bytes threshold = Ok true ->
    memory_container_fails s threshold pod_name c.

(** The containers of the pods of a round. *)
Definition in_round (s : memory_sample) (pod_name : string)
    (c : container) : Prop :=
  exists p pod_obj,
    In p (ms_pods s) /\ p_name p = pod_name /\
    ms_read s pod_name = Ok pod_obj /\ In c (p_containers pod_obj).

End CheckStatus.

(** ** Reassembly of a streamed model response: [models/llm.py] *)

Module Llm.

(** A key of a decoded JSON object: missing, [null], or a value. *)
Inductive field (A : Type) : Type :=
| Absent
| Null
| Val (a : A).
Arguments Absent {A}.
Arguments Null {A}.
Arguments Val {A} a.

(** [d.get(k)] *)
Definition get {A} (f : field A) : option A :=
  match f with
  | Val a => Some a
  | Absent | Null => None
  end.

(** [d.get(k, default)] *)
Definition get_default {A} (f : field A) (default : A) : option A :=
  match f with
  | Val a => Some a
  | Null => None
  | Absent => Some default
  end.

(** [k in d and d[k]] for a string value *)
Definition truthy_str (f : field string) : option string :=
  match f with
  | Val s => if String.eqb s "" then None else Some s
  | Absent | Null => None
  end.

Record func_chunk : Type := {
  fc_name : field string;
  fc_arguments : field string
}.

Record tool_call_chunk : Type := {
  tcc_index : Z;
  tcc_id : field string;
  tcc_type : field string;
  tcc_function : option func_chunk
}.

Record delta : Type := {
  d_content : field string;
  d_tool_calls : field (list tool_call_chunk)
}.

(** A decoded chunk: [chunk['choices'][k]['delta']] for each [k]. *)
Record chunk : Type := {
  choices : field (list delta)
}.

(** A line of the stream, as the loop classifies it: empty; not starting
    with ["data: "]; the ["[DONE]"] marker; a payload that [json.loads]
    rejects; a payload that decodes. *)
Inductive sse_line : Type :=
| Blank
| NotData (text : string)
| Done
| Malformed (text : string)
| Data (c : chunk).

Record function_call : Type := {
  name : string;
  arguments : string
}.

Record tool_call : Type := {
  id : option string;
  type_ : option string;
  function : function_call
}.

Record message : Type := {
  role : string;
  content : option string;
  tool_calls : list tool_call
}.

(** [full_message['content']] and [current_tool_calls] during the loop. *)
Record accumulator : Type := {
  acc_content : string;
  current_tool_calls : gmap Z tool_call
}.

Definition fresh (c : tool_call_chunk) : tool_call :=
  {| id := get (tcc_id c);
     type_ := get_default (tcc_type c) "function";
     function := {| name := ""; arguments := "" |} |}.

(** The two guarded assignments on [func]. *)
Definition update_function (fc : func_chunk) (t : tool_call) : tool_call :=
  let f := function t in
  let f1 :=
    match truthy_str (fc_name fc) with
    | Some n => {| name := n; arguments := arguments f |}
    | None => f
    end in
  let f2 :=
    match truthy_str (fc_arguments fc) with
    | Some a => {| name := name f1; arguments := (arguments f1 ++ a)%string |}
    | None => f1
    end in
  {| id := id t; type_ := type_ t; function := f2 |}.

(** The body of [for tool_call_chunk in delta['tool_calls']]. *)
Definition on_tool_call_chunk (calls : gmap Z tool_call)
    (c : tool_call_chunk) : gmap Z tool_call :=
  let index := tcc_index c in
  let calls1 :=
    match calls !! index with
    | Some _ => calls
    | None => <[index := fresh c]> calls
    end in
  match tcc_function c with
  | Some fc => alter (update_function fc) index calls1
  | None => calls1
  end.

Definition on_delta (a : accumulator) (d : delta) : accumulator :=
  let content1 :=
    match d_content d with
    | Val s => (acc_content a ++ s)%string
    | Absent | Null => acc_content a
    end in
  let calls1 :=
    match d_tool_calls d with
    | Val cs => fold_left on_tool_call_chunk cs (current_tool_calls a)
    | Absent | Null => current_tool_calls a
    end in
  {| acc_content := content1; current_tool_calls := calls1 |}.

Definition on_chunk (a : accumulator) (c : chunk) : accumulator :=
  match choices c with
  | Val (d :: _) => on_delta a d
  | Val [] | Absent | Null => a
  end.

(** The [for line in stream_response.iter_lines()] loop. *)
Fixpoint consume (ls : list sse_line) (a : accumulator) : accumulator :=
  match ls with
  | [] => a
  | Blank :: rest | NotData _ :: rest | Malformed _ :: rest => consume rest a
  | Done :: _ => a
  | Data c :: rest => consume rest (on_chunk a c)
  end.

(** [sorted(current_tool_calls.keys())] *)
Definition sorted_keys (calls : gmap Z tool_call) : list Z :=
  merge_sort Z.le (elements (dom calls)).

Definition parse_streamed_response (stream_response : list sse_line)
  : message :=
  let a := consume stream_response
             {| acc_content := ""; current_tool_calls := ∅ |} in
  let calls := current_tool_calls a in
  if decide (calls = ∅)
  then {| role := "assistant";
          content := Some (acc_content a);
          tool_calls := [] |}
  else {| role := "assistant";
          content := if String.eqb (acc_content a) "" then None
                     else Some (acc_content a);
          tool_calls := omap (fun i => calls !! i) (sorted_keys calls) |}.

(** *** The stream as a sequence of fragments *)

(** The lines that the loop reaches: those before the [DONE] marker. *)
Fixpoint before_done (ls : list sse_line) : list sse_line :=
  match ls with
  | [] => []
  | Done :: _ => []
  | l :: rest => l :: before_done rest
  end.

(** The delta carried by a line, if it carries one. *)
Definition delta_of (l : sse_line) : option delta :=
  match l with
  | Data c =>
      match choices c with
      | Val (d :: _) => Some d
      | _ => None
      end
  | _ => None
  end.

Definition deltas (ls : list sse_line) : list delta :=
  omap delta_of (before_done ls).

Definition fragments_of (d : delta) : list tool_call_chunk :=
  match d_tool_calls d with
  | Val cs => cs
  | Absent | Null => []
  end.

(** The tool-call fragments of the stream, in stream order. *)
Definition fragments (ls : list sse_line) : list tool_call_chunk :=
  List.concat (List.map fragments_of (deltas ls)).

Definition content_of (d : delta) : string :=
  match d_content d with
  | Val s => s
  | Absent | Null => ""
  end.

Definition join (l : list string) : string :=
  List.fold_right String.append "" l.

(** The content accumulated over the stream. *)
Definition text (ls : list sse_line) : string :=
  join (List.map content_of (deltas ls)).

Definition for_index (i : Z) (frs : list tool_call_chunk)
  : list tool_call_chunk :=
  List.filter (fun c => tcc_index c =? i) frs.

Definition argument_fragment (c : tool_call_chunk) : string :=
  match tcc_function c with
  | Some fc => default "" (truthy_str (fc_arguments fc))
  | None => ""
  end.

Definition name_fragment (c : tool_call_chunk) : option string :=
  match tcc_function c with
  | Some fc => truthy_str (fc_name fc)
  | None => None
  end.

(** The argument fragments carried for an index, concatenated in stream
    order. *)
Definition arguments_for (i : Z) (frs : list tool_call_chunk) : string :=
  join (List.map argument_fragment (for_index i frs)).

(** The non-empty name fragments carried for an index. *)
Definition names_for (i : Z) (frs : list tool_call_chunk) : list string :=
  omap name_fragment (for_index i frs).

Definition first_name (i : Z) (frs : list tool_call_chunk) : string :=
  List.hd "" (names_for i frs).

Definition last_name (i : Z) (frs : list tool_call_chunk) : string :=
  List.last (names_for i frs) "".

Definition names (m : message) : list string :=
  List.map (fun t => name (function t)) (tool_calls m).

Definition argument_strings (m : message) : list string :=
  List.map (fun t => arguments (function t)) (tool_calls m).

(** The invariant of the loop: every entry of [current_tool_calls] holds
    what the fragments seen so far carry for its index. *)
Definition tracks (frs : list tool_call_chunk) (calls : gmap Z tool_call)
  : Prop :=
  forall i,
    match calls !! i with
    | None => for_index i frs = []
    | Some t =>
        for_index i frs <> [] /\
        name (function t) = last_name i frs /\
        arguments (function t) = arguments_for i frs
    end.

End Llm.

(** ** The action executor: [methods/execution_agent.py] *)

Module ExecutionAgent.
Import PyStr.

(** How the [ansible-playbook] child process ends. *)
Inductive process : Type :=
| Exited (returncode : Z) (stdout stderr : string)
| TimedOut (stdout stderr : string)
| NotFound
| Failed (description : string).

(** One call: whether [remediation.yml] could be written, and the child. *)
Record run : Type := {
  write_ok : bool;
  child : process
}.

Definition nl : string := String newline "".

(** [str(z)] for an int *)
Definition str_of_int (z : Z) : string := pretty z.

Definition execute_playbook_and_get_response (timeout : Z) (r : run)
  : result (bool * string) :=
  if negb (write_ok r) then Raise RuntimeError
  else
    match child r with
    | Exited returncode stdout stderr =>
        if returncode =? 0 then Ok (true, strip stdout)
        else
          Ok (false,
              ("⚠️ Playbook execution failed (exit code "
               ++ str_of_int returncode ++ ")" ++ nl
               ++ "STDOUT:" ++ nl ++ strip stdout ++ nl ++ nl
               ++ "STDERR:" ++ nl ++ strip stderr)%string)
    | TimedOut stdout stderr =>
        Ok (false,
            ("⏰ Ansible playbook timed out after "
             ++ str_of_int timeout ++ "s." ++ nl
             ++ "Partial STDOUT:" ++ nl ++ strip stdout ++ nl ++ nl
             ++ "Partial STDERR:" ++ nl ++ strip stderr)%string)
    | NotFound =>
        Ok (false,
            "❌ 'ansible-playbook' command not found. Please ensure Ansible is installed and available in PATH.")
    | Failed description =>
        Ok (false,
            ("⚠️ Unexpected error during playbook execution: "
             ++ description)%string)
    end.

Definition default_timeout : Z := 300.

End ExecutionAgent.

(** ** The remediation loop: [methods/ThinkRemed/coordinator.py] *)

Module Coordinator.
Import ExecutionAgent.

Definition WAIT_REME_TIME : Z := 10.
Definition MAX_RETRY_TIME : Z := 1.

Record message : Type := {
  role : string;
  content : string
}.

(** What the loop does to the outside, in order. *)
Inductive event : Type :=
| ChatApi
| Probe (cmds : string)
| Execute (playbook : string)
| Sleep (seconds : Z)
| Verify.

(** The collaborators, scripted by call number.  [code_of] and [cmds_of]
    stand for [json.loads(arguments)["code"]] and
    [json.loads(arguments)["cmds"]].  [verify_status] comes from
    [methods/ThinkRemed/verification_agent.py], which is not among the
    sources: its answers are a parameter of the world. *)
Record world : Type := {
  inventory : result string;
  chat_api : nat -> result (list Llm.function_call);
  code_of : string -> result string;
  cmds_of : string -> result string;
  get_probe_response : nat -> result string;
  executor : nat -> run;
  verify_status : nat -> bool
}.

Record state : Type := {
  prompts : list message;
  chats : nat;
  probes : nat;
  executions : nat;
  verifications : nat;
  trace : list event
}.

Definition append (m : message) (st : state) : state :=
  {| prompts := (prompts st ++ [m])%list; chats := chats st; probes := probes st;
     executions := executions st; verifications := verifications st;
     trace := trace st |}.

Definition emit (e : event) (st : state) : state :=
  {| prompts := prompts st;
     chats := match e with ChatApi => S (chats st) | _ => chats st end;
     probes := match e with Probe _ => S (probes st) | _ => probes st end;
     executions :=
       match e with Execute _ => S (executions st) | _ => executions st end;
     verifications :=
       match e with Verify => S (verifications st) | _ => verifications st end;
     trace := (trace st ++ [e])%list |}.

Definition assistant (c : string) : message :=
  {| role := "assistant"; content := c |}.
Definition user (c : string) : message :=
  {| role := "user"; content := c |}.

Definition round_prompt : string :=
  "Please continue to generate executable Ansible playbook or get more information from the probe agent.".

(** The body of [for tool in tools or []], with its [except: pass]. *)
Definition probe_tool (w : world) (st : state) (tool : Llm.function_call)
  : state :=
  match cmds_of w (Llm.arguments tool) with
  | Raise _ => st
  | Ok probe_commands =>
      let st1 := emit (Probe probe_commands) st in
      match get_probe_response w (probes st) with
      | Raise _ => st1
      | Ok tool_result =>
          append (user round_prompt) (append (assistant tool_result) st1)
      end
  end.

(** [except (json.JSONDecodeError, KeyError, TypeError)];
    a [JSONDecodeError] is a [ValueError]. *)
Definition malformed (e : exn) : bool :=
  match e with
  | ValueError | KeyError | TypeError => true
  | _ => false
  end.

(** [None] when the [while True] loop is still running after [fuel]
    calls of the model. *)
Fixpoint get_playbook_with_probing (fuel : nat) (w : world) (st : state)
  : option (result string * state) :=
  match fuel with
  | O => None
  | S fuel' =>
      let st1 := emit ChatApi st in
      match chat_api w (chats st) with
      | Raise e => Some (Raise e, st1)
      | Ok [] => Some (Ok "", st1)
      | Ok ((first :: _) as tools) =>
          if String.eqb (Llm.name first) "print_playbook" then
            let tool_args_str := Llm.arguments first in
            let st2 := append (assistant tool_args_str) st1 in
            match code_of w tool_args_str with
            | Ok code => Some (Ok code, st2)
            | Raise e =>
                if malformed e
                then Some (Ok "", append (assistant "Error Code") st2)
                else Some (Raise e, st2)
            end
          else
            get_playbook_with_probing fuel' w
              (fold_left (probe_tool w) tools st1)
      end
  end.

(** [execute_and_verify]: [(status, verify_status_result, output)] *)
Definition execute_and_verify (w : world) (playbook_code : string)
    (st : state) : result (bool * bool * string) * state :=
  let st1 := emit (Execute playbook_code) st in
  match execute_playbook_and_get_response default_timeout
          (executor w (executions st)) with
  | Raise e => (Raise e, st1)
  | Ok (status, output) =>
      if status then
        let st2 := emit (Sleep WAIT_REME_TIME) st1 in
        let st3 := emit Verify st2 in
        (Ok (status, verify_status w (verifications st2), output), st3)
      else (Ok (status, false, output), st1)
  end.

(** What [remediate_failure] hands to its caller. *)
Inductive outcome : Type :=
| Returned (conversation : list message) (try_time : Z)
| ErrorValue
| Raised (e : exn).

Definition py_bool (b : bool) : string := if b then "True" else "False".

Definition retry_prompt (playbook_exec_status status : bool) : string :=
  ("The failure of online service has not yet been remediated.
        You may use the probe agent to further inspect the system state and generate a new Ansible playbook to attempt remediation again.
        The previous playbook execution returned: "
   ++ py_bool playbook_exec_status ++ ", output: " ++ py_bool status)%string.

Definition execution_response (output : string) : message :=
  assistant ("playbook execution response: " ++ output)%string.

(** The [while not status and try_time <= MAX_RETRY_TIME] loop; every
    iteration takes one unit of [fuel]. *)
Fixpoint retry_loop (fuel draft_fuel : nat) (w : world) (max_retry : Z)
    (playbook_exec_status status : bool) (try_time : Z) (st : state)
  : option (outcome * state) :=
  if negb status && (try_time <=? max_retry) then
    match fuel with
    | O => None
    | S fuel' =>
        let st1 :=
          append (user (retry_prompt playbook_exec_status status)) st in
        match get_playbook_with_probing draft_fuel w st1 with
        | None => None
        | Some (Raise _, st2) => Some (Returned (prompts st2) try_time, st2)
        | Some (Ok playbook_code, st2) =>
            match execute_and_verify w playbook_code st2 with
            | (Raise e, st3) => Some (Raised e, st3)
            | (Ok (exec_status', status', output), st3) =>
                retry_loop fuel' draft_fuel w max_retry exec_status' status'
                  (try_time + 1) (append (execution_response output) st3)
            end
        end
    end
  else Some (Returned (prompts st) try_time, st).

Definition dq : string := String (PyStr.chr 34) "".

Definition root_prompt (runtime_envs inventory_content namespace root_cause
    failure_category : string) : string :=
  ("You are an experienced SRE managing a microservice system.
    A failure has occurred, and your task is to generate a final executable Ansible playbook based on the given root cause, failure category, and the probed information (executed by " ++ dq ++ "ansible-playbook -i inventory.ini remediation.yml" ++ dq ++ ").
    The system will automatically execute the playbook and verify whether the failure has been successfully resolved.  
    [Attention] Please ensure that online services remain uninterrupted; restarting services should not be considered a primary strategy.
    " ++ runtime_envs ++ "
    The content of inventory.ini is " ++ inventory_content ++ "
    The current namespace is: " ++ namespace ++ ", failure root cause service is: "
   ++ root_cause ++ ", and the failure category is: " ++ failure_category
   ++ ".")%string.

Definition initial (ps : list message) : state :=
  {| prompts := ps; chats := 0; probes := 0; executions := 0;
     verifications := 0; trace := [] |}.

Definition remediate_failure_with (max_retry : Z) (fuel : nat) (w : world)
    (runtime_envs namespace root_cause failure_category : string)
  : option (outcome * state) :=
  match inventory w with
  | Raise e => Some (Raised e, initial [])
  | Ok inventory_content =>
      let st0 :=
        initial [ {| role := "system";
                     content := root_prompt runtime_envs inventory_content
                                  namespace root_cause failure_category |} ] in
      match get_playbook_with_probing fuel w st0 with
      | None => None
      | Some (Raise _, st1) => Some (ErrorValue, st1)
      | Some (Ok playbook_code, st1) =>
          match execute_and_verify w playbook_code st1 with
          | (Raise e, st2) => Some (Raised e, st2)
          | (Ok (playbook_exec_status, status, output), st2) =>
              retry_loop fuel fuel w max_retry playbook_exec_status status 1
                (append (execution_response output) st2)
          end
      end
  end.

Definition remediate_failure : nat -> world -> string -> string -> string ->
    string -> option (outcome * state) :=
  remediate_failure_with MAX_RETRY_TIME.

(** *** Notions used by the properties *)

(** The executor reports success for a run. *)
Definition succeeded (r : run) : bool :=
  match execute_playbook_and_get_response default_timeout r with
  | Ok (true, _) => true
  | _ => false
  end.

(** Among the first [n] runs of the executor, those reported successful. *)
Fixpoint successes (w : world) (n : nat) : nat :=
  match n with
  | O => O
  | S k => (successes w k + if succeeded (executor w k) then 1 else 0)%nat
  end.

(** Every drafting call ends within [fuel] calls of the model. *)
Definition responsive (w : world) (fuel : nat) : Prop :=
  forall st, get_playbook_with_probing fuel w st <> None.

Definition count_verify (t : list event) : nat :=
  length (List.filter (fun e => match e with Verify => true | _ => false end) t).

Definition count_execute (t : list event) : nat :=
  length (List.filter
            (fun e => match e with Execute _ => true | _ => false end) t).

(** The counters agree with the trace, and the verifications made so far
    are as many as the executions reported successful. *)
Definition consistent (w : world) (st : state) : Prop :=
  verifications st = successes w (executions st) /\
  count_verify (trace st) = verifications st /\
  count_execute (trace st) = executions st.

(** An event other than an execution or a verification. *)
Definition quiet (e : event) : Prop :=
  match e with
  | Execute _ | Verify => False
  | _ => True
  end.

End Coordinator.

(** ** The campaign: [inject_and_remediate.py], [chaos/injection.py],
       [envs/env.py] *)

Module Campaign.
Import CheckStatus.

(** How a call ends: it returns, the process exits ([sys.exit]), or an
    exception leaves it. *)
Inductive flow (A : Type) : Type :=
| Return (a : A)
| SystemExit (code : Z)
| Exception (e : exn).
Arguments Return {A} a.
Arguments SystemExit {A} code.
Arguments Exception {A} e.

(** *** [deploy_env] *)

(** The exit code of [deploy.sh] and whether the pods become ready within
    [MAX_RETRIES] checks. *)
Record deployment : Type := {
  deploy_code : Z;
  pods_ready : bool
}.

Definition deploy_env (d : deployment) : flow bool :=
  if negb (deploy_code d =? 0) then SystemExit 1
  else Return (pods_ready d).

(** *** [inject_failure] *)

(** [config_patch]: the body of the [try] of the ["pod-config-error"]
    branch; [template_exists]: [os.path.exists(template_path)];
    [apply]: [kubectl apply -f]. *)
Record injection : Type := {
  config_patch : result bool;
  template_exists : bool;
  apply : result completed
}.

Definition inject_failure (failure_type : string) (i : injection)
  : result bool :=
  if String.eqb failure_type "pod-config-error"
  then Ok (catch (config_patch i) (fun _ => false))
  else if negb (template_exists i) then Raise FileNotFoundError
  else
    match apply i with
    | Raise TimeoutExpired => Ok false
    | Raise e => Raise e
    | Ok r => Ok (returncode r =? 0)
    end.

(** *** [run_experiments] *)

Record args : Type := {
  experiments : Z;
  failure_list : list string;
  enable_strict_restart : bool;
  wait_interval : Z;
  remediate_method : string
}.

(** What the orchestrator does to the outside, in order. *)
Inductive event : Type :=
| CheckHealthy (target_pod : string)
| DeployEnv
| InjectFailure (failure_type target_pod : string)
| CheckInjected (failure_type target_pod : string)
| Wait (seconds : Z)
| StopInjection (failure_type : string)
| Remediate (failure_type target_pod : string)
| CheckFinal (failure_type target_pod : string)
| SaveConversation (success : bool) (retries : Z)
| RestoreByOriginalManifest (target_pod : string).

(** What one pass of the [while] loop meets.  Nothing in
    [run_experiments] is caught, so every call is given its outcome, a
    value or an exception: [healthy] is the [check_status.check] before
    the injection; [polls] are the outcomes of [check_status.check] at the
    polls that start before the injection timeout; [redeploy k] is the
    [k]-th [deploy_env] of the pass; [json_length msg] is
    [len(json.dumps(msg, ensure_ascii=False))]; [final_check] is the
    [check_status.check] after the remediation, [saved] the outcome of
    [_save_conversation], [stopped] that of [stop_injection] and
    [restored] that of [restore_by_original_manifest], whose value is not
    read. *)
Record experiment : Type := {
  random_failure : string;
  random_service : string;
  healthy : result bool;
  redeploy : nat -> deployment;
  injected_by : injection;
  polls : list (result bool);
  remediation : Coordinator.outcome;
  json_length : Coordinator.message -> Z;
  final_check : result bool;
  saved : result unit;
  stopped : result unit;
  restored : result bool
}.

Record counters : Type := {
  current_experiment_no : Z;
  success_count : Z;
  total_remediation_tries : Z;
  total_token_count : Z;
  success_token_count : Z;
  failure_injection_failures : Z;
  failure_type_success_remediation_dict : gmap string Z;
  failure_type_success_injection_dict : gmap string Z
}.

Definition start : counters :=
  {| current_experiment_no := 1; success_count := 0;
     total_remediation_tries := 0; total_token_count := 0;
     success_token_count := 0; failure_injection_failures := 0;
     failure_type_success_remediation_dict := ∅;
     failure_type_success_injection_dict := ∅ |}.

(** [d[k] = d.get(k, 0) + 1] *)
Definition bump (k : string) (d : gmap string Z) : gmap string Z :=
  <[k := default 0 (d !! k) + 1]> d.

Definition abandon (c : counters) : counters :=
  {| current_experiment_no := current_experiment_no c + 1;
     success_count := success_count c;
     total_remediation_tries := total_remediation_tries c;
     total_token_count := total_token_count c;
     success_token_count := success_token_count c;
     failure_injection_failures := failure_injection_failures c + 1;
     failure_type_success_remediation_dict :=
       failure_type_success_remediation_dict c;
     failure_type_success_injection_dict :=
       failure_type_success_injection_dict c |}.

Definition record (failure_type : string) (success : bool)
    (try_time tokens : Z) (c : counters) : counters :=
  {| current_experiment_no := current_experiment_no c + 1;
     success_count := success_count c + (if success then 1 else 0);
     total_remediation_tries :=
       total_remediation_tries c + (if success then try_time else 0);
     total_token_count := total_token_count c + tokens;
     success_token_count :=
       success_token_count c + (if success then tokens else 0);
     failure_injection_failures := failure_injection_failures c;
     failure_type_success_remediation_dict :=
       (if success then bump failure_type else id)
         (failure_type_success_remediation_dict c);
     failure_type_success_injection_dict :=
       bump failure_type (failure_type_success_injection_dict c) |}.

(** The inner [while True] that waits for the failure to show.
    [Return true] is [injected = True]; [None] when the loop is still
    running after [fuel] iterations. *)
Fixpoint await_injection (fuel : nat) (a : args) (x : experiment)
    (failure_type target_pod : string) (deploys : nat)
    (ps : list (result bool))
  : option (list event * flow bool) :=
  match fuel with
  | O => None
  | S fuel' =>
      match ps with
      | [] =>
          if enable_strict_restart a then
            match deploy_env (redeploy x deploys) with
            | Return _ =>
                match await_injection fuel' a x failure_type target_pod
                        (S deploys) [] with
                | Some (evs, f) => Some (DeployEnv :: evs, f)
                | None => None
                end
            | SystemExit code => Some ([DeployEnv], SystemExit code)
            | Exception e => Some ([DeployEnv], Exception e)
            end
          else Some ([], Return false)
      | Raise e :: _ =>
          Some ([CheckInjected failure_type target_pod], Exception e)
      | Ok recovered :: rest =>
          if negb recovered
          then Some ([CheckInjected failure_type target_pod], Return true)
          else
            match await_injection fuel' a x failure_type target_pod
                    deploys rest with
            | Some (evs, f) =>
                Some (CheckInjected failure_type target_pod
                      :: Wait (wait_interval a) :: evs, f)
            | None => None
            end
      end
  end.

(** [estimate_token_count] on a transcript *)
Definition estimate_token_count (json_length : Coordinator.message -> Z)
    (conversations : list Coordinator.message) : Z :=
  List.fold_right Z.add 0 (List.map json_length conversations) / 4.

(** [remediate]: an unknown method returns [None], which the caller
    cannot unpack. *)
Definition remediate (method : string) (o : Coordinator.outcome)
  : Coordinator.outcome :=
  if String.eqb method "ThinkRemed" || String.eqb method "SoloGen"
  then o else Coordinator.Raised TypeError.

(** A call of the pass: its event, and then the rest of the pass with
    its value, or its exception, which leaves the pass. *)
Definition invoke {A B : Type} (e : event) (r : result A)
    (k : A -> list event * flow B) : list event * flow B :=
  match r with
  | Raise x => ([e], Exception x)
  | Ok v => let '(evs, f) := k v in (e :: evs, f)
  end.

(** From [remediate(...)] to the end of the pass. *)
Definition remediation_phase (a : args) (x : experiment)
    (failure_type target_pod : string) (c : counters)
  : list event * flow counters :=
  match remediate (remediate_method a) (remediation x) with
  | Coordinator.Raised e =>
      ([Remediate failure_type target_pod], Exception e)
  | Coordinator.ErrorValue =>
      (* [estimate_token_count(False)] iterates over a [bool] *)
      ([Remediate failure_type target_pod], Exception TypeError)
  | Coordinator.Returned conversations try_time =>
      let '(evs, f) :=
        invoke (CheckFinal failure_type target_pod) (final_check x)
          (fun success =>
        invoke (SaveConversation success try_time) (saved x)
          (fun _ =>
        invoke (StopInjection failure_type) (stopped x)
          (fun _ =>
        invoke (RestoreByOriginalManifest target_pod) (restored x)
          (fun _ =>
        ([Wait 5],
         Return (record failure_type success try_time
                   (estimate_token_count (json_length x) conversations)
                   c)))))) in
      (Remediate failure_type target_pod :: evs, f)
  end.

(** The failure of the slot: taken from the experiment file when there
    is one, drawn by [get_random_failure] otherwise. *)
Definition failure_type_of (a : args) (x : experiment) (c : counters)
  : string :=
  match failure_list a with
  | [] => random_failure x
  | l => List.nth (Z.to_nat (current_experiment_no c - 1)) l ""
  end.

(** One pass of [while current_experiment_no <= total_experiments]. *)
Definition pass (fuel : nat) (a : args) (x : experiment) (c : counters)
  : option (list event * flow counters) :=
  let failure_type := failure_type_of a x c in
  let target_pod := random_service x in
  match healthy x with
  | Raise e => Some ([CheckHealthy target_pod], Exception e)
  | Ok false =>
    Some ([CheckHealthy target_pod; DeployEnv],
          match deploy_env (redeploy x 0) with
          | Return _ => Return c
          | SystemExit code => SystemExit code
          | Exception e => Exception e
          end)
  | Ok true =>
    match inject_failure failure_type (injected_by x) with
    | Raise e =>
        Some ([CheckHealthy target_pod;
               InjectFailure failure_type target_pod], Exception e)
    | Ok false =>
        Some ([CheckHealthy target_pod;
               InjectFailure failure_type target_pod], Return (abandon c))
    | Ok true =>
        match await_injection fuel a x failure_type target_pod 0
                (polls x) with
        | None => None
        | Some (evs, f) =>
            let before :=
              ([CheckHealthy target_pod;
                InjectFailure failure_type target_pod] ++ evs)%list in
            match f with
            | SystemExit code => Some (before, SystemExit code)
            | Exception e => Some (before, Exception e)
            | Return false =>
                Some ((before ++ [StopInjection failure_type])%list,
                      match stopped x with
                      | Ok _ => Return (abandon c)
                      | Raise e => Exception e
                      end)
            | Return true =>
                let '(evs', f') :=
                  remediation_phase a x failure_type target_pod c in
                Some ((before ++ evs')%list, f')
            end
        end
    end
  end.

(** How the campaign ends.  [Unfinished]: the script of passes ran out
    while experiments remained; [Stuck]: a pass never left its wait
    loop. *)
Inductive ending : Type :=
| Completed
| Exited (code : Z)
| Crashed (e : exn)
| Unfinished
| Stuck.

Definition total_experiments (a : args) : Z :=
  match failure_list a with
  | [] => experiments a
  | l => Z.of_nat (length l)
  end.

(** The campaign: the events of every pass, the counters and the end. *)
Fixpoint run_experiments (fuel : nat) (a : args) (script : list experiment)
    (c : counters) : list (list event) * counters * ending :=
  if current_experiment_no c <=? total_experiments a then
    match script with
    | [] => ([], c, Unfinished)
    | x :: rest =>
        match pass fuel a x c with
        | None => ([], c, Stuck)
        | Some (evs, Return c') =>
            let '(log, c'', e) := run_experiments fuel a rest c' in
            (evs :: log, c'', e)
        | Some (evs, SystemExit code) => ([evs], c, Exited code)
        | Some (evs, Exception e) => ([evs], c, Crashed e)
        end
    end
  else ([], c, Completed).

(** *** Notions used by the properties *)

Definition is_stop (e : event) : bool :=
  match e with StopInjection _ => true | _ => false end.

Definition is_restore (e : event) : bool :=
  match e with RestoreByOriginalManifest _ => true | _ => false end.

Definition is_remediate (e : event) : bool :=
  match e with Remediate _ _ => true | _ => false end.

(** How often a pass invokes [stop_injection] and
    [restore_by_original_manifest]. *)
Definition stops (evs : list event) : nat :=
  length (List.filter is_stop evs).

Definition restores (evs : list event) : nat :=
  length (List.filter is_restore evs).

(** The pass reaches the remediation phase. *)
Definition reaches_remediation (evs : list event) : Prop :=
  List.existsb is_remediate evs = true.

(** The pass makes the calls [last] at its end, and neither stops the
    injection nor restores before them. *)
Definition ends_with (evs last : list event) : Prop :=
  exists before,
    evs = (before ++ last)%list /\ stops before = O /\ restores before = O.

(** The events of the wait loop. *)
Definition waiting (e : event) : Prop :=
  match e with
  | CheckInjected _ _ | Wait _ | DeployEnv => True
  | _ => False
  end.

(** The pass leaves the loop counter alone (the slot is tried again) or
    moves to the next slot. *)
Definition proceeds (c c' : counters) : Prop :=
  c' = c \/ current_experiment_no c' = current_experiment_no c + 1.

(** No collaborator of the pass fails in a way the loop does not absorb:
    every redeploy succeeds and every call returns, whatever it returns;
    the remediation call returns a transcript. *)
Definition absorbed (a : args) (x : experiment) (c : counters) : Prop :=
  (forall k, deploy_code (redeploy x k) = 0) /\
  is_ok (healthy x) = true /\
  is_ok (inject_failure (failure_type_of a x c) (injected_by x)) = true /\
  List.forallb is_ok (polls x) = true /\
  is_ok (final_check x) = true /\
  is_ok (saved x) = true /\
  is_ok (stopped x) = true /\
  is_ok (restored x) = true /\
  exists conversation try_time,
    remediate (remediate_method a) (remediation x)
    = Coordinator.Returned conversation try_time.

Definition survived (e : ending) : Prop :=
  match e with
  | Completed | Unfinished | Stuck => True
  | Exited _ | Crashed _ => False
  end.

End Campaign.

(** ** Fixtures

    Concrete clusters, tables and streams on which the properties below are
    evaluated. *)

Module Fixtures.
Import CheckStatus.

Definition nl : string := String PyStr.newline "".

Definition limits (cpu memory : string) : gmap string string :=
  <["cpu" := cpu]> (<["memory" := memory]> ∅).

Definition container_of (n cpu memory : string) : container :=
  {| c_name := n; c_limits := Some (limits cpu memory) |}.

(** A pod with three containers that carry limits. *)
Definition svc_a : pod :=
  {| p_name := "svc-a-1";
     p_containers := [ container_of "app" "500m" "256Mi";
                       container_of "db" "1" "1Gi";
                       container_of "cache" "0.2" "128Mi" ] |}.

Definition top_ok (out : string) : result completed :=
  Ok {| returncode := 0; stdout := out; stderr := "" |}.

Definition header : string := "POD NAME CPU(cores) MEMORY(bytes)".

(** Two containers are below half of their limits; [cache] is at 75% of
    its CPU limit and at 78% of its memory limit. *)
Definition one_of_three : string :=
  (header ++ nl ++ "svc-a-1 app 100m 20Mi" ++ nl
   ++ "svc-a-1 db 450m 200Mi" ++ nl ++ "svc-a-1 cache 150m 100Mi")%string.

Definition memory_one_of_three : memory_sample :=
  {| ms_pods := [svc_a];
     ms_read := fun _ => Ok svc_a;
     ms_top := fun _ _ => top_ok one_of_three |}.

(** Telemetry with a fractional millicore value and a memory value
    without a unit. *)
Definition fractional : string :=
  (header ++ nl ++ "svc-a-1 app 0.5m 1.5")%string.

(** *** Network probes *)

Definition db_0 : pod := {| p_name := "db-0"; p_containers := [] |}.

Definition ping_of (out : string) : ping_sample :=
  {| ps_pods := [db_0];
     ps_ping := fun _ => top_ok out;
     ps_fallback := fun _ => Raise OtherError |}.

(** A summary whose loss and average latency read [nan]. *)
Definition nan_summary : string :=
  ("PING 8.8.8.8 (8.8.8.8): 56 data bytes" ++ nl
   ++ "3 packets transmitted, 3 packets received, nan% packet loss" ++ nl
   ++ "round-trip min/avg/max = 1.0/nan/3.0 ms")%string.

Definition healthy_summary : string :=
  ("PING 8.8.8.8 (8.8.8.8): 56 data bytes" ++ nl
   ++ "3 packets transmitted, 3 packets received, 0% packet loss" ++ nl
   ++ "round-trip min/avg/max = 10.1/12.5/15.0 ms")%string.

Definition garbage : string := "?? not a ping summary ??".

(** *** Disk probes *)

Definition disk_of (out : string) (rm : result completed) : disk_sample :=
  {| ds_pods := [db_0];
     ds_write := fun _ => top_ok out;
     ds_remove := fun _ => rm |}.

Definition dd_report (seconds rate ms : string) : string :=
  ("10+0 records in" ++ nl ++ "10+0 records out" ++ nl
   ++ "10485760 bytes (10 MB, 10 MiB) copied, " ++ seconds ++ " s, "
   ++ rate ++ " MB/s" ++ nl ++ ms)%string.

(** Ten megabytes in 1500 ms: 6.7 MB/s, within the two seconds that the
    write test is given. *)
Definition slow_disk : disk_sample :=
  disk_of (dd_report "1.5" "7.0" "1500") (top_ok "").

(** Ten megabytes in 50 ms: 200 MB/s. *)
Definition fast_disk : disk_sample :=
  disk_of (dd_report "0.05" "210" "50") (top_ok "").

Definition silent_disk : disk_sample := disk_of "" (top_ok "").

Definition broken_disk : disk_sample :=
  {| ds_pods := [db_0];
     ds_write := fun _ => Raise TimeoutExpired;
     ds_remove := fun _ => top_ok "" |}.

(** *** Streams *)

Definition call_fragment (i : Z) (n a : string) : Llm.tool_call_chunk :=
  {| Llm.tcc_index := i;
     Llm.tcc_id := Llm.Absent;
     Llm.tcc_type := Llm.Absent;
     Llm.tcc_function :=
       Some {| Llm.fc_name := Llm.Val n; Llm.fc_arguments := Llm.Val a |} |}.

Definition data (cs : list Llm.tool_call_chunk) : Llm.sse_line :=
  Llm.Data
    {| Llm.choices :=
         Llm.Val [ {| Llm.d_content := Llm.Null;
                      Llm.d_tool_calls := Llm.Val cs |} ] |}.

(** Two fragments for the same index, each with a name. *)
Definition renamed : list Llm.sse_line :=
  [ data [call_fragment 0 "probe" "{"];
    data [call_fragment 0 "print_playbook" "}"];
    Llm.Done ].

(** Fragments for two indices, the higher index first. *)
Definition interleaved : list Llm.sse_line :=
  [ data [call_fragment 1 "probe" "{b"];
    Llm.Blank;
    data [call_fragment 0 "print_playbook" "{a"; call_fragment 1 "" "}"];
    Llm.Malformed "{";
    data [call_fragment 0 "" "}"];
    Llm.Done;
    data [call_fragment 0 "late" "!"] ].

(** *** Remediation worlds *)

Definition playbook_call : Llm.function_call :=
  {| Llm.name := "print_playbook"; Llm.arguments := "{code: restart}" |}.

Definition world_of (r : ExecutionAgent.run) (verified : bool)
  : Coordinator.world :=
  {| Coordinator.inventory := Ok "[servers]";
     Coordinator.chat_api := fun _ => Ok [playbook_call];
     Coordinator.code_of := fun _ => Ok "- hosts: all";
     Coordinator.cmds_of := fun _ => Raise KeyError;
     Coordinator.get_probe_response := fun _ => Ok "";
     Coordinator.executor := fun _ => r;
     Coordinator.verify_status := fun _ => verified |}.

(** The playbook runs, and the failure stays. *)
Definition stubborn : Coordinator.world :=
  world_of {| ExecutionAgent.write_ok := true;
              ExecutionAgent.child := ExecutionAgent.Exited 0 "ok" "" |}
           false.

(** The playbook exits with status 2. *)
Definition failing : Coordinator.world :=
  world_of {| ExecutionAgent.write_ok := true;
              ExecutionAgent.child := ExecutionAgent.Exited 2 "" "fatal" |}
           true.

(** The playbook hangs and is killed. *)
Definition hanging : Coordinator.world :=
  world_of {| ExecutionAgent.write_ok := true;
              ExecutionAgent.child := ExecutionAgent.TimedOut "" "" |}
           true.

(** [ansible-playbook] is not installed. *)
Definition missing : Coordinator.world :=
  world_of {| ExecutionAgent.write_ok := true;
              ExecutionAgent.child := ExecutionAgent.NotFound |}
           true.

Definition run_of (w : Coordinator.world)
  : option (Coordinator.outcome * Coordinator.state) :=
  Coordinator.remediate_failure 3 w "This microservice system runs on k3s."
    "default" "svc-a" "cpu-stress".

(** *** Campaigns *)

Definition two_slots : Campaign.args :=
  {| Campaign.experiments := 2;
     Campaign.failure_list := [];
     Campaign.enable_strict_restart := false;
     Campaign.wait_interval := 10;
     Campaign.remediate_method := "ThinkRemed" |}.

Definition applied : Campaign.injection :=
  {| Campaign.config_patch := Ok true;
     Campaign.template_exists := true;
     Campaign.apply := top_ok "stresschaos.chaos-mesh.org/cpu-stress created" |}.

Definition rejected : Campaign.injection :=
  {| Campaign.config_patch := Ok true;
     Campaign.template_exists := true;
     Campaign.apply :=
       Ok {| returncode := 1; stdout := ""; stderr := "error: no matches" |} |}.

Definition no_template : Campaign.injection :=
  {| Campaign.config_patch := Ok true;
     Campaign.template_exists := false;
     Campaign.apply := top_ok "" |}.

Definition deployed : Campaign.deployment :=
  {| Campaign.deploy_code := 0; Campaign.pods_ready := true |}.

Definition deploy_failed : Campaign.deployment :=
  {| Campaign.deploy_code := 1; Campaign.pods_ready := false |}.

(** A pass on a healthy target whose failure shows at the first poll. *)
Definition slot (i : Campaign.injection) (ps : list bool)
    (o : Coordinator.outcome) (recovered : bool) : Campaign.experiment :=
  {| Campaign.random_failure := "cpu-stress";
     Campaign.random_service := "svc-a";
     Campaign.healthy := Ok true;
     Campaign.redeploy := fun _ => deployed;
     Campaign.injected_by := i;
     Campaign.polls := List.map Ok ps;
     Campaign.remediation := o;
     Campaign.json_length := fun _ => 120;
     Campaign.final_check := Ok recovered;
     Campaign.saved := Ok tt;
     Campaign.stopped := Ok tt;
     Campaign.restored := Ok true |}.

Definition remediated : Campaign.experiment :=
  slot applied [false] (Coordinator.Returned [] 1) true.

Definition not_remediated : Campaign.experiment :=
  slot applied [false] (Coordinator.Returned [] 2) false.

Definition remediation_raises : Campaign.experiment :=
  slot applied [false] (Coordinator.Raised RuntimeError) false.

Definition remediation_error_value : Campaign.experiment :=
  slot applied [false] Coordinator.ErrorValue false.

Definition injection_rejected : Campaign.experiment :=
  slot rejected [] (Coordinator.Returned [] 1) true.

Definition injection_unseen : Campaign.experiment :=
  slot applied [true; true; true] (Coordinator.Returned [] 1) true.

Definition template_missing : Campaign.experiment :=
  slot no_template [] (Coordinator.Returned [] 1) true.

(** An unhealthy target, and a redeploy whose script fails. *)
Definition redeploy_fails : Campaign.experiment :=
  {| Campaign.random_failure := "cpu-stress";
     Campaign.random_service := "svc-a";
     Campaign.healthy := Ok false;
     Campaign.redeploy := fun _ => deploy_failed;
     Campaign.injected_by := applied;
     Campaign.polls := [];
     Campaign.remediation := Coordinator.Returned [] 1;
     Campaign.json_length := fun _ => 120;
     Campaign.final_check := Ok true;
     Campaign.saved := Ok tt;
     Campaign.stopped := Ok tt;
     Campaign.restored := Ok true |}.

Definition campaign (script : list Campaign.experiment)
  : list (list Campaign.event) * Z * Campaign.ending :=
  let '(log, c, e) :=
    Campaign.run_experiments 8 two_slots script Campaign.start in
  (log, Campaign.current_experiment_no c, e).

End Fixtures.

(** ** More Python string operations *)

Module PyText.
Import PyStr.

(** [s.replace(old, new)] for a non-empty [old]: the occurrences are
    found from left to right and do not overlap.  [skip] counts the
    characters of an occurrence that are still to be passed over. *)
Fixpoint replace_go (old new : string) (skip : nat) (s : string) : string :=
  match s with
  | EmptyString => EmptyString
  | String c r =>
      match skip with
      | S k => replace_go old new k r
      | O =>
          if String.prefix old s
          then (new ++ replace_go old new (String.length old - 1) r)%string
          else String c (replace_go old new O r)
      end
  end.

Definition replace (old new s : string) : string := replace_go old new O s.

(** The ASCII line boundaries of [str.splitlines], the pair CR LF
    apart: LF, VT, FF, CR, FS, GS, RS. *)
Definition is_line_boundary (c : ascii) : bool :=
  let n := N_of_ascii c in
  (((10 <=? n) && (n <=? 13)) || ((28 <=? n) && (n <=? 30)))%N.

(** [s.splitlines()]: no line for the empty rest after the last
    boundary. *)
Fixpoint splitlines_go (acc : string) (s : string) : list string :=
  match s with
  | EmptyString =>
      match acc with
      | EmptyString => []
      | _ => [rev acc]
      end
  | String c r =>
      if is_line_boundary c then
        match r with
        | String d r' =>
            if Ascii.eqb c (chr 13) && Ascii.eqb d (chr 10)
            then rev acc :: splitlines_go EmptyString r'
            else rev acc :: splitlines_go EmptyString r
        | EmptyString => [rev acc]
        end
      else splitlines_go (String c acc) r
  end.

Definition splitlines (s : string) : list string :=
  splitlines_go EmptyString s.

(** [c in chars] *)
Fixpoint mem (c : ascii) (chars : string) : bool :=
  match chars with
  | EmptyString => false
  | String d r => Ascii.eqb c d || mem c r
  end.

Fixpoint lstrip_chars (chars s : string) : string :=
  match s with
  | EmptyString => EmptyString
  | String c r => if mem c chars then lstrip_chars chars r else s
  end.

(** [s.rstrip(chars)] *)
Definition rstrip_chars (chars s : string) : string :=
  rev (lstrip_chars chars (rev s)).

(** [sep.join(l)] *)
Fixpoint join (sep : string) (l : list string) : string :=
  match l with
  | [] => EmptyString
  | [s] => s
  | s :: rest => (s ++ sep ++ join sep rest)%string
  end.

(** The number of occurrences of a character. *)
Fixpoint count (c : ascii) (s : string) : nat :=
  match s with
  | EmptyString => O
  | String d r => ((if Ascii.eqb d c then 1 else 0) + count c r)%nat
  end.

(** [str(n)] written with at least [width] digits, for [0 <= n]. *)
Definition zero_pad (width : nat) (n : Z) : string :=
  let s := pretty n in
  (String.concat "" (List.repeat "0" (width - String.length s)) ++ s)%string.

(** [f"{x:.{prec}f}"]: the decimal with [prec] digits after the point
    that is nearest to the exact value of [x], ties to even. *)
Definition format_fixed (prec : nat) (x : Binary64.float) : string :=
  match x with
  | Binary64.NaN => "nan"
  | Binary64.Infinity neg => if neg then "-inf" else "inf"
  | Binary64.Finite m e =>
      let scale := 10 ^ Z.of_nat prec in
      let a := Z.abs m in
      let n :=
        if 0 <=? e then a * 2 ^ e * scale
        else Binary64.rne (a * scale) (2 ^ (- e)) in
      let body :=
        match prec with
        | O => pretty n
        | S _ => (pretty (n / scale) ++ "." ++ zero_pad prec (n mod scale))%string
        end in
      if m <? 0 then ("-" ++ body)%string else body
  end.

End PyText.

(** ** The failure types: [chaos/failures.py] *)

Module Failures.

Definition failures : list string :=
  [ "cpu-stress"; "memory-stress"; "pod-fail"; "network-loss";
    "network-delay"; "disk-io"; "pod-config-error" ].

Definition dq : string := String (PyStr.chr 34) "".

(** The dictionary [stop_chaos], in the order of its keys. *)
Definition stop_chaos : list (string * string) :=
  [ ("cpu-stress",
     "kubectl delete stresschaos cpu-stress -n [target_namespace]");
    ("memory-stress",
     "kubectl delete stresschaos memory-stress -n [target_namespace]");
    ("pod-fail", "kubectl delete podchaos pod-fail -n [target_namespace]");
    ("network-loss",
     "kubectl delete networkchaos network-loss -n [target_namespace]");
    ("network-delay",
     "kubectl delete networkchaos network-delay -n [target_namespace]");
    ("disk-io",
     ("timeout 5s kubectl delete iochaos disk-io -n [target_namespace] || kubectl patch iochaos disk-io -p '{"
      ++ dq ++ "metadata" ++ dq ++ ":{" ++ dq ++ "finalizers" ++ dq
      ++ ":[]}}' --type=merge -n [target_namespace]")%string);
    ("pod-config-error", "") ].

(** [d.get(k)] on a dictionary written as a list of items with distinct
    keys. *)
Fixpoint lookup {A : Type} (k : string) (d : list (string * A)) : option A :=
  match d with
  | [] => None
  | (k', v) :: rest => if String.eqb k k' then Some v else lookup k rest
  end.

(** [x in l] for a list of strings *)
Definition member (x : string) (l : list string) : bool :=
  List.existsb (String.eqb x) l.

End Failures.

(** ** Cluster objects with their status

    A pod as the cluster client lists it, as far as the sources read it:
    [metadata.name], [metadata.deletion_timestamp], [status.phase],
    [status.conditions] and, per container of [spec.containers], [name]
    and [resources].  [metadata] and [status] themselves are present, as
    in every object that the API server returns. *)

Module Cluster.

Record condition : Type := {
  cond_type : string;
  cond_status : string
}.

Record requirements : Type := {
  requests : option (gmap string string);
  limits : option (gmap string string)
}.

Record container : Type := {
  ct_name : string;
  ct_resources : option requirements
}.

Record pod : Type := {
  pd_name : string;
  deletion_timestamp : option string;
  phase : option string;
  conditions : option (list condition);
  containers : list container
}.

(** What the CPU and memory predicates read of a container and a pod. *)
Definition container_view (c : container) : CheckStatus.container :=
  {| CheckStatus.c_name := ct_name c;
     CheckStatus.c_limits :=
       match ct_resources c with
       | Some r => limits r
       | None => None
       end |}.

Definition view (p : pod) : CheckStatus.pod :=
  {| CheckStatus.p_name := pd_name p;
     CheckStatus.p_containers := List.map container_view (containers p) |}.

End Cluster.

(** ** The recovery oracle, from the readiness gate to the dispatcher:
       [chaos/check_status.py] *)

Module Recovery.
Import PyStr CheckStatus Cluster.

Definition START_TIMEOUT : Z := 300.
Definition START_CHECK_INTERVAL : Z := 10.
Definition TIMEOUT : Z := 10.
Definition INTERVAL : Z := 2.

(** [get_pod_list]: the items listed, or [[]] when the call raises. *)
Definition get_pod_list (listing : result (list pod)) : list pod :=
  catch listing (fun _ => []).

(** The loop [for condition in pod.status.conditions or []] of
    [check_pod_running_and_ready]. *)
Fixpoint ready_conditions (cs : list condition) : bool :=
  match cs with
  | [] => true
  | c :: rest =>
      if String.eqb (cond_type c) "Ready"
         && negb (String.eqb (cond_status c) "True")
      then false
      else ready_conditions rest
  end.

Definition is_running (p : pod) : bool :=
  match phase p with
  | Some ph => String.eqb ph "Running"
  | None => false
  end.

Definition check_pod_running_and_ready (p : pod) : bool :=
  match deletion_timestamp p with
  | Some _ => false
  | None =>
      if negb (is_running p) then false
      else ready_conditions (default [] (conditions p))
  end.

(** *** Deadlines

    A loop [while time.time() - start_time < timeout] is given its
    timeline: for every round that the loop would run if nothing stopped
    it, the reading [time.time() - start_time] at the test before the
    round, and what the round observes.  The loop runs the rounds up to the
    first reading that has reached the deadline. *)

Definition timeline (S : Type) : Type := list (Binary64.float * S).

Fixpoint rounds_before {S : Type} (timeout : Z) (tl : timeline S) : list S :=
  match tl with
  | [] => []
  | (elapsed, s) :: rest =>
      if Binary64.ltb elapsed (Binary64.exact timeout)
      then s :: rounds_before timeout rest
      else []
  end.

(** *** The readiness gate

    The first loop of the CPU, memory, network and disk predicates.  Its
    first test is made right after [start_time] is read and succeeds;
    [gs_first] is the listing of that round, [gs_later] the timeline of
    the following ones. *)

Record gate_script : Type := {
  gs_first : result (list pod);
  gs_later : timeline (result (list pod))
}.

(** The round leaves the loop by [break]. *)
Definition settled (pods : list pod) : bool :=
  match pods with
  | [] => false
  | _ => List.forallb check_pod_running_and_ready pods
  end.

(** The value of [pods] when the loop is left, by [break] or at the
    deadline. *)
Fixpoint gate (pods : list pod) (later : list (list pod)) {struct later}
  : list pod :=
  if settled pods then pods
  else
    match later with
    | [] => pods
    | next :: rest => gate next rest
    end.

Definition readiness_gate (g : gate_script) : list pod :=
  gate (get_pod_list (gs_first g))
    (List.map get_pod_list (rounds_before START_TIMEOUT (gs_later g))).

(** *** The predicates, from their first line *)

Record cpu_script : Type := {
  cpu_gate : gate_script;
  cpu_tops : timeline (result completed)
}.

(** The rows of [kubectl top] are judged against the pods that the gate
    bound. *)
Definition check_cpu_stress_recovered (s : cpu_script) (timeout : Z)
    (cpu_usage_ratio_threshold : Binary64.float) : bool :=
  CheckStatus.check_cpu_stress_recovered
    (List.map view (readiness_gate (cpu_gate s)))
    cpu_usage_ratio_threshold
    (rounds_before timeout (cpu_tops s)).

(** The memory, network and disk predicates list the pods again in every
    round: their gate delays them and decides nothing. *)
Definition check_memory_stress_recovered (tl : timeline memory_sample)
    (timeout : Z) (memory_usage_ratio_threshold : Binary64.float) : bool :=
  CheckStatus.check_memory_stress_recovered memory_usage_ratio_threshold
    (rounds_before timeout tl).

Definition check_ping_latency_recovered (tl : timeline ping_sample)
    (timeout : Z) (max_latency_ms max_loss_percent : Binary64.float)
  : bool :=
  CheckStatus.check_ping_latency_recovered max_latency_ms max_loss_percent
    (rounds_before timeout tl).

Definition check_disk_io_performance (tl : timeline disk_sample)
    (timeout : Z) (min_write_speed_mb : Binary64.float) : bool :=
  snd (CheckStatus.check_disk_io_performance min_write_speed_mb
         (rounds_before timeout tl)).

(** *** [check_pod_ready_recovered] *)

(** What one round observes: the pods listed and the outcome of
    [kubectl top pod]. *)
Record ready_sample : Type := {
  rs_pods : result (list pod);
  rs_top : result completed
}.

(** The [if]/[elif] chain on the output of [kubectl top pod]: [true] when
    the round executes [return True]. *)
Definition metrics_accessible (r : completed) : bool :=
  let output := (stdout r ++ stderr r)%string in
  if contains "error: metrics not available" output then false
  else if contains "No resources found" output then false
  else if negb (returncode r =? 0) then false
  else true.

Definition ready_round (s : ready_sample) : result bool :=
  match get_pod_list (rs_pods s) with
  | [] => Ok false
  | pods =>
      if List.forallb check_pod_running_and_ready pods then
        match rs_top s with
        | Ok r => Ok (metrics_accessible r)
        | Raise TimeoutExpired => Ok false
        | Raise e => Raise e
        end
      else Ok false
  end.

(** A polling loop whose round may raise. *)
Fixpoint poll_r {S : Type} (round : S -> result bool) (samples : list S)
  : result bool :=
  match samples with
  | [] => Ok false
  | s :: rest =>
      passed <-! round s;
      if passed then Ok true else poll_r round rest
  end.

Definition check_pod_ready_recovered (tl : timeline ready_sample)
    (timeout : Z) : result bool :=
  poll_r ready_round (rounds_before timeout tl).

(** *** [check_config_error_recovered] and [check] *)

(** Everything that the predicates observe of a cluster. *)
Record cluster : Type := {
  cl_cpu : cpu_script;
  cl_memory : timeline memory_sample;
  cl_ready : timeline ready_sample;
  cl_ping : timeline ping_sample;
  cl_disk : timeline disk_sample
}.

(** The defaults of the signatures. *)
Definition default_ratio_threshold : Binary64.float := Binary64.lit 1 2.
Definition default_cpu_timeout : Z := 300.

Definition check_config_error_recovered (c : cluster) (timeout : Z) : bool :=
  if 0 <? timeout then
    check_cpu_stress_recovered (cl_cpu c) timeout default_ratio_threshold
    && check_memory_stress_recovered (cl_memory c) timeout
         default_ratio_threshold
  else
    check_cpu_stress_recovered (cl_cpu c) default_cpu_timeout
      default_ratio_threshold
    && check_memory_stress_recovered (cl_memory c) TIMEOUT
         default_ratio_threshold.

(** The values of the dictionary that [check] indexes. *)
Inductive checker : Type :=
| CpuStress
| MemoryStress
| PodReady
| PingLatency
| DiskIo
| ConfigError.

Definition checkers : list (string * checker) :=
  [ ("cpu-stress", CpuStress);
    ("memory-stress", MemoryStress);
    ("pod-fail", PodReady);
    ("network-loss", PingLatency);
    ("network-delay", PingLatency);
    ("disk-io", DiskIo);
    ("pod-config-error", ConfigError) ].

(** The call [f(api, namespace, label, timeout)], or
    [f(api, namespace, label)] when [timeout] is [None]. *)
Definition call (k : checker) (c : cluster) (timeout : option Z)
  : result bool :=
  match k with
  | CpuStress =>
      Ok (check_cpu_stress_recovered (cl_cpu c)
            (default default_cpu_timeout timeout) default_ratio_threshold)
  | MemoryStress =>
      Ok (check_memory_stress_recovered (cl_memory c)
            (default TIMEOUT timeout) default_ratio_threshold)
  | PodReady =>
      check_pod_ready_recovered (cl_ready c) (default START_TIMEOUT timeout)
  | PingLatency =>
      Ok (check_ping_latency_recovered (cl_ping c) (default TIMEOUT timeout)
            default_max_latency_ms default_max_loss_percent)
  | DiskIo =>
      Ok (check_disk_io_performance (cl_disk c) (default TIMEOUT timeout)
            default_min_write_speed_mb)
  | ConfigError =>
      Ok (check_config_error_recovered c (default TIMEOUT timeout))
  end.

(** [check]; the kube config loads and the client is built, as in every
    call that the campaign makes. *)
Definition check (c : cluster) (type_ : string) (timeout : Z)
  : result bool :=
  if Failures.member type_ Failures.failures then
    match Failures.lookup type_ checkers with
    | Some k => call k c (if 0 <? timeout then Some timeout else None)
    | None => Raise KeyError
    end
  else Ok false.

End Recovery.

(** ** Deployment of an environment and random draws: [envs/env.py] *)

Module Env.
Import PyStr PyText CheckStatus.

Definition MAX_RETRIES : nat := 60.
Definition RETRY_INTERVAL : Z := 5.

(** How [subprocess.run] ends inside [run_cmd]: with a completed process,
    or with an exception whose text is [str(e)]. *)
Inductive shell : Type :=
| Completed (c : completed)
| Errored (message : string).

(** [run_cmd]: [(stdout, stderr, returncode)] *)
Definition run_cmd (s : shell) : string * string * Z :=
  match s with
  | Completed c => (strip (stdout c), strip (stderr c), returncode c)
  | Errored message => ("", message, 1)
  end.

(** What one pass of the [for i in range(1, MAX_RETRIES + 1)] loop meets:
    the outcome of [kubectl get pods] and, if it is asked for, that of
    [kubectl top pod]. *)
Record attempt : Type := {
  at_pods : shell;
  at_metrics : shell
}.

(** [ds_attempt i] is met by the pass numbered [i + 1]. *)
Record deployment_script : Type := {
  ds_deploy : shell;
  ds_attempt : nat -> attempt
}.

(** The commands run and the pauses made, in order. *)
Inductive event : Type :=
| DeployScript
| GetPods
| TopPods
| Sleep (seconds : Z)
| ShowPods
| ShowMetrics.

(** ["Running" not in line] *)
Definition not_running (line : string) : bool :=
  negb (contains "Running" line).

(** The second column reads [a/b] with [a] and [b] different.  The two
    subscripts are in range: a string that contains the separator splits
    into two parts at least. *)
Definition partially_ready (line : string) : bool :=
  match split_ws line with
  | _ :: col :: _ =>
      contains "/" col
      && negb (String.eqb (List.nth 0 (split "/" col) "")
                          (List.nth 1 (split "/" col) ""))
  | _ => false
  end.

Definition metrics_missing (metrics_out metrics_err : string) : bool :=
  contains "error: metrics not available" metrics_out
  || contains "error: metrics not available" metrics_err.

(** The loop of [deploy_env], with [n] passes left, the next one meeting
    [ds_attempt s i]: the events and the value returned. *)
Fixpoint wait_for_pods (n : nat) (i : nat) (s : deployment_script)
  : list event * bool :=
  match n with
  | O => ([ShowPods; ShowMetrics], false)
  | S n' =>
      let '(out, _, _) := run_cmd (at_pods (ds_attempt s i)) in
      let pod_status := strip out in
      let again (evs : list event) :=
        let '(evs', res) := wait_for_pods n' (S i) s in
        ((evs ++ Sleep RETRY_INTERVAL :: evs')%list, res) in
      if String.eqb pod_status "" then again [GetPods]
      else
        let not_ready := List.existsb not_running (splitlines pod_status) in
        let partial_running :=
          List.existsb partially_ready (splitlines pod_status) in
        if negb not_ready && negb partial_running then
          let '(metrics_out, metrics_err, _) :=
            run_cmd (at_metrics (ds_attempt s i)) in
          if metrics_missing metrics_out metrics_err
          then again [GetPods; TopPods]
          else if contains "No resources found" metrics_out
          then again [GetPods; TopPods]
          else ([GetPods; TopPods], true)
        else again [GetPods]
  end.

(** [deploy_env]: [sys.exit(1)] when the deploy script fails. *)
Definition deploy_env (s : deployment_script)
  : list event * Campaign.flow bool :=
  let '(_, _, code) := run_cmd (ds_deploy s) in
  if negb (code =? 0) then ([DeployScript], Campaign.SystemExit 1)
  else
    let '(evs, res) := wait_for_pods MAX_RETRIES O s in
    (DeployScript :: evs, Campaign.Return res).

(** *** Notions used by the properties *)

Definition pod_status (a : attempt) : string :=
  strip (fst (fst (run_cmd (at_pods a)))).

Definition metrics_out (a : attempt) : string :=
  fst (fst (run_cmd (at_metrics a))).

Definition metrics_err (a : attempt) : string :=
  snd (fst (run_cmd (at_metrics a))).

(** The pass that meets [a] executes [return True]: pods are listed,
    every line of the listing contains [Running] and has equal counts in
    its READY column, and the output of [kubectl top pod] has neither
    marker of missing metrics. *)
Definition all_up (a : attempt) : Prop :=
  pod_status a <> "" /\
  (forall line, In line (splitlines (pod_status a)) ->
                contains "Running" line = true /\
                partially_ready line = false) /\
  contains "error: metrics not available" (metrics_out a) = false /\
  contains "error: metrics not available" (metrics_err a) = false /\
  contains "No resources found" (metrics_out a) = false.

Definition is_get_pods (e : event) : bool :=
  match e with GetPods => true | _ => false end.

Definition is_sleep (e : event) : bool :=
  match e with Sleep _ => true | _ => false end.

(** How often the pods are listed, and how often the loop pauses. *)
Definition listings (evs : list event) : nat :=
  length (List.filter is_get_pods evs).

Definition pauses (evs : list event) : nat :=
  length (List.filter is_sleep evs).

(** [random.choice(l)] for the draw [r] of the generator. *)
Definition choice (l : list string) (r : nat) : string :=
  List.nth (r mod length l) l "".

Definition failure_types : list string :=
  [ "cpu-stress"; "memory-stress"; "pod-fail"; "network-loss";
    "network-delay"; "disk-io"; "pod-config-error" ].

(** [None] is the value of a call that falls off the end of the
    function. *)
Definition get_random_failure (target_env : string) (r : nat)
  : option string :=
  if String.eqb target_env "simple-micro" then Some (choice failure_types r)
  else if String.eqb target_env "train-ticket"
  then Some (choice failure_types r)
  else if String.eqb target_env "online-boutique"
  then Some (choice failure_types r)
  else None.

Definition train_ticket_services : list string :=
  [ "ts-admin-basic-info-service"; "ts-admin-order-service";
    "ts-admin-route-service"; "ts-admin-travel-service";
    "ts-admin-user-service"; "ts-assurance-service"; "ts-auth-service";
    "ts-avatar-service"; "ts-basic-service"; "ts-cancel-service";
    "ts-config-service"; "ts-consign-price-service"; "ts-consign-service";
    "ts-contacts-service"; "ts-delivery-service"; "ts-execute-service";
    "ts-food-delivery-service"; "ts-food-service"; "ts-gateway-service";
    "ts-inside-payment-service"; "ts-news-service";
    "ts-notification-service"; "ts-order-other-service";
    "ts-order-service"; "ts-payment-service"; "ts-preserve-other-service";
    "ts-preserve-service"; "ts-price-service"; "ts-rebook-service";
    "ts-route-plan-service"; "ts-route-service"; "ts-seat-service";
    "ts-security-service"; "ts-station-food-service"; "ts-station-service";
    "ts-ticket-office-service"; "ts-train-food-service"; "ts-train-service";
    "ts-travel-plan-service"; "ts-travel-service"; "ts-travel2-service";
    "ts-ui-dashboard"; "ts-user-service"; "ts-verification-code-service";
    "ts-voucher-service"; "ts-wait-order-service" ].

Definition boutique_disk_services : list string :=
  [ "adservice"; "cartservice"; "checkoutservice"; "currencyservice";
    "emailservice"; "frontend"; "loadgenerator"; "paymentservice";
    "productcatalogservice"; "recommendationservice"; "shippingservice" ].

Definition boutique_services : list string :=
  [ "adservice"; "cartservice"; "checkoutservice"; "currencyservice";
    "emailservice"; "frontend"; "loadgenerator"; "paymentservice";
    "productcatalogservice"; "recommendationservice"; "redis-cart";
    "shippingservice" ].

(** [failure_type] is [None] when [get_random_failure] returned
    nothing. *)
Definition get_random_service (target_env : string)
    (failure_type : option string) (r : nat) : option string :=
  let disk_io :=
    match failure_type with
    | Some t => String.eqb t "disk-io"
    | None => false
    end in
  if String.eqb target_env "simple-micro"
  then Some (choice ["hello-service"; "time-service"] r)
  else if String.eqb target_env "train-ticket" then
    if disk_io then Some (choice ["nacosdb-mysql"] r)
    else Some (choice train_ticket_services r)
  else if String.eqb target_env "online-boutique" then
    if disk_io then Some (choice boutique_disk_services r)
    else Some (choice boutique_services r)
  else None.

End Env.

(** ** Injection and its undoing: [chaos/injection.py] *)

Module Injection.
Import PyStr PyText CheckStatus.

(** The files of [chaos/templates], by path. *)
Definition files : Type := gmap string string.

Definition template_path (failure_type : string) : string :=
  ("chaos/templates/" ++ failure_type ++ ".yaml")%string.

Definition inject_file (failure_type : string) : string :=
  ("chaos/templates/" ++ failure_type ++ ".yaml.injecting")%string.

(** The manifest written for a template. *)
Definition fill (template_content target_pod target_namespace : string)
  : string :=
  replace "[target_namespace]" target_namespace
    (replace "[target_pod]" target_pod template_content).

(** The commands run, in order. *)
Inductive event : Type :=
| KubectlApply (path : string)
| Shell (cmd : string).

(** [inject_failure].  [config_patch] is the body of the [try] of the
    ["pod-config-error"] branch, [apply] the outcome of
    [kubectl apply -f].  Returns the value or the exception, the files
    afterwards and the commands run. *)
Definition inject_failure (failure_type target_pod target_namespace : string)
    (config_patch : result bool) (apply : result completed) (fs : files)
  : result bool * files * list event :=
  if String.eqb failure_type "pod-config-error"
  then (Ok (catch config_patch (fun _ => false)), fs, [])
  else
    match fs !! template_path failure_type with
    | None => (Raise FileNotFoundError, fs, [])
    | Some template_content =>
        let fs1 :=
          <[inject_file failure_type :=
              fill template_content target_pod target_namespace]> fs in
        let evs := [KubectlApply (inject_file failure_type)] in
        match apply with
        | Raise TimeoutExpired => (Ok false, fs1, evs)
        | Raise e => (Raise e, fs1, evs)
        | Ok r => (Ok (returncode r =? 0), fs1, evs)
        end
    end.

(** [if os.path.exists(path): os.remove(path)] *)
Definition remove_if_exists (path : string) (fs : files) : files :=
  match fs !! path with
  | Some _ => delete path fs
  | None => fs
  end.

(** [stop_injection].  [stop] is the outcome of the stop command, if one
    is run; only its time-out is ignored. *)
Definition stop_injection (failure_type target_namespace : string)
    (stop : result completed) (fs : files)
  : result unit * files * list event :=
  if String.eqb failure_type "pod-config-error" then (Ok tt, fs, [])
  else
    match Failures.lookup failure_type Failures.stop_chaos with
    | Some template =>
        let stop_cmd := replace "[target_namespace]" target_namespace template in
        match stop with
        | Ok _ | Raise TimeoutExpired =>
            (Ok tt, remove_if_exists (inject_file failure_type) fs,
             [Shell stop_cmd])
        | Raise e => (Raise e, fs, [Shell stop_cmd])
        end
    | None => (Ok tt, remove_if_exists (inject_file failure_type) fs, [])
    end.

End Injection.

(** ** Restoration from the original manifest: [chaos/deployment.py] *)

Module Deployment.
Import PyStr PyText PyNum CheckStatus Cluster Recovery.
Import Llm (field, Absent, Null, Val).

(** *** Comparison of resources *)

(** A value as [_normalize_resource_value] reads it: through [bool(val)]
    and [str(val)]. *)
Record pyval : Type := {
  truth : bool;
  text : string
}.

Definition of_str (s : string) : pyval :=
  {| truth := negb (String.eqb s ""); text := s |}.

Definition of_int (z : Z) : pyval :=
  {| truth := negb (z =? 0); text := pretty z |}.

(** [except ValueError: pass]; the quotient [num / 1000] of a huge [num]
    raises [OverflowError], which is not caught. *)
Definition _normalize_resource_value (val : pyval) : result string :=
  if negb (truth val) then Ok ""
  else
    let s := strip (text val) in
    if endswith s "m" then
      match py_int (drop_last 1 s) with
      | Ok num =>
          x <-! Binary64.div_int num 1000;
          Ok (rstrip_chars "." (rstrip_chars "0" (format_fixed 3 x)))
      | Raise ValueError => Ok s
      | Raise e => Raise e
      end
    else Ok s.

(** The value under ["requests"] or ["limits"]: a mapping, or [None] for
    anything else, whose [items] cannot be asked for (the
    [AttributeError] is written [OtherError]). *)
Abbreviation section := (option (gmap string pyval)).

(** The resources of a container: a mapping from section names to
    sections. *)
Abbreviation resources := (gmap string section).

Definition normalized (o : option pyval) : result (option string) :=
  match o with
  | Some v => s <-! _normalize_resource_value v; Ok (Some s)
  | None => Ok None
  end.

Definition put {A : Type} (k : string) (o : option A) (m : gmap string A)
  : gmap string A :=
  match o with
  | Some a => <[k := a]> m
  | None => m
  end.

(** The dictionary comprehension over the items named [cpu] and
    [memory]. *)
Definition normalize_section (sec : section)
  : result (gmap string string) :=
  match sec with
  | None => Raise OtherError
  | Some items =>
      cpu <-! normalized (items !! "cpu");
      memory <-! normalized (items !! "memory");
      Ok (put "cpu" cpu (put "memory" memory ∅))
  end.

Definition normalized_section (r : resources) (name : string)
  : result (option (gmap string string)) :=
  match r !! name with
  | Some sec => n <-! normalize_section sec; Ok (Some n)
  | None => Ok None
  end.

(** [resources] is [None] for the Python value [None]. *)
Definition _normalize_resources (res : option resources)
  : result (gmap string (gmap string string)) :=
  match res with
  | None => Ok ∅
  | Some r =>
      if decide (r = ∅) then Ok ∅
      else
        requests <-! normalized_section r "requests";
        limits <-! normalized_section r "limits";
        Ok (put "requests" requests (put "limits" limits ∅))
  end.

Definition _resources_equal (res1 res2 : option resources) : result bool :=
  n1 <-! _normalize_resources res1;
  n2 <-! _normalize_resources res2;
  Ok (bool_decide (n1 = n2)).

(** *** The state of a pod *)

(** [for condition in pod.status.conditions] raises a [TypeError] when
    there are no conditions; the function then answers [False]. *)
Definition _is_pod_abnormal (p : pod) : bool :=
  catch
    (if negb (is_running p) then Ok true
     else
       match conditions p with
       | None => Raise TypeError
       | Some cs => Ok (negb (ready_conditions cs))
       end)
    (fun _ => false).

(** [dict(d or {})] for the requests or limits of a running container *)
Definition live_section (o : option (gmap string string)) : section :=
  Some (of_str <$> default ∅ o).

Definition live_resources (res : requirements) : resources :=
  <["requests" := live_section (requests res)]>
    (<["limits" := live_section (limits res)]> ∅).

Fixpoint resources_in (cs : list container) (container_name : string)
  : option resources :=
  match cs with
  | [] => None
  | c :: rest =>
      if String.eqb (ct_name c) container_name then
        match ct_resources c with
        | None => Some ∅
        | Some res => Some (live_resources res)
        end
      else resources_in rest container_name
  end.

(** [_get_current_pod_resources]: [listing] is the outcome of the listing
    of the pods of the application that the call makes. *)
Definition _get_current_pod_resources (listing : result (list pod))
    (container_name : string) : option resources :=
  catch
    (pods <-! listing;
     match pods with
     | [] => Ok None
     | first :: _ =>
         let p := default first (List.find is_running pods) in
         Ok (resources_in (containers p) container_name)
     end)
    (fun _ => None).

(** *** The documents of the manifest

    A document of the manifest, as far as the code reads it; every key
    is missing, [null], or has a value.  The labels of an object are
    strings. *)

Record manifest_container : Type := {
  mc_name : field string;
  mc_resources : field resources
}.

Record pod_spec : Type := {
  ps_containers : field (list manifest_container)
}.

Record object_meta : Type := {
  om_name : field string;
  om_labels : field (gmap string string)
}.

Record pod_template : Type := {
  tp_metadata : field object_meta;
  tp_spec : field pod_spec
}.

Record workload_spec : Type := {
  ws_template : field pod_template
}.

Record document : Type := {
  doc_kind : field string;
  doc_metadata : field object_meta;
  doc_spec : field workload_spec
}.

(** [d[k]] where the value is subscripted in turn: a missing key is a
    [KeyError], a [null] cannot be subscripted. *)
Definition item {A : Type} (f : field A) : result A :=
  match f with
  | Val a => Ok a
  | Null => Raise TypeError
  | Absent => Raise KeyError
  end.

(** [labels["app"]] *)
Definition app_of (labels : gmap string string) : result string :=
  match labels !! "app" with
  | Some l => Ok l
  | None => Raise KeyError
  end.

(** [doc["spec"]["template"]["metadata"]["labels"]["app"]] *)
Definition template_label (d : document) : result string :=
  spec <-! item (doc_spec d);
  template <-! item (ws_template spec);
  metadata <-! item (tp_metadata template);
  labels <-! item (om_labels metadata);
  app_of labels.

(** [doc["metadata"]["labels"]["app"]] *)
Definition pod_label (d : document) : result string :=
  metadata <-! item (doc_metadata d);
  labels <-! item (om_labels metadata);
  app_of labels.

(** What the cache keeps for a label: the kind, the name ([None] for a
    [null] name) and the document, which stands for its dump
    [yaml_str]: a dump that is loaded again is the document. *)
Record entry : Type := {
  e_kind : string;
  e_name : option string;
  e_doc : document
}.

Definition workload_kinds : list string :=
  ["Deployment"; "StatefulSet"; "DaemonSet"].

(** The body of [for doc in docs]: the item it adds to the cache, if it
    adds one.  [doc] is [None] for an empty document.  The
    [AttributeError] of a [null] metadata is written [OtherError]. *)
Definition index_document (doc : option document)
  : result (option (string * entry)) :=
  match doc with
  | None => Ok None
  | Some d =>
      match doc_kind d, doc_metadata d with
      | Absent, _ | _, Absent => Ok None
      | _, Null => Raise OtherError
      | Null, Val _ => Ok None
      | Val kind, Val metadata =>
          let name := Llm.get_default (om_name metadata) "unknown" in
          let app_label :=
            if Failures.member kind workload_kinds
            then Some (template_label d)
            else if String.eqb kind "Pod" then Some (pod_label d)
            else None in
          match app_label with
          | Some (Ok l) =>
              Ok (Some (l, {| e_kind := kind; e_name := name; e_doc := d |}))
          | Some (Raise _) | None => Ok None
          end
      end
  end.

(** The documents of a manifest file as [yaml.safe_load_all] yields
    them: a [Raise] is a document that does not parse. *)
Definition manifest : Type := list (result (option document)).

Definition cache_index : Type := gmap string entry.

(** The loop over the documents, with the cache as it is left. *)
Fixpoint load_documents (docs : manifest) (cache : cache_index)
  : result unit * cache_index :=
  match docs with
  | [] => (Ok tt, cache)
  | Raise e :: _ => (Raise e, cache)
  | Ok doc :: rest =>
      match index_document doc with
      | Raise e => (Raise e, cache)
      | Ok None => load_documents rest cache
      | Ok (Some (app_label, ent)) =>
          load_documents rest (<[app_label := ent]> cache)
      end
  end.

(** [_load_original_resources]: [cache] is the global
    [_app_to_resource_cache], [None] until the first load; [fs] gives the
    manifest at a path, if there is a file. *)
Definition _load_original_resources (fs : string -> option manifest)
    (manifest_path : string) (cache : option cache_index)
  : result unit * option cache_index :=
  match cache with
  | Some _ => (Ok tt, cache)
  | None =>
      match fs manifest_path with
      | None => (Raise FileNotFoundError, None)
      | Some docs =>
          let '(r, idx) := load_documents docs ∅ in (r, Some idx)
      end
  end.

Definition get_original_resource_by_app (fs : string -> option manifest)
    (app_label manifest_path : string) (cache : option cache_index)
  : result (option entry) * option cache_index :=
  let '(loaded, cache1) :=
    match cache with
    | None => _load_original_resources fs manifest_path cache
    | Some _ => (Ok tt, cache)
    end in
  match loaded, cache1 with
  | Raise e, _ => (Raise e, cache1)
  | Ok _, Some idx => (Ok (idx !! app_label), cache1)
  | Ok _, None => (Raise OtherError, cache1) (* [None.get] *)
  end.

(** [obj.get(k, {})] on the way to the containers: a missing key gives
    an empty mapping, in which every later key is missing; a [null] has
    no [get]. *)
Definition containers_of (d : document) : result (list manifest_container) :=
  match doc_spec d with
  | Absent => Ok []
  | Null => Raise OtherError
  | Val spec =>
      match ws_template spec with
      | Absent => Ok []
      | Null => Raise OtherError
      | Val template =>
          match tp_spec template with
          | Absent => Ok []
          | Null => Raise OtherError
          | Val ps =>
              match ps_containers ps with
              | Absent => Ok []
              | Null => Raise TypeError
              | Val cs => Ok cs
              end
          end
      end
  end.

Definition named (container_name : string) (c : manifest_container) : bool :=
  match mc_name c with
  | Val n => String.eqb n container_name
  | Absent | Null => false
  end.

(** [_extract_container_resources_from_yaml]: [None] is the Python
    value [None]. *)
Definition _extract_container_resources_from_yaml (d : document)
    (container_name : string) : option resources :=
  catch
    (cs <-! containers_of d;
     match List.find (named container_name) cs with
     | Some c => Ok (Llm.get_default (mc_resources c) ∅)
     | None => Ok None
     end)
    (fun _ => None).

(** *** [restore_by_original_manifest] *)

(** What the function does to the cluster, in order. *)
Inductive event : Type :=
| ListPods
| ReadResources
| DeletePod (pod_name : string)
| KubectlApply
| AwaitReady.

(** The cluster as the function meets it: the listing of the pods of the
    application, the listing made by the [k]-th call of
    [_get_current_pod_resources], the outcome of [kubectl apply], and the
    timeline of the final wait.  The outcome of a deletion is not
    observed: its exception is caught and printed. *)
Record restore_world : Type := {
  rw_pods : result (list pod);
  rw_current : nat -> result (list pod);
  rw_apply : result completed;
  rw_ready : timeline ready_sample
}.

(** The body of [for pod in pods], for the pod [p], when [k] calls of
    [_get_current_pod_resources] have been made: the verdict
    [pod_abnormal] or the exception of [_resources_equal], the events and
    the number of calls afterwards. *)
Definition judge_pod (w : restore_world) (app_label : string)
    (target_resources : option resources) (p : pod) (k : nat)
  : result bool * list event * nat :=
  let pod_abnormal := _is_pod_abnormal p in
  match pod_abnormal, target_resources with
  | false, Some _ =>
      match _get_current_pod_resources (rw_current w k) app_label with
      | Some current_resources =>
          match _resources_equal target_resources (Some current_resources)
          with
          | Ok equal => (Ok (negb equal), [ReadResources], S k)
          | Raise e => (Raise e, [ReadResources], S k)
          end
      | None => (Ok false, [ReadResources], S k)
      end
  | _, _ => (Ok pod_abnormal, [], k)
  end.

Fixpoint restore_pods (w : restore_world) (app_label : string)
    (target_resources : option resources) (pods : list pod) (k : nat)
  : result unit * list event :=
  match pods with
  | [] => (Ok tt, [])
  | p :: rest =>
      match judge_pod w app_label target_resources p k with
      | (Raise e, evs, _) => (Raise e, evs)
      | (Ok pod_abnormal, evs, k') =>
          let evs1 :=
            if pod_abnormal then (evs ++ [DeletePod (pd_name p)])%list
            else evs in
          let '(r, evs2) :=
            restore_pods w app_label target_resources rest k' in
          (r, (evs1 ++ evs2)%list)
      end
  end.

(** From [kubectl apply] to the end. *)
Definition apply_and_wait (w : restore_world) : result bool * list event :=
  match rw_apply w with
  | Raise _ => (Ok false, [KubectlApply])
  | Ok r =>
      if negb (returncode r =? 0) then (Ok false, [KubectlApply])
      else
        (check_pod_ready_recovered (rw_ready w) START_TIMEOUT,
         [KubectlApply; AwaitReady])
  end.

(** [restore_by_original_manifest]; the kube config loads and the
    client is built. *)
Definition restore_by_original_manifest (fs : string -> option manifest)
    (w : restore_world) (app_label manifest_path : string)
    (cache : option cache_index)
  : result bool * list event * option cache_index :=
  match get_original_resource_by_app fs app_label manifest_path cache with
  | (Raise e, cache1) => (Raise e, [], cache1)
  | (Ok None, cache1) => (Ok false, [], cache1)
  | (Ok (Some ent), cache1) =>
      match rw_pods w with
      | Raise _ => (Ok false, [ListPods], cache1)
      | Ok pods =>
          let target_resources :=
            _extract_container_resources_from_yaml (e_doc ent) app_label in
          match restore_pods w app_label target_resources pods O with
          | (Raise e, evs) => (Raise e, ListPods :: evs, cache1)
          | (Ok _, evs) =>
              let '(r, evs') := apply_and_wait w in
              (r, (ListPods :: evs ++ evs')%list, cache1)
          end
      end
  end.

(** *** Notions used by the properties *)

(** The pods deleted, in order. *)
Definition deleted (evs : list event) : list string :=
  omap (fun e => match e with DeletePod n => Some n | _ => None end) evs.

(** An event of the loop over the pods. *)
Definition judging (e : event) : Prop :=
  match e with
  | ReadResources | DeletePod _ => True
  | _ => False
  end.

(** The item that a document adds to the cache. *)
Definition adds (doc : result (option document)) (app_label : string)
    (ent : entry) : Prop :=
  exists d, doc = Ok d /\ index_document d = Ok (Some (app_label, ent)).

(** The document adds no item for the label. *)
Definition silent_on (app_label : string) (doc : result (option document))
  : Prop :=
  forall ent, ~ adds doc app_label ent.

End Deployment.

(** ** The probe agent: [methods/ThinkRemed/probe_agent.py] *)

Module ProbeAgent.
Import PyStr PyText.

(** How [subprocess.run] ends for a command. *)
Inductive outcome : Type :=
| Exited (returncode : Z) (stdout stderr : string)
| TimedOut
| NotFound
| Failed.

(** [cmds]: a string or a list of strings. *)
Inductive commands : Type :=
| Line (cmds : string)
| Listed (cmds : list string).

Definition cmd_list (cmds : commands) : list string :=
  match cmds with
  | Line s => if contains ";" s then split ";" s else [s]
  | Listed l => l
  end.

Definition nl : string := String newline "".

(** What a command adds to [outputs], or the exception that leaves the
    function when [check] is set. *)
Definition response (check : bool) (cmd : string) (o : outcome)
  : result string :=
  match o with
  | Exited returncode stdout stderr =>
      if returncode =? 0
      then Ok ("command:" ++ cmd ++ nl ++ "response:" ++ strip stdout ++ nl)%string
      else if check then Raise RuntimeError
      else
        Ok ("Command failed (command: " ++ cmd ++ ")" ++ nl
            ++ "STDOUT:" ++ nl ++ strip stdout ++ nl
            ++ "STDERR:" ++ nl ++ strip stderr ++ nl)%string
  | TimedOut =>
      if check then Raise TimeoutExpired
      else Ok ("command:" ++ cmd ++ nl ++ "response: time out" ++ nl)%string
  | NotFound =>
      if check then Raise FileNotFoundError
      else
        Ok ("command:" ++ cmd ++ nl ++ "response: command not found" ++ nl)%string
  | Failed =>
      if check then Raise OtherError
      else
        Ok ("command:" ++ cmd ++ nl ++ "response: unknown error" ++ nl)%string
  end.

(** The loop over the commands.  [run k cmd] is the outcome of [cmd] when
    it is the [k]-th command run.  Returns the value or the exception, and
    the commands run, in order. *)
Fixpoint run_commands (check : bool) (run : nat -> string -> outcome)
    (k : nat) (cmds : list string) (outputs : string)
  : result string * list string :=
  match cmds with
  | [] => (Ok outputs, [])
  | cmd :: rest =>
      match response check cmd (run k cmd) with
      | Raise e => (Raise e, [cmd])
      | Ok text =>
          let '(r, ran) :=
            run_commands check run (S k) rest (outputs ++ text)%string in
          (r, cmd :: ran)
      end
  end.

Definition get_probe_response (cmds : commands) (check : bool)
    (run : nat -> string -> outcome) : result string * list string :=
  run_commands check run O (cmd_list cmds) "".

(** *** Notions used by the properties *)

Definition exits_zero (o : outcome) : Prop :=
  exists stdout stderr, o = Exited 0 stdout stderr.

(** The outcomes met by the commands of a list, the first of which is
    the [k]-th command run. *)
Fixpoint outcomes (run : nat -> string -> outcome) (k : nat)
    (cmds : list string) : list outcome :=
  match cmds with
  | [] => []
  | cmd :: rest => run k cmd :: outcomes run (S k) rest
  end.

End ProbeAgent.

(** ** The model client: [models/llm.py] *)

Module LlmClient.
Import PyStr PyText.

Definition dq : string := String (chr 34) "".
Definition nl : string := String newline "".

(** [TOOL_CALL_PROMPT.format(prompt_message=..., tool_text=...,
    tool_names=...)] *)
Definition TOOL_CALL_PROMPT (prompt_message tool_text tool_names : string)
  : string :=
  (dq ++ prompt_message ++ nl ++ dq ++ nl
   ++ "    " ++ dq ++ "You have access to the following tools:" ++ nl
   ++ tool_text ++ nl ++ dq ++ nl
   ++ "    " ++ dq ++ "Use the following format if using a tool:" ++ nl
   ++ dq ++ nl
   ++ "    " ++ dq ++ "```" ++ nl ++ dq ++ nl
   ++ "    " ++ dq ++ "Action: tool name (one of [" ++ tool_names ++ "])"
   ++ nl ++ dq ++ nl
   ++ "    " ++ dq
   ++ "Action Input: the input to the tool, in a JSON format representing the kwargs "
   ++ dq ++ nl
   ++ "    " ++ dq ++ dq ++ dq ++ "(e.g. ```{" ++ dq ++ "input" ++ dq ++ ": "
   ++ dq ++ "hello world" ++ dq ++ ", " ++ dq ++ "num_beams" ++ dq
   ++ ": 5}```)" ++ nl ++ dq ++ dq ++ dq ++ nl
   ++ "    " ++ dq ++ "```" ++ nl ++ dq ++ nl)%string.

(** A tool offered to the model: [tool["function"]["name"]] and the rest
    of its description. *)
Record tool : Type := {
  tool_name : string;
  tool_description : string
}.

(** [tools] is a list or [None]; iterating over [None] is a
    [TypeError]. *)
Definition get_tool_names (tools : option (list tool))
  : result (list string) :=
  match tools with
  | None => Raise TypeError
  | Some l => Ok (List.map tool_name l)
  end.

(** [if tools:] *)
Definition offered (tools : option (list tool)) : bool :=
  match tools with
  | Some (_ :: _) => true
  | _ => false
  end.

(** The loop of [get_tool_from_content] over the lines, with the name
    of the last [Action:] line. *)
Fixpoint scan (tool_names : list string) (name : option string)
    (lines : list string) : list Llm.function_call :=
  match lines with
  | [] => []
  | line :: rest =>
      if startswith line "Action: "
      then scan tool_names (Some (drop_first 8 line)) rest
      else if startswith line "Action Input: " then
        let arguments := drop_first 14 line in
        match name with
        | Some n =>
            if Failures.member n tool_names
            then {| Llm.name := n; Llm.arguments := arguments |}
                 :: scan tool_names name rest
            else scan tool_names name rest
        | None => scan tool_names name rest
        end
      else scan tool_names name rest
  end.

Definition get_tool_from_content (content : string)
    (tool_names : list string) : list Llm.function_call :=
  scan tool_names None (lines content).

(** The ways in which [generate] builds its request and reads the
    answer. *)
Inductive family : Type :=
| Claude
| Gpt
| Qwen (stream : bool)
| Prompted.

Definition qwen_like (model : string) : bool :=
  contains "qwen" model || contains "qwq" model || contains "glm" model.

Definition streamed (model : string) : bool :=
  contains "qwq" model || contains "glm" model.

(** The order of the tests that choose the payload, when there are
    tools. *)
Definition payload_family (model : string) : family :=
  if contains "claude" model then Claude
  else if contains "gpt" model then Gpt
  else if qwen_like model then Qwen (streamed model)
  else Prompted.

(** The order of the tests that read the answer. *)
Definition answer_family (model : string) : family :=
  if contains "gpt" model then Gpt
  else if contains "claude" model then Claude
  else if qwen_like model then Qwen (streamed model)
  else Prompted.

(** The answer to a request.  [found] is what the branches for the gpt,
    claude and qwen models make of the body: an exception of a subscript
    or of the stream parser, no tool call, or the pair to return, whose
    first part is written as text (for a claude model it is the body
    itself).  [message_content] is
    [response.json()['choices'][0]['message']['content']], read for the
    other models. *)
Record answer : Type := {
  found : result (option (string * list Llm.function_call));
  message_content : result string
}.

(** What a request meets: an exception of the transport or an error
    status, which the loop catches, or an answer. *)
Inductive reply : Type :=
| Unreachable
| Answered (a : answer).

Definition max_retry_time : Z := 1.

(** [prompts[-1]["content"] = TOOL_CALL_PROMPT.format(...)]: the last
    message of the caller's list is changed in place. *)
Definition rewrite_last (tool_text tool_names : string)
    (prompts : list Coordinator.message)
  : result (list Coordinator.message) :=
  match List.rev prompts with
  | [] => Raise IndexError
  | last :: before =>
      Ok (List.rev before
          ++ [ {| Coordinator.role := Coordinator.role last;
                  Coordinator.content :=
                    TOOL_CALL_PROMPT (Coordinator.content last) tool_text
                      tool_names |} ])%list
  end.

(** The messages of the payload; building it changes the caller's list
    for the models that are prompted for their tools, on the first
    turn of the loop. *)
Definition payload_messages (model : string) (tools : option (list tool))
    (dumps : list tool -> string) (retry_time : Z)
    (prompts : list Coordinator.message)
  : result (list Coordinator.message) :=
  match tools with
  | Some ((_ :: _) as l) =>
      match payload_family model with
      | Prompted =>
          if retry_time =? max_retry_time
          then rewrite_last (dumps l) (join "," (List.map tool_name l)) prompts
          else Ok prompts
      | _ => Ok prompts
      end
  | _ => Ok prompts
  end.

(** What the branch of the model makes of an answer. *)
Definition read_answer (model : string) (tools : option (list tool))
    (a : answer) : result (option (string * list Llm.function_call)) :=
  match answer_family model with
  | Gpt | Claude => found a
  | Qwen _ =>
      (* [payload["stream"]]: the payload without tools has no such key *)
      if offered tools then found a else Raise KeyError
  | Prompted =>
      content <-! message_content a ;
      names <-! get_tool_names tools ;
      let res_tools := get_tool_from_content content names in
      match res_tools with
      | [] => Ok None
      | _ :: _ => Ok (Some (content, res_tools))
      end
  end.

(** What [generate] leaves: its value or exception, the caller's list of
    messages, and the messages of the requests sent, in order. *)
Record ending : Type := {
  returned : result (string * list Llm.function_call);
  prompts_left : list Coordinator.message;
  sent : list (list Coordinator.message)
}.

(** The loop [while retry_time >= 0]; [None] when it is still running
    after [fuel] turns.  [replies k] is what the [k]-th request meets. *)
Fixpoint generate_loop (fuel : nat) (model : string)
    (tools : option (list tool)) (dumps : list tool -> string)
    (replies : nat -> reply) (retry_time : Z)
    (requests : list (list Coordinator.message))
    (prompts : list Coordinator.message) : option ending :=
  if retry_time <? 0
  then Some {| returned := Ok ("", []); prompts_left := prompts;
               sent := requests |}
  else
    match fuel with
    | O => None
    | S fuel' =>
        match payload_messages model tools dumps retry_time prompts with
        | Raise e =>
            Some {| returned := Raise e; prompts_left := prompts;
                    sent := requests |}
        | Ok messages =>
            let requests1 := (requests ++ [messages])%list in
            match replies (length requests) with
            | Unreachable =>
                generate_loop fuel' model tools dumps replies
                  (retry_time - 1) requests1 messages
            | Answered a =>
                match read_answer model tools a with
                | Raise e =>
                    Some {| returned := Raise e; prompts_left := messages;
                            sent := requests1 |}
                | Ok (Some value) =>
                    Some {| returned := Ok value; prompts_left := messages;
                            sent := requests1 |}
                | Ok None =>
                    if retry_time - 1 =? 0
                    then Some {| returned := Ok ("", []);
                                 prompts_left := messages;
                                 sent := requests1 |}
                    else
                      generate_loop fuel' model tools dumps replies
                        (retry_time - 1) requests1 messages
                end
            end
        end
    end.

Definition generate (fuel : nat) (model : string)
    (tools : option (list tool)) (dumps : list tool -> string)
    (replies : nat -> reply) (prompts : list Coordinator.message)
  : option ending :=
  generate_loop fuel model tools dumps replies max_retry_time [] prompts.

(** *** Notions used by the properties *)

(** A tool call written in the format of the prompt. *)
Definition render_call (c : Llm.function_call) : string :=
  ("Action: " ++ Llm.name c ++ nl ++ "Action Input: " ++ Llm.arguments c)%string.

Definition render (cs : list Llm.function_call) : string :=
  join nl (List.map render_call cs).

Definition one_line (s : string) : Prop := contains nl s = false.

(** How the loop ends on an answer that ends it, after the requests
    [requests] with the messages [m]. *)
Definition settle (model : string) (tools : option (list tool))
    (m : list Coordinator.message)
    (requests : list (list Coordinator.message)) (a : answer)
  : option ending :=
  Some {| returned :=
            match read_answer model tools a with
            | Raise e => Raise e
            | Ok (Some value) => Ok value
            | Ok None => Ok ("", [])
            end;
          prompts_left := m; sent := requests |}.

End LlmClient.

(** ** Remediation in one shot: [methods/SoloGen/generator.py] *)

Module SoloGen.
Import ExecutionAgent Coordinator.

Definition WAIT_REME_TIME : Z := 10.
Definition MAX_RETRY_TIME : Z := 3.

Definition root_prompt (runtime_envs inventory_content namespace root_cause
    failure_category : string) : string :=
  ("You are an experienced SRE managing a microservice system.
    A failure has occurred, and your task is to generate a final executable Ansible playbook based on the given root cause and failure category (executed by " ++ dq ++ "ansible-playbook -i inventory.ini remediation.yml" ++ dq ++ ").
    The system will automatically execute the playbook and verify whether the failure has been successfully resolved.  
    [Attention] Please ensure that online services remain uninterrupted; restarting services should not be considered a primary strategy.
    " ++ runtime_envs ++ "
    The content of inventory.ini is " ++ inventory_content ++ "
    The current namespace is: " ++ namespace ++ ", failure root cause service is: "
   ++ root_cause ++ ", and the failure category is: " ++ failure_category
   ++ ".")%string.

(** The playbook that the answer of the model yields, with the messages
    appended on the way; [Raise] for an exception that the [try] does not
    catch. *)
Definition draft (w : world) (tools : list Llm.function_call) (st : state)
  : result string * state :=
  match tools with
  | first :: _ =>
      if String.eqb (Llm.name first) "print_playbook" then
        let tool_arguments_str := Llm.arguments first in
        let st1 := append (assistant tool_arguments_str) st in
        match code_of w tool_arguments_str with
        | Ok code => (Ok code, st1)
        | Raise e =>
            if malformed e
            then (Ok "", append (assistant "Error Code") st1)
            else (Raise e, st1)
        end
      else (Ok "", st)
  | [] => (Ok "", st)
  end.

Definition remediate_failure (w : world)
    (runtime_envs namespace root_cause failure_category : string)
  : outcome * state :=
  match inventory w with
  | Raise e => (Raised e, initial [])
  | Ok inventory_content =>
      let st0 :=
        initial [ {| role := "system";
                     content := root_prompt runtime_envs inventory_content
                                  namespace root_cause failure_category |} ] in
      let st1 := emit ChatApi st0 in
      match chat_api w (chats st0) with
      | Raise e => (Raised e, st1)
      | Ok tools =>
          match draft w tools st1 with
          | (Raise e, st2) => (Raised e, st2)
          | (Ok playbook_code, st2) =>
              let st3 := emit (Execute playbook_code) st2 in
              match execute_playbook_and_get_response default_timeout
                      (executor w (executions st2)) with
              | Raise e => (Raised e, st3)
              | Ok _ =>
                  let st4 := emit (Sleep WAIT_REME_TIME) st3 in
                  (Returned (prompts st4) 1, st4)
              end
          end
      end
  end.

End SoloGen.

(** ** The tallies of the campaign: [inject_and_remediate.py] *)

Module Tally.
Import Campaign.

(** [failure_type_success_remediation_dict.get(key, 0)] *)
Definition remediations (c : counters) (key : string) : Z :=
  default 0 (failure_type_success_remediation_dict c !! key).

(** What the loop keeps true of its counters: slots are numbered from 1
    and never beyond the one after the last; every slot left behind was
    counted at most once, as an injection failure or as a success; a
    failure type has no more remediations than injections, and is in the
    dictionary of injections with a positive count. *)
Definition tallied (a : args) (c : counters) : Prop :=
  1 <= current_experiment_no c <= Z.max 1 (total_experiments a + 1) /\
  0 <= failure_injection_failures c /\
  0 <= success_count c /\
  success_count c + failure_injection_failures c
    <= current_experiment_no c - 1 /\
  (forall key,
      0 <= remediations c key
      <= default 0 (failure_type_success_injection_dict c !! key)) /\
  (forall key v,
      failure_type_success_injection_dict c !! key = Some v -> 1 <= v).

(** The events of a pass that finds its target unhealthy. *)
Definition redeployed (x : experiment) : list event :=
  [CheckHealthy (random_service x); DeployEnv].

End Tally.

(** ** The experiment file: [inject_and_remediate.py] *)

Module ExperimentFile.
Import PyStr.

Definition cr : ascii := chr 13.

(** A file opened in text mode is read with universal newlines: a
    carriage return, with the line feed that follows it if there is one,
    reads as one line feed. *)
Fixpoint universal_newlines (s : string) : string :=
  match s with
  | EmptyString => EmptyString
  | String c r =>
      if Ascii.eqb c cr then
        match r with
        | String d r' =>
            if Ascii.eqb d newline
            then String newline (universal_newlines r')
            else String newline (universal_newlines r)
        | EmptyString => String newline EmptyString
        end
      else String c (universal_newlines r)
  end.

(** The lines with their line feeds; no line for the empty rest after
    the last line feed. *)
Fixpoint readlines_go (acc : string) (s : string) : list string :=
  match s with
  | EmptyString =>
      match acc with
      | EmptyString => []
      | _ => [rev acc]
      end
  | String c r =>
      if Ascii.eqb c newline
      then rev (String c acc) :: readlines_go EmptyString r
      else readlines_go (String c acc) r
  end.

(** [f.readlines()] for a file with the given bytes *)
Definition readlines (content : string) : list string :=
  readlines_go EmptyString (universal_newlines content).

(** [line.strip() and not line.strip().startswith("#")] *)
Definition listed (line : string) : bool :=
  negb (String.eqb (strip line) "") && negb (startswith (strip line) "#").

(** The list comprehension that reads the failure types. *)
Definition load_failure_list (content : string) : list string :=
  List.map strip (List.filter listed (readlines content)).

(** The arguments of the campaign for an experiment file with the given
    bytes ([None] when there is no file at the path, or no path): an empty
    list is as good as none. *)
Definition with_experiment_file (file : option string)
    (a : Campaign.args) : Campaign.args :=
  {| Campaign.experiments := Campaign.experiments a;
     Campaign.failure_list :=
       match file with
       | Some content => load_failure_list content
       | None => []
       end;
     Campaign.enable_strict_restart := Campaign.enable_strict_restart a;
     Campaign.wait_interval := Campaign.wait_interval a;
     Campaign.remediate_method := Campaign.remediate_method a |}.

End ExperimentFile.

(** ** Scenarios

    Concrete clusters, files, manifests and answers on which the
    properties of the oracle's gate, the injection, the restoration and the
    client are evaluated. *)

Module Scenarios.
Import Llm (Absent, Null, Val).

(** *** The recovery oracle *)

(** The listing of the pods fails, and [kubectl top] shows a container
    at 90% of any limit it could have. *)
Definition busy_table : string :=
  (Fixtures.header ++ Fixtures.nl ++ "svc-a-1 app 450m 20Mi")%string.

Definition unlisted : Recovery.cpu_script :=
  {| Recovery.cpu_gate :=
       {| Recovery.gs_first := Raise OtherError; Recovery.gs_later := [] |};
     Recovery.cpu_tops := [(Binary64.exact 0, Fixtures.top_ok busy_table)] |}.

(** A cluster in which no probe ever answers. *)
Definition idle : Recovery.cluster :=
  {| Recovery.cl_cpu :=
       {| Recovery.cpu_gate :=
            {| Recovery.gs_first := Ok []; Recovery.gs_later := [] |};
          Recovery.cpu_tops := [] |};
     Recovery.cl_memory := [];
     Recovery.cl_ready := [];
     Recovery.cl_ping := [];
     Recovery.cl_disk := [] |}.

(** A pod that is running and ready. *)
Definition ready_pod : Cluster.pod :=
  {| Cluster.pd_name := "svc-a-1";
     Cluster.deletion_timestamp := None;
     Cluster.phase := Some "Running";
     Cluster.conditions :=
       Some [ {| Cluster.cond_type := "Ready";
                 Cluster.cond_status := "True" |} ];
     Cluster.containers := [] |}.

(** The pod is ready and [kubectl] is not installed. *)
Definition no_kubectl : Recovery.cluster :=
  {| Recovery.cl_cpu := Recovery.cl_cpu idle;
     Recovery.cl_memory := [];
     Recovery.cl_ready :=
       [(Binary64.exact 0,
         {| Recovery.rs_pods := Ok [ready_pod];
            Recovery.rs_top := Raise FileNotFoundError |})];
     Recovery.cl_ping := [];
     Recovery.cl_disk := [] |}.

(** *** Injection *)

Definition cpu_template : string :=
  ("metadata:" ++ Fixtures.nl ++ "  namespace: [target_namespace]"
   ++ Fixtures.nl ++ "spec:" ++ Fixtures.nl
   ++ "  selector: {app: [target_pod]}")%string.

Definition templates : Injection.files :=
  {[ Injection.template_path "cpu-stress" := cpu_template ]}.

(** *** Manifests *)

Definition half_core : Deployment.resources :=
  {[ "limits" := Some {[ "cpu" := Deployment.of_str "500m" ]} ]}.

Definition running_half_core : Cluster.requirements :=
  {| Cluster.requests := None;
     Cluster.limits := Some {[ "cpu" := "500m" ]} |}.

Definition workload (name : string) : Deployment.document :=
  {| Deployment.doc_kind := Val "Deployment";
     Deployment.doc_metadata :=
       Val {| Deployment.om_name := Val name;
              Deployment.om_labels := Absent |};
     Deployment.doc_spec :=
       Val {| Deployment.ws_template :=
                Val {| Deployment.tp_metadata :=
                         Val {| Deployment.om_name := Absent;
                                Deployment.om_labels :=
                                  Val {[ "app" := "svc-a" ]} |};
                       Deployment.tp_spec := Absent |} |} |}.

(** Two workloads with the same [app] label. *)
Definition twice : Deployment.manifest :=
  [Ok (Some (workload "first")); Ok (Some (workload "second"))].

(** *** The client *)

Definition print_playbook : LlmClient.tool :=
  {| LlmClient.tool_name := "print_playbook";
     LlmClient.tool_description :=
       "Print playbook code to remediate the current microservice anomaly." |}.

Definition probe_call : Llm.function_call :=
  {| Llm.name := "probe"; Llm.arguments := "{}" |}.

Definition dumps (tools : list LlmClient.tool) : string :=
  PyText.join ", " (List.map LlmClient.tool_name tools).

(** Every request is answered with a call of [print_playbook], written in
    the text as the tool prompt asks. *)
Definition answering (k : nat) : LlmClient.reply :=
  LlmClient.Answered
    {| LlmClient.found := Ok (Some ("", [Fixtures.playbook_call]));
       LlmClient.message_content :=
         Ok (LlmClient.render [Fixtures.playbook_call]) |}.

Definition system_prompt : Coordinator.message :=
  {| Coordinator.role := "system"; Coordinator.content := "Remediate." |}.

(** *** Campaigns *)

(** The target is not healthy, and the redeploy goes through. *)
Definition unhealthy : Campaign.experiment :=
  {| Campaign.random_failure := "cpu-stress";
     Campaign.random_service := "svc-a";
     Campaign.healthy := Ok false;
     Campaign.redeploy := fun _ => Fixtures.deployed;
     Campaign.injected_by := Fixtures.applied;
     Campaign.polls := [];
     Campaign.remediation := Coordinator.Returned [] 1;
     Campaign.json_length := fun _ => 120;
     Campaign.final_check := Ok true;
     Campaign.saved := Ok tt;
     Campaign.stopped := Ok tt;
     Campaign.restored := Ok true |}.

(** No pod of the application is listed. *)
Definition no_listing : Deployment.restore_world :=
  {| Deployment.rw_pods := Raise OtherError;
     Deployment.rw_current := fun _ => Raise OtherError;
     Deployment.rw_apply := Fixtures.top_ok "";
     Deployment.rw_ready := [] |}.

(** The default of [--manifest-path]. *)
Definition manifest_path : string :=
  "envs/source-config/train-ticket-config.yaml".

(** The manifest [twice] at that path, and no other file. *)
Definition manifest_on_disk (path : string) : option Deployment.manifest :=
  if String.eqb path manifest_path then Some twice else None.

(** The remediation returns its transcript and the failure has gone, and
    there is no manifest at the path to restore from: [restored] is what
    [restore_by_original_manifest] does then. *)
Definition manifest_missing : Campaign.experiment :=
  {| Campaign.random_failure := "cpu-stress";
     Campaign.random_service := "svc-a";
     Campaign.healthy := Ok true;
     Campaign.redeploy := fun _ => Fixtures.deployed;
     Campaign.injected_by := Fixtures.applied;
     Campaign.polls := [Ok false];
     Campaign.remediation := Coordinator.Returned [] 1;
     Campaign.json_length := fun _ => 120;
     Campaign.final_check := Ok true;
     Campaign.saved := Ok tt;
     Campaign.stopped := Ok tt;
     Campaign.restored :=
       fst (fst (Deployment.restore_by_original_manifest (fun _ => None)
                   no_listing "svc-a" manifest_path None)) |}.

(** The failure stays after the remediation, and the restoration finds
    the manifest and cannot list the pods: [restored] is what
    [restore_by_original_manifest] does then, it returns [False]. *)
Definition restore_fails : Campaign.experiment :=
  {| Campaign.random_failure := "cpu-stress";
     Campaign.random_service := "svc-a";
     Campaign.healthy := Ok true;
     Campaign.redeploy := fun _ => Fixtures.deployed;
     Campaign.injected_by := Fixtures.applied;
     Campaign.polls := [Ok false];
     Campaign.remediation := Coordinator.Returned [] 1;
     Campaign.json_length := fun _ => 120;
     Campaign.final_check := Ok false;
     Campaign.saved := Ok tt;
     Campaign.stopped := Ok tt;
     Campaign.restored :=
       fst (fst (Deployment.restore_by_original_manifest manifest_on_disk
                   no_listing "svc-a" manifest_path None)) |}.

(** [stop_injection] raises after the remediation: the stop command
    cannot be started. *)
Definition stop_raises : Campaign.experiment :=
  {| Campaign.random_failure := "cpu-stress";
     Campaign.random_service := "svc-a";
     Campaign.healthy := Ok true;
     Campaign.redeploy := fun _ => Fixtures.deployed;
     Campaign.injected_by := Fixtures.applied;
     Campaign.polls := [Ok false];
     Campaign.remediation := Coordinator.Returned [] 1;
     Campaign.json_length := fun _ => 120;
     Campaign.final_check := Ok true;
     Campaign.saved := Ok tt;
     Campaign.stopped :=
       fst (fst (Injection.stop_injection "cpu-stress" "default"
                   (Raise OtherError) templates));
     Campaign.restored := Ok true |}.

(** The final check raises: the failure is [pod-fail], and the check is
    made on [no_kubectl]. *)
Definition final_check_raises : Campaign.experiment :=
  {| Campaign.random_failure := "pod-fail";
     Campaign.random_service := "svc-a";
     Campaign.healthy := Ok true;
     Campaign.redeploy := fun _ => Fixtures.deployed;
     Campaign.injected_by := Fixtures.applied;
     Campaign.polls := [Ok false];
     Campaign.remediation := Coordinator.Returned [] 1;
     Campaign.json_length := fun _ => 120;
     Campaign.final_check := Recovery.check no_kubectl "pod-fail" 0;
     Campaign.saved := Ok tt;
     Campaign.stopped := Ok tt;
     Campaign.restored := Ok true |}.

(** The health check of the target raises: it is the check of
    [pod-fail], on [no_kubectl]. *)
Definition check_raises : Campaign.experiment :=
  {| Campaign.random_failure := "cpu-stress";
     Campaign.random_service := "svc-a";
     Campaign.healthy := Recovery.check no_kubectl "pod-fail" 0;
     Campaign.redeploy := fun _ => Fixtures.deployed;
     Campaign.injected_by := Fixtures.applied;
     Campaign.polls := [];
     Campaign.remediation := Coordinator.Returned [] 1;
     Campaign.json_length := fun _ => 120;
     Campaign.final_check := Ok true;
     Campaign.saved := Ok tt;
     Campaign.stopped := Ok tt;
     Campaign.restored := Ok true |}.

End Scenarios.

(** * Properties *)

(** Splits a conjunction into its parts, and nothing else. *)
Ltac conjuncts :=
  repeat match goal with |- _ /\ _ => split end.

(** ** Strings *)

Section Strings.
Import PyStr.

Lemma append_cons (c : ascii) (s t : string) :
  (String c s ++ t)%string = String c (s ++ t).
Proof. reflexivity. Qed.

Lemma append_nil_r (s : string) : (s ++ "")%string = s.
Proof.
  induction s as [|c s IH]; [reflexivity|].
  rewrite append_cons, IH. reflexivity.
Qed.

Lemma append_assoc (a b c : string) :
  ((a ++ b) ++ c)%string = (a ++ (b ++ c))%string.
Proof.
  induction a as [|x a IH]; [reflexivity|].
  rewrite !append_cons, IH. reflexivity.
Qed.

Lemma rev_onto_spec (s acc : string) :
  rev_onto s acc = (rev s ++ acc)%string.
Proof.
  unfold rev. revert acc.
  induction s as [|c s IH]; intros acc; simpl; [reflexivity|].
  rewrite IH, (IH (String c "")), append_assoc. reflexivity.
Qed.

Lemma rev_cons (c : ascii) (s : string) :
  rev (String c s) = (rev s ++ String c "")%string.
Proof. unfold rev at 1. simpl. apply rev_onto_spec. Qed.

Lemma rev_append (a b : string) : rev (a ++ b) = (rev b ++ rev a)%string.
Proof.
  induction a as [|c a IH].
  - now rewrite append_nil_r.
  - rewrite append_cons, !rev_cons, IH, append_assoc. reflexivity.
Qed.

Lemma rev_involutive (s : string) : rev (rev s) = s.
Proof.
  induction s as [|c s IH]; [reflexivity|].
  rewrite rev_cons, rev_append, IH. reflexivity.
Qed.

Lemma prefix_append (p s : string) : String.prefix p (p ++ s) = true.
Proof.
  induction p as [|c p IH]; [now destruct s|].
  rewrite append_cons. simpl.
  destruct (ascii_dec c c); [assumption | congruence].
Qed.

Lemma substring_append (a b : string) :
  String.substring 0 (String.length a) (a ++ b) = a.
Proof.
  induction a as [|c a IH]; [now destruct b|].
  rewrite append_cons. simpl. now rewrite IH.
Qed.

Lemma length_append (a b : string) :
  String.length (a ++ b) = (String.length a + String.length b)%nat.
Proof.
  induction a as [|c a IH]; [reflexivity|].
  rewrite append_cons. simpl. congruence.
Qed.

Lemma drop_last_append (a b : string) :
  drop_last (String.length b) (a ++ b) = a.
Proof.
  unfold drop_last. rewrite length_append.
  replace (String.length a + String.length b - String.length b)%nat
    with (String.length a) by lia.
  apply substring_append.
Qed.

Lemma endswith_append (a b : string) : endswith (a ++ b) b = true.
Proof. unfold endswith. rewrite rev_append. apply prefix_append. Qed.

Lemma lstrip_append (a : string) (c : ascii) (b : string) :
  is_space c = false ->
  lstrip (a ++ String c b) = (lstrip a ++ String c b)%string.
Proof.
  intros Hc. induction a as [|x a IH].
  - simpl. now rewrite Hc.
  - rewrite append_cons. simpl.
    destruct (is_space x); [assumption | reflexivity].
Qed.

(** Stripping a numeric part followed by a unit suffix that starts and
    ends with a visible character only strips the left of the numeric
    part. *)
Lemma strip_suffixed (a : string) (c d : ascii) (mid back : string) :
  is_space c = false ->
  rev (String c mid) = String d back ->
  is_space d = false ->
  strip (a ++ String c mid) = (lstrip a ++ String c mid)%string.
Proof.
  intros Hc Hrev Hd. unfold strip, rstrip.
  rewrite (lstrip_append a c mid Hc), rev_append, Hrev, append_cons.
  simpl. rewrite Hd. rewrite <- append_cons, <- Hrev, <- rev_append.
  apply rev_involutive.
Qed.

End Strings.

(** ** The unit parsers *)

Section UnitParsers.
Import PyStr PyNum CheckStatus.

(** The suffix tests of [parse_memory_to_bytes] on a string built as a
    numeric part and a unit. *)
Ltac suffix_tests :=
  repeat
    match goal with
    | |- context [endswith (?a ++ ?b)%string ?b] =>
        rewrite (endswith_append a b)
    | |- context [endswith (?a ++ ?b)%string ?p] =>
        let H := fresh in
        assert (H : endswith (a ++ b) p = false)
          by (unfold endswith; rewrite rev_append;
              let r := eval vm_compute in (rev b) in
              change (rev b) with r;
              let q := eval vm_compute in (rev p) in
              change (rev p) with q;
              rewrite ?append_cons; reflexivity);
        rewrite H; clear H
    end.

Ltac by_suffix unit :=
  intros s; unfold parse_memory_to_bytes;
  lazymatch eval vm_compute in (unit, rev unit) with
  | (String ?c ?mid, String ?d ?back) =>
      change unit with (String c mid);
      rewrite (strip_suffixed s c d mid back eq_refl eq_refl eq_refl)
  end;
  suffix_tests; cbv iota;
  first [ rewrite (drop_last_append (lstrip s) unit : drop_last 2 _ = _)
        | rewrite (drop_last_append (lstrip s) unit : drop_last 1 _ = _) ];
  reflexivity.

Lemma memory_Ki : forall s,
  parse_memory_to_bytes (s ++ "Ki") = scaled (lstrip s) 1024.
Proof. by_suffix "Ki". Qed.

Lemma memory_Mi : forall s,
  parse_memory_to_bytes (s ++ "Mi") = scaled (lstrip s) (1024 ^ 2).
Proof. by_suffix "Mi". Qed.

Lemma memory_Gi : forall s,
  parse_memory_to_bytes (s ++ "Gi") = scaled (lstrip s) (1024 ^ 3).
Proof. by_suffix "Gi". Qed.

Lemma memory_Ti : forall s,
  parse_memory_to_bytes (s ++ "Ti") = scaled (lstrip s) (1024 ^ 4).
Proof. by_suffix "Ti". Qed.

Lemma memory_Pi : forall s,
  parse_memory_to_bytes (s ++ "Pi") = scaled (lstrip s) (1024 ^ 5).
Proof. by_suffix "Pi". Qed.

Lemma memory_Ei : forall s,
  parse_memory_to_bytes (s ++ "Ei") = scaled (lstrip s) (1024 ^ 6).
Proof. by_suffix "Ei". Qed.

Lemma memory_K : forall s,
  parse_memory_to_bytes (s ++ "K") = scaled (lstrip s) 1000.
Proof. by_suffix "K". Qed.

Lemma memory_M : forall s,
  parse_memory_to_bytes (s ++ "M") = scaled (lstrip s) (1000 ^ 2).
Proof. by_suffix "M". Qed.

Lemma memory_G : forall s,
  parse_memory_to_bytes (s ++ "G") = scaled (lstrip s) (1000 ^ 3).
Proof. by_suffix "G". Qed.

Lemma memory_T : forall s,
  parse_memory_to_bytes (s ++ "T") = scaled (lstrip s) (1000 ^ 4).
Proof. by_suffix "T". Qed.

Lemma cpu_m : forall s, parse_cpu_to_millicores (s ++ "m") = py_int s.
Proof.
  intros s. unfold parse_cpu_to_millicores.
  rewrite endswith_append.
  now rewrite (drop_last_append s "m" : drop_last 1 _ = _).
Qed.

End UnitParsers.

(** ** Exact arithmetic on plain numerals *)

Section Exact.
Import PyStr PyNum CheckStatus Binary64.

Lemma digit_visible c :
  is_digit c = true ->
  is_space c = false /\ Ascii.eqb c "-" = false /\ Ascii.eqb c "+" = false /\
  Ascii.eqb c "_" = false /\ lower_char c = c /\
  Ascii.eqb c "i" = false /\ Ascii.eqb c "n" = false /\
  0 <= digit_val c <= 9.
Proof.
  destruct c as [[] [] [] [] [] [] [] []]; intros H; try discriminate H;
    vm_compute; repeat split; congruence.
Qed.

Lemma all_digits_rev_onto s acc :
  all_digits (rev_onto s acc) = all_digits s && all_digits acc.
Proof.
  revert acc. induction s as [|c s IH]; intros acc; simpl; [reflexivity|].
  rewrite IH. simpl. destruct (is_digit c), (all_digits s); reflexivity.
Qed.

Lemma lstrip_numeral s : all_digits s = true -> lstrip s = s.
Proof.
  destruct s as [|c s]; simpl; [reflexivity|].
  intros H. apply andb_true_iff in H as [Hc _].
  destruct (digit_visible c Hc) as [-> _]. reflexivity.
Qed.

Lemma strip_numeral s : all_digits s = true -> strip s = s.
Proof.
  intros H. unfold strip, rstrip. rewrite (lstrip_numeral s H).
  rewrite lstrip_numeral.
  - apply rev_involutive.
  - unfold rev. rewrite all_digits_rev_onto, H. reflexivity.
Qed.

Lemma digits_go_numeral s acc cnt :
  all_digits s = true ->
  digits_go acc cnt s = (horner acc s, (cnt + String.length s)%nat, EmptyString).
Proof.
  revert acc cnt. induction s as [|c s IH]; intros acc cnt H; simpl.
  - now rewrite Nat.add_0_r.
  - simpl in H. apply andb_true_iff in H as [Hc Hs].
    rewrite Hc, IH by assumption. f_equal. f_equal. lia.
Qed.

Lemma py_float_numeral s :
  numeral s -> py_float s = Ok (round_ratio (value s) 1).
Proof.
  intros [H Hne]. unfold py_float. rewrite (strip_numeral s H).
  destruct s as [|c s]; [contradiction|].
  pose proof H as H'. simpl in H'. apply andb_true_iff in H' as [Hc Hs].
  destruct (digit_visible c Hc) as (_ & Hm & Hp & _ & Hl & Hi & Hn & _).
  unfold sign. rewrite Hm, Hp.
  assert (special (String c s) = None) as ->.
  { unfold special. simpl. rewrite Hl. simpl. 
    unfold String.eqb; fold String.eqb. rewrite Hi, Hn. reflexivity. }
  unfold digitpart. rewrite digits_go_numeral by assumption.
  simpl String.length. simpl Nat.add. cbv iota beta.
  unfold exponent, decimal, value. 
  replace (0 - Z.of_nat 0) with 0 by reflexivity.
  simpl (0 <=? 0). cbv iota.
  f_equal. f_equal. simpl Z.of_nat. rewrite Z.pow_0_r. lia.
Qed.


Lemma rne_exact m d : 0 < d -> rne (m * d) d = m.
Proof.
  intros Hd. unfold rne. rewrite Z.div_mul, Z.mod_mul by lia.
  destruct (Z.compare_spec (2 * 0) d); [lia | reflexivity | lia].
Qed.

(** A positive integer below [2^53], written over a power of two, is
    rounded to itself. *)
Lemma round_pos_exact p c :
  0 < p < 2 ^ 53 -> 0 <= c ->
  round_pos (p * 2 ^ c) (2 ^ c)
  = Finite (p * 2 ^ (52 - Z.log2 p)) (Z.log2 p - 52).
Proof.
  intros [Hp Hp53] Hc.
  assert (0 <= Z.log2 p <= 52) as Hl.
  { split; [apply Z.log2_nonneg|].
    assert (Z.log2 p < 53); [|lia]. apply Z.log2_lt_pow2; lia. }
  assert (0 < 2 ^ c) as Hpc by (apply Z.pow_pos_nonneg; lia).
  assert (ilog2_ratio (p * 2 ^ c) (2 ^ c) = Z.log2 p) as He.
  { assert (Z.log2 (p * 2 ^ c) - Z.log2 (2 ^ c) = Z.log2 p) as Hlog
      by (rewrite Z.log2_mul_pow2, Z.log2_pow2 by lia; lia).
    unfold ilog2_ratio. cbv zeta. rewrite Hlog.
    rewrite (Z.max_l 0 (- Z.log2 p)), (Z.max_r 0 (Z.log2 p)) by lia.
    rewrite Z.pow_0_r.
    destruct (Z.ltb_spec (p * 2 ^ c * 1) (2 ^ c * 2 ^ Z.log2 p)) as [H|H];
      [|reflexivity].
    pose proof (Z.log2_spec p Hp) as [Hlo _]. nia. }
  unfold round_pos. rewrite He. unfold emin, emax_q.
  rewrite (Z.max_l (Z.log2 p - 52)) by lia.
  rewrite (Z.max_r 0 (- (Z.log2 p - 52))), (Z.max_l 0 (Z.log2 p - 52)) by lia.
  rewrite Z.pow_0_r, Z.mul_1_r.
  replace (- (Z.log2 p - 52)) with (52 - Z.log2 p) by lia.
  replace (p * 2 ^ c * 2 ^ (52 - Z.log2 p))
    with (p * 2 ^ (52 - Z.log2 p) * 2 ^ c) by ring.
  rewrite rne_exact by assumption.
  destruct (Z.ltb_spec 971 (Z.log2 p - 52)); [lia|].
  destruct (Z.eqb_spec (Z.log2 p - 52) 971); [lia|]. reflexivity.
Qed.

Lemma round_ratio_exact p :
  0 < p < 2 ^ 53 ->
  round_ratio p 1 = Finite (p * 2 ^ (52 - Z.log2 p)) (Z.log2 p - 52).
Proof.
  intros Hp. unfold round_ratio.
  destruct (Z.eqb_spec p 0); [lia|]. destruct (Z.ltb_spec p 0); [lia|].
  pose proof (round_pos_exact p 0 Hp (Z.le_refl 0)) as Hexact.
  rewrite Z.pow_0_r, Z.mul_1_r in Hexact. exact Hexact.
Qed.

(** The product of two positive integers, when below [2^53], is computed
    exactly. *)
Lemma mul_exact n k :
  0 < n -> 0 < k -> n * k < 2 ^ 53 ->
  (x <-! mul_int (round_ratio n 1) k; to_int x) = Ok (n * k).
Proof.
  intros Hn Hk Hnk.
  assert (n < 2 ^ 53) by nia. assert (k < 2 ^ 53) by nia.
  assert (0 <= Z.log2 n) by apply Z.log2_nonneg.
  assert (0 <= Z.log2 k) by apply Z.log2_nonneg.
  assert (Z.log2 n + Z.log2 k <= Z.log2 (n * k))
    by (apply Z.log2_mul_below; lia).
  assert (Z.log2 (n * k) <= 52).
  { assert (Z.log2 (n * k) < 53); [|lia]. apply Z.log2_lt_pow2; lia. }
  unfold mul_int, of_int. rewrite !round_ratio_exact by lia. simpl rbind.
  unfold mul, round_scaled.
  set (a := Z.log2 n) in *. set (b := Z.log2 k) in *.
  destruct (Z.leb_spec 0 (a - 52 + (b - 52))) as [Hge|Hlt]; [lia|].
  unfold round_ratio.
  assert (0 < n * 2 ^ (52 - a) * (k * 2 ^ (52 - b))) as Hpos.
  { assert (0 < 2 ^ (52 - a)) by (apply Z.pow_pos_nonneg; lia).
    assert (0 < 2 ^ (52 - b)) by (apply Z.pow_pos_nonneg; lia). nia. }
  destruct (Z.eqb_spec (n * 2 ^ (52 - a) * (k * 2 ^ (52 - b))) 0); [lia|].
  destruct (Z.ltb_spec (n * 2 ^ (52 - a) * (k * 2 ^ (52 - b))) 0); [lia|].
  replace (n * 2 ^ (52 - a) * (k * 2 ^ (52 - b)))
    with (n * k * 2 ^ (- (a - 52 + (b - 52)))).
  2: { replace (- (a - 52 + (b - 52))) with ((52 - a) + (52 - b)) by lia.
       rewrite Z.pow_add_r by lia. ring. }
  rewrite round_pos_exact by lia.
  unfold to_int. set (l := Z.log2 (n * k)) in *.
  destruct (Z.leb_spec 0 (l - 52)) as [Hl|Hl].
  - replace (l - 52) with 0 by lia. replace (52 - l) with 0 by lia.
    rewrite !Z.pow_0_r. f_equal. ring.
  - replace (- (l - 52)) with (52 - l) by lia.
    rewrite Z.quot_mul; [reflexivity|].
    assert (0 < 2 ^ (52 - l)) by (apply Z.pow_pos_nonneg; lia). lia.
Qed.

Lemma horner_bounds s acc :
  all_digits s = true -> 0 <= acc -> 0 <= horner acc s.
Proof.
  revert acc. induction s as [|c s IH]; intros acc H Hacc; simpl; [lia|].
  simpl in H. apply andb_true_iff in H as [Hc Hs].
  apply IH; [assumption|].
  destruct (digit_visible c Hc) as (_ & _ & _ & _ & _ & _ & _ & Hd). lia.
Qed.

(** On a plain numeral, [int(float(s) * k)] is the product, as long as the
    product is below [2^53]. *)
Lemma scaled_numeral s k :
  numeral s -> In k (binary_factors ++ decimal_factors) ->
  value s * k < 2 ^ 53 ->
  scaled s k = Ok (value s * k).
Proof.
  intros Hs Hk Hlt. unfold scaled. rewrite (py_float_numeral s Hs).
  simpl rbind.
  pose proof (horner_bounds s 0 (proj1 Hs) (Z.le_refl 0)) as Hv.
  fold (value s) in Hv.
  assert (0 < k) as Hkpos.
  { simpl in Hk. repeat (destruct Hk as [<-|Hk]; [reflexivity|]).
    destruct Hk. }
  destruct (Z.eq_dec (value s) 0) as [Hz|Hz].
  - rewrite Hz. simpl in Hk.
    repeat (destruct Hk as [<-|Hk]; [vm_compute; reflexivity|]).
    destruct Hk.
  - apply mul_exact; lia.
Qed.

End Exact.

(** ** The convergence rule of the CPU and memory predicates *)

Section Convergence.
Import PyStr PyNum CheckStatus.

Lemma poll_true {S : Type} (round : S -> bool) (samples : list S) :
  poll round samples = true -> exists s, In s samples /\ round s = true.
Proof.
  induction samples as [|s rest IH]; simpl; [discriminate|].
  destruct (round s) eqn:E.
  - intros _. exists s. auto.
  - intros H. destruct (IH H) as (s' & Hin & Hs'). exists s'. auto.
Qed.

Lemma poll_timeout {S : Type} (round : S -> bool) (samples : list S) :
  (forall s, In s samples -> round s = false) -> poll round samples = false.
Proof.
  induction samples as [|s rest IH]; simpl; [reflexivity|].
  intros H. rewrite (H s) by auto. apply IH. auto.
Qed.

Lemma keep_true (flag : bool) (v : verdict) :
  keep flag v = true -> flag = true /\ (v = Skipped \/ v = Normal).
Proof. destruct v; simpl; intros H; auto; discriminate. Qed.

Lemma cpu_row_fails_high pods threshold line :
  cpu_row_fails pods threshold line ->
  cpu_line pods threshold line = Ok High.
Proof.
  intros [pn cn cs rest p cur lim Hsplit Hside Hfind Hcur Hlim Hnz Hratio].
  unfold cpu_line. rewrite Hsplit, Hside, Hfind, Hcur. simpl.
  rewrite Hlim. simpl.
  destruct (Z.eqb_spec lim 0) as [->|_]; [congruence|].
  rewrite Hratio. reflexivity.
Qed.

Lemma cpu_line_high pods threshold line :
  cpu_line pods threshold line = Ok High ->
  cpu_row_fails pods threshold line.
Proof.
  unfold cpu_line.
  destruct (split_ws line) as [|pn [|cn [|cs rest]]] eqn:Hsplit;
    try discriminate.
  destruct (is_sidecar cn) eqn:Hside; [discriminate|].
  destruct (find_pod pods pn) as [p|] eqn:Hfind; [|discriminate].
  destruct (parse_cpu_to_millicores cs) as [cur|] eqn:Hcur;
    simpl; [|discriminate].
  destruct (get_container_cpu_limit_millicores p cn) as [[lim|]|] eqn:Hlim;
    simpl; try discriminate.
  destruct (Z.eqb_spec lim 0) as [|Hnz]; [discriminate|].
  destruct (ratio_reaches cur lim threshold) as [[|]|] eqn:Hratio;
    simpl; try discriminate.
  intros _. econstructor; eauto.
Qed.

Lemma cpu_lines_true pods threshold ls flag :
  cpu_lines pods threshold ls flag = Ok true ->
  flag = true /\
  Forall (fun line => cpu_line pods threshold line = Ok Skipped \/
                      cpu_line pods threshold line = Ok Normal) ls.
Proof.
  revert flag. induction ls as [|line rest IH]; intros flag; simpl.
  - intros [= ->]. split; constructor.
  - destruct (cpu_line pods threshold line) as [v|] eqn:Hv;
      simpl; [|discriminate].
    intros H. destruct (IH _ H) as [Hk Hrest].
    destruct (keep_true _ _ Hk) as [-> Hv'].
    split; [reflexivity|]. constructor; [|assumption].
    destruct Hv' as [->| ->]; auto.
Qed.

Lemma cpu_round_true pods threshold top :
  cpu_round pods threshold top = true ->
  exists r, top = Ok r /\ returncode r = 0 /\
    Forall (fun line => cpu_line pods threshold line = Ok Skipped \/
                        cpu_line pods threshold line = Ok Normal)
      (data_lines r).
Proof.
  unfold cpu_round. destruct top as [r|e]; simpl; [|discriminate].
  destruct (Z.eqb_spec (returncode r) 0) as [Hrc|]; simpl; [|discriminate].
  destruct (length (lines (strip (stdout r))) <? 2)%nat; simpl;
    [discriminate|].
  destruct (cpu_lines pods threshold (data_lines r) true) as [b|] eqn:Hl;
    simpl; [|discriminate].
  intros ->. exists r. conjuncts; auto.
  apply (cpu_lines_true _ _ _ _ Hl).
Qed.

Lemma cpu_round_fails pods threshold top r line :
  top = Ok r -> In line (data_lines r) ->
  cpu_row_fails pods threshold line ->
  cpu_round pods threshold top = false.
Proof.
  intros -> Hin Hfail.
  destruct (cpu_round pods threshold (Ok r)) eqn:E; [|reflexivity].
  destruct (cpu_round_true _ _ _ E) as (r' & [= <-] & _ & Hall).
  rewrite Forall_forall in Hall.
  pose proof (cpu_row_fails_high _ _ _ Hfail) as Hhigh.
  destruct (Hall line) as [H|H].
  - apply list_elem_of_In. exact Hin.
  - congruence.
  - congruence.
Qed.

(** A judged container that reaches the threshold is reported high, unless
    printing its log line raises. *)
Lemma memory_container_fails_high s threshold pod_name c :
  memory_container_fails s threshold pod_name c ->
  memory_container s threshold pod_name c = Ok High \/
  exists e, memory_container s threshold pod_name c = Raise e.
Proof.
  intros [lim usage _ Hlim Hnz Husage Hratio].
  unfold memory_container. rewrite Hlim. simpl.
  destruct (Z.eqb_spec lim 0) as [->|_]; [congruence|].
  rewrite Husage, Hratio. simpl.
  destruct (Binary64.div_int usage (1024 ^ 2)); simpl; [|eauto].
  destruct (Binary64.div_int lim (1024 ^ 2)); simpl; eauto.
Qed.

Lemma memory_containers_true s threshold pod_name cs flag :
  memory_containers s threshold pod_name cs flag = Ok true ->
  flag = true /\
  Forall (fun c =>
            memory_container s threshold pod_name c = Ok Skipped \/
            memory_container s threshold pod_name c = Ok Normal) cs.
Proof.
  revert flag. induction cs as [|c rest IH]; intros flag; simpl.
  - intros [= ->]. split; constructor.
  - destruct (memory_container s threshold pod_name c) as [v|] eqn:Hv;
      simpl; [|discriminate].
    intros H. destruct (IH _ H) as [Hk Hrest].
    destruct (keep_true _ _ Hk) as [-> Hv'].
    split; [reflexivity|]. constructor; [|assumption].
    destruct Hv' as [->| ->]; auto.
Qed.

Lemma memory_pod_true s threshold p :
  memory_pod s threshold p = true ->
  exists pod_obj,
    ms_read s (p_name p) = Ok pod_obj /\
    Forall (fun c =>
              memory_container s threshold (p_name p) c = Ok Skipped \/
              memory_container s threshold (p_name p) c = Ok Normal)
      (List.filter is_main (p_containers pod_obj)).
Proof.
  unfold memory_pod.
  destruct (ms_read s (p_name p)) as [pod_obj|] eqn:Hread;
    simpl; [|discriminate].
  destruct (memory_containers s threshold (p_name p)
              (List.filter is_main (p_containers pod_obj)) true)
    as [b|] eqn:Hcs; simpl; [|discriminate].
  intros ->. exists pod_obj. split; [reflexivity|].
  apply (memory_containers_true _ _ _ _ _ Hcs).
Qed.

Lemma memory_pods_true s threshold pods flag :
  memory_pods s threshold pods flag = true ->
  flag = true /\ Forall (fun p => memory_pod s threshold p = true) pods.
Proof.
  revert flag. induction pods as [|p rest IH]; intros flag; simpl.
  - intros ->. split; constructor.
  - intros H. destruct (IH _ H) as [Hflag Hrest].
    destruct (memory_pod s threshold p) eqn:Hp; [|discriminate].
    split; [assumption|]. constructor; assumption.
Qed.

Lemma memory_round_true threshold s :
  memory_round threshold s = true ->
  Forall (fun p => memory_pod s threshold p = true) (ms_pods s).
Proof.
  unfold memory_round. destruct (ms_pods s) as [|p rest]; [discriminate|].
  intros H. apply (memory_pods_true _ _ _ _ H).
Qed.

Lemma memory_round_fails threshold s pod_name c :
  in_round s pod_name c ->
  memory_container_fails s threshold pod_name c ->
  memory_round threshold s = false.
Proof.
  intros (p & pod_obj & Hp & <- & Hread & Hc) Hfail.
  destruct (memory_round threshold s) eqn:E; [|reflexivity].
  pose proof (memory_round_true _ _ E) as Hall.
  rewrite Forall_forall in Hall.
  destruct (memory_pod_true s threshold p) as (pod_obj' & Hread' & Hcs).
  { apply Hall, list_elem_of_In, Hp. }
  assert (pod_obj' = pod_obj) as -> by congruence.
  rewrite Forall_forall in Hcs.
  pose proof (memory_container_fails_high _ _ _ _ Hfail) as Hhigh.
  destruct Hfail as [? ? Hmain _ _ _ _].
  destruct (Hcs c) as [H|H].
  - apply list_elem_of_In, filter_In. auto.
  - destruct Hhigh as [Hhigh|[e Hhigh]]; congruence.
  - destruct Hhigh as [Hhigh|[e Hhigh]]; congruence.
Qed.

(** C4.  In every sampled round of the CPU and of the memory predicate,
    one judged container (not a side-car, with a limit) whose usage
    ratio reaches the threshold makes the round fail; and when the
    predicate returns true, some sampled round passed in which no judged
    container reached the threshold: one fully passing round, never a
    majority. *)
Theorem convergence_rule (threshold : Binary64.float) :
  (forall pods top r line,
      top = Ok r -> In line (data_lines r) ->
      cpu_row_fails pods threshold line ->
      cpu_round pods threshold top = false) /\
  (forall pods samples,
      check_cpu_stress_recovered pods threshold samples = true ->
      exists r,
        In (Ok r) samples /\ cpu_round pods threshold (Ok r) = true /\
        forall line, In line (data_lines r) ->
                     ~ cpu_row_fails pods threshold line) /\
  (forall s pod_name c,
      in_round s pod_name c ->
      memory_container_fails s threshold pod_name c ->
      memory_round threshold s = false) /\
  (forall samples,
      check_memory_stress_recovered threshold samples = true ->
      exists s,
        In s samples /\ memory_round threshold s = true /\
        forall pod_name c,
          in_round s pod_name c ->
          ~ memory_container_fails s threshold pod_name c).
Proof.
  conjuncts.
  - intros pods top r line. apply cpu_round_fails.
  - intros pods samples H.
    destruct (poll_true _ _ H) as (top & Hin & Hround).
    destruct (cpu_round_true _ _ _ Hround) as (r & -> & _ & _).
    exists r. conjuncts; trivial.
    intros line Hline Hfail.
    rewrite (cpu_round_fails pods threshold (Ok r) r line) in Hround;
      auto; discriminate.
  - intros s pod_name c. apply memory_round_fails.
  - intros samples H.
    destruct (poll_true _ _ H) as (s & Hin & Hround).
    exists s. conjuncts; trivial.
    intros pod_name c Hc Hfail.
    rewrite (memory_round_fails threshold s pod_name c) in Hround;
      auto; discriminate.
Qed.

Lemma convergence_rule_witness :
  cpu_round [Fixtures.svc_a] (Binary64.lit 1 2)
    (Fixtures.top_ok Fixtures.one_of_three) = false /\
  memory_round (Binary64.lit 1 2) Fixtures.memory_one_of_three = false.
Proof.
  split.
  - refine (proj1 (convergence_rule (Binary64.lit 1 2)) [Fixtures.svc_a]
              _ _ "svc-a-1 cache 150m 100Mi" eq_refl _ _).
    + vm_compute. auto.
    + refine (CpuRowFails _ _ _ "svc-a-1" "cache" "150m" ["100Mi"]
                Fixtures.svc_a 150 200 _ _ _ _ _ _ _);
        solve [vm_compute; reflexivity | discriminate].
  - refine (proj1 (proj2 (proj2 (convergence_rule (Binary64.lit 1 2))))
              Fixtures.memory_one_of_three "svc-a-1"
              (Fixtures.container_of "cache" "0.2" "128Mi") _ _).
    + exists Fixtures.svc_a, Fixtures.svc_a. vm_compute. auto 10.
    + refine (MemoryContainerFails _ _ _ _ 134217728 104857600 _ _ _ _ _);
        solve [vm_compute; reflexivity | discriminate].
Defined.

End Convergence.

(** ** Values of the unit parsers *)

Section UnitValues.
Import PyStr PyNum CheckStatus.

(** C5.  The unit parsers return the listed values; a [Ki], [Mi], [Gi],
    [Ti], [Pi] or [Ei] suffix scales the numeric part by a power of 1024,
    a [K], [M], [G] or [T] suffix by a power of 1000; the scaling of a
    plain numeral is exact as long as the result is below [2^53]. *)
Theorem unit_parsers_exact :
  (parse_cpu_to_millicores "50m" = Ok 50 /\
   parse_cpu_to_millicores "0.1" = Ok 100 /\
   parse_cpu_to_millicores "2" = Ok 2000) /\
  (parse_memory_to_bytes "120Mi" = Ok 125829120 /\
   parse_memory_to_bytes "1.5Gi" = Ok 1610612736 /\
   parse_memory_to_bytes "500K" = Ok 500000 /\
   parse_memory_to_bytes "2G" = Ok 2000000000) /\
  (forall s,
      parse_memory_to_bytes (s ++ "Ki") = scaled (lstrip s) (1024 ^ 1) /\
      parse_memory_to_bytes (s ++ "Mi") = scaled (lstrip s) (1024 ^ 2) /\
      parse_memory_to_bytes (s ++ "Gi") = scaled (lstrip s) (1024 ^ 3) /\
      parse_memory_to_bytes (s ++ "Ti") = scaled (lstrip s) (1024 ^ 4) /\
      parse_memory_to_bytes (s ++ "Pi") = scaled (lstrip s) (1024 ^ 5) /\
      parse_memory_to_bytes (s ++ "Ei") = scaled (lstrip s) (1024 ^ 6) /\
      parse_memory_to_bytes (s ++ "K") = scaled (lstrip s) (1000 ^ 1) /\
      parse_memory_to_bytes (s ++ "M") = scaled (lstrip s) (1000 ^ 2) /\
      parse_memory_to_bytes (s ++ "G") = scaled (lstrip s) (1000 ^ 3) /\
      parse_memory_to_bytes (s ++ "T") = scaled (lstrip s) (1000 ^ 4)) /\
  Forall (fun k => scaled "1" k = Ok k) (binary_factors ++ decimal_factors) /\
  (forall s k,
      numeral s -> In k (binary_factors ++ decimal_factors) ->
      value s * k < 2 ^ 53 ->
      scaled s k = Ok (value s * k)).
Proof.
  split; [|split; [|split; [|split; [|apply scaled_numeral]]]].
  - conjuncts; vm_compute; reflexivity.
  - conjuncts; vm_compute; reflexivity.
  - intros s.
    pose proof (memory_Ki s). pose proof (memory_Mi s).
    pose proof (memory_Gi s). pose proof (memory_Ti s).
    pose proof (memory_Pi s). pose proof (memory_Ei s).
    pose proof (memory_K s). pose proof (memory_M s).
    pose proof (memory_G s). pose proof (memory_T s).
    conjuncts; assumption.
  - repeat (apply List.Forall_cons; [vm_compute; reflexivity|]).
    apply List.Forall_nil.
Qed.

Lemma unit_parsers_exact_witness :
  parse_memory_to_bytes ("120" ++ "Mi") = Ok (120 * 1024 ^ 2).
Proof.
  destruct unit_parsers_exact as (_ & _ & Hunit & _ & Hexact).
  destruct (Hunit "120") as (_ & -> & _).
  apply (Hexact "120" (1024 ^ 2)).
  - split; [reflexivity | discriminate].
  - simpl. auto.
  - vm_compute. reflexivity.
Defined.

(** C10.  The unit parsers are partial: [parse_cpu_to_millicores] hands
    the part before a final [m] to [int], which rejects a fraction such as
    [0.5], and [parse_memory_to_bytes] hands a string without a unit to
    [int], which rejects [1.5]; in both cases a [ValueError] is raised.
    The callers in the predicates absorb it: the CPU round that meets such
    a row does not pass, and the memory usage of such a row is reported
    as missing. *)
Theorem unit_parsers_partial :
  parse_cpu_to_millicores "0.5m" = Raise ValueError /\
  parse_memory_to_bytes "1.5" = Raise ValueError /\
  (forall s, parse_cpu_to_millicores (s ++ "m") = py_int s) /\
  py_int "0.5" = Raise ValueError /\
  py_int "1.5" = Raise ValueError /\
  (forall threshold,
      cpu_line [Fixtures.svc_a] threshold "svc-a-1 app 0.5m 1.5"
        = Raise ValueError /\
      cpu_round [Fixtures.svc_a] threshold
        (Fixtures.top_ok Fixtures.fractional) = false) /\
  get_container_memory_usage_bytes
    (Fixtures.top_ok Fixtures.fractional) "app" = None.
Proof.
  split; [vm_compute; reflexivity|].
  split; [vm_compute; reflexivity|].
  split; [apply cpu_m|].
  split; [vm_compute; reflexivity|].
  split; [vm_compute; reflexivity|].
  split; [|vm_compute; reflexivity].
  intros threshold.
  assert (Hline : cpu_line [Fixtures.svc_a] threshold
                    "svc-a-1 app 0.5m 1.5" = Raise ValueError).
  { unfold cpu_line.
    replace (split_ws "svc-a-1 app 0.5m 1.5")
      with ["svc-a-1"; "app"; "0.5m"; "1.5"] by (vm_compute; reflexivity).
    replace (is_sidecar "app") with false by (vm_compute; reflexivity).
    replace (find_pod [Fixtures.svc_a] "svc-a-1")
      with (Some Fixtures.svc_a) by (vm_compute; reflexivity).
    replace (parse_cpu_to_millicores "0.5m")
      with (@Raise Z ValueError) by (vm_compute; reflexivity).
    reflexivity. }
  split; [exact Hline|].
  unfold cpu_round, Fixtures.top_ok, rbind, catch.
  replace (returncode _ =? 0) with true by (vm_compute; reflexivity).
  replace (length _ <? 2)%nat with false by (vm_compute; reflexivity).
  cbv iota beta.
  replace (data_lines _) with ["svc-a-1 app 0.5m 1.5"]
    by (vm_compute; reflexivity).
  unfold cpu_lines, rbind. rewrite Hline. reflexivity.
Qed.

End UnitValues.

(** ** The disk predicate: when the test file is removed *)

Section Disk.
Import PyStr PyNum CheckStatus.

(** The removal of the test file is issued exactly on the passing path. *)
Lemma cleanup_iff_passed min_write_speed_mb s p :
  In (RemoveTestFile (p_name p)) (fst (disk_pod min_write_speed_mb s p))
  <-> throughput_ok min_write_speed_mb s p.
Proof.
  unfold disk_pod, throughput_ok. cbv zeta.
  destruct (ds_write s (p_name p)) as [r|e] eqn:Hw.
  - destruct (String.eqb_spec (strip (stdout r)) "") as [Hout|Hout].
    + split.
      * intros [H|[]]. discriminate.
      * intros (r' & d & [= <-] & Hne & _). contradiction.
    + unfold rbind at 1.
      destruct (last_line_int (strip (stdout r))) as [d|e] eqn:Hd.
      * destruct (too_slow d min_write_speed_mb) as [[|]|e] eqn:Hs.
        -- split; [intros [H|[]]; discriminate|].
           intros (r' & d' & [= <-] & _ & Hd' & H). congruence.
        -- split; [|intros _; right; left; reflexivity].
           intros _. exists r, d. auto.
        -- split; [intros [H|[]]; discriminate|].
           intros (r' & d' & [= <-] & _ & Hd' & H). congruence.
      * split; [intros [H|[]]; discriminate|].
        intros (r' & d' & [= <-] & _ & H & _). congruence.
  - split.
    + intros [H|[]]. discriminate.
    + intros (r & d & H & _). discriminate.
Qed.

(** C7, evaluated.  After a failing throughput check, after a write test
    without output and after an execution error the round issues the
    write test and no removal of the test file; the removal follows only
    a passing check. *)
Theorem disk_cleanup_skipped :
  disk_round default_min_write_speed_mb Fixtures.slow_disk
    = ([WriteTest "db-0"], false) /\
  disk_round default_min_write_speed_mb Fixtures.silent_disk
    = ([WriteTest "db-0"], false) /\
  disk_round default_min_write_speed_mb Fixtures.broken_disk
    = ([WriteTest "db-0"], false) /\
  disk_round default_min_write_speed_mb Fixtures.fast_disk
    = ([WriteTest "db-0"; RemoveTestFile "db-0"], true) /\
  check_disk_io_performance default_min_write_speed_mb
    [Fixtures.slow_disk; Fixtures.slow_disk]
    = ([WriteTest "db-0"; WriteTest "db-0"], false).
Proof. conjuncts; vm_compute; reflexivity. Qed.

End Disk.

(** ** The network predicate *)

Section Network.
Import PyStr PyNum CheckStatus.

Lemma all_pods_true {S : Type} (body : S -> pod -> bool) s pods flag :
  all_pods body s pods flag = true ->
  flag = true /\ Forall (fun p => body s p = true) pods.
Proof.
  revert flag. induction pods as [|p rest IH]; intros flag; simpl.
  - intros ->. split; constructor.
  - intros H. destruct (IH _ H) as [Hflag Hrest].
    destruct (body s p) eqn:Hp; [|discriminate].
    split; [assumption|]. constructor; assumption.
Qed.

(** What a passing pod went through. *)
Lemma ping_pod_true max_latency_ms max_loss_percent s p :
  ping_pod max_latency_ms max_loss_percent s p = true ->
  exists r output loss avg,
    ping_output s (p_name p) = Ok (r, output) /\
    packet_loss_percent output = Ok loss /\
    Binary64.gtb loss max_loss_percent = false /\
    avg_latency output = Ok (Some avg) /\
    Binary64.gtb avg max_latency_ms = false.
Proof.
  unfold ping_pod.
  destruct (ping_output s (p_name p)) as [[r output]|e] eqn:Hout; simpl;
    [|discriminate].
  destruct (negb (returncode r =? 0)
            && negb (contains "100% packet loss" output)); simpl;
    [discriminate|].
  destruct (packet_loss_percent output) as [loss|e] eqn:Hl; simpl;
    [|discriminate].
  destruct (Binary64.gtb loss max_loss_percent) eqn:Hloss; simpl;
    [discriminate|].
  destruct (avg_latency output) as [[avg|]|e] eqn:Ha; simpl;
    try discriminate.
  intros H. apply negb_true_iff in H.
  exists r, output, loss, avg. conjuncts; auto.
Qed.

(** Apart from NaN, a value that does not exceed a bound is within it. *)
Lemma within_unless_nan (x y : Binary64.float) :
  Binary64.gtb x y = false ->
  x <> Binary64.NaN -> y <> Binary64.NaN ->
  Binary64.leb x y = true.
Proof.
  unfold Binary64.gtb, Binary64.leb, Binary64.compare.
  destruct x as [m1 e1|[|]|], y as [m2 e2|[|]|]; try congruence;
    try reflexivity.
  destruct (Binary64.cmp_finite m1 e1 m2 e2); congruence.
Qed.

(** The loss and the latency of a passing pod are within the thresholds,
    unless one of them was read as NaN. *)
Lemma ping_pod_within max_latency_ms max_loss_percent s p :
  max_latency_ms <> Binary64.NaN -> max_loss_percent <> Binary64.NaN ->
  ping_pod max_latency_ms max_loss_percent s p = true ->
  exists r output loss avg,
    ping_output s (p_name p) = Ok (r, output) /\
    packet_loss_percent output = Ok loss /\
    avg_latency output = Ok (Some avg) /\
    (loss <> Binary64.NaN -> Binary64.leb loss max_loss_percent = true) /\
    (avg <> Binary64.NaN -> Binary64.leb avg max_latency_ms = true).
Proof.
  intros Hlat Hloss Hpod.
  destruct (ping_pod_true _ _ _ _ Hpod)
    as (r & output & loss & avg & Ho & Hl & Hgl & Ha & Hga).
  exists r, output, loss, avg. conjuncts; auto using within_unless_nan.
Qed.

(** Every pod of a passing round passed. *)
Lemma ping_round_true max_latency_ms max_loss_percent s :
  ping_round max_latency_ms max_loss_percent s = true ->
  Forall (fun p => ping_pod max_latency_ms max_loss_percent s p = true)
    (ps_pods s).
Proof.
  unfold ping_round. destruct (ps_pods s) as [|p rest]; [discriminate|].
  intros H. apply (all_pods_true _ _ _ _ H).
Qed.

(** Without a line that parses as a loss summary the loss is 100. *)
Lemma unparsable_loss output :
  (forall line, List.find is_loss_line (lines output) = Some line ->
                exists e, loss_field line = Raise e /\ parse_error e = true) ->
  packet_loss_percent output = Ok (Binary64.exact 100).
Proof.
  intros H. unfold packet_loss_percent.
  destruct (List.find is_loss_line (lines output)) as [line|];
    [|reflexivity].
  destruct (H line eq_refl) as (e & -> & ->). reflexivity.
Qed.

(** A pod whose loss reads 100 fails under every loss threshold below
    100, the default 0 among them. *)
Lemma full_loss_fails max_latency_ms max_loss_percent s p r output :
  ping_output s (p_name p) = Ok (r, output) ->
  packet_loss_percent output = Ok (Binary64.exact 100) ->
  Binary64.gtb (Binary64.exact 100) max_loss_percent = true ->
  ping_pod max_latency_ms max_loss_percent s p = false.
Proof.
  intros Hout Hloss Hgt. unfold ping_pod. rewrite Hout. simpl.
  destruct (negb (returncode r =? 0)
            && negb (contains "100% packet loss" output)); [reflexivity|].
  rewrite Hloss. simpl. rewrite Hgt. reflexivity.
Qed.

(** On time-out, that is when no sampled round passes, the answer is
    false. *)
Lemma ping_timeout max_latency_ms max_loss_percent samples :
  (forall s, In s samples ->
             ping_round max_latency_ms max_loss_percent s = false) ->
  check_ping_latency_recovered max_latency_ms max_loss_percent samples
    = false.
Proof. apply poll_timeout. Qed.

(** A summary that reads [nan% packet loss] and an average of [nan]
    parses, by [float], to a NaN; a NaN exceeds no threshold, so the pod
    would pass although neither [loss <= 0] nor [latency <= 1000] holds:
    this is the output that [numeric] leaves out.  Output without a
    summary is taken as 100% loss and fails. *)
Lemma ping_nan_passes :
  check_ping_latency_recovered default_max_latency_ms
    default_max_loss_percent [Fixtures.ping_of Fixtures.nan_summary] = true /\
  packet_loss_percent Fixtures.nan_summary = Ok Binary64.NaN /\
  Binary64.leb Binary64.NaN default_max_loss_percent = false /\
  avg_latency Fixtures.nan_summary = Ok (Some Binary64.NaN) /\
  Binary64.leb Binary64.NaN default_max_latency_ms = false /\
  ~ numeric Fixtures.nan_summary /\
  check_ping_latency_recovered default_max_latency_ms
    default_max_loss_percent [Fixtures.ping_of Fixtures.garbage] = false /\
  check_ping_latency_recovered default_max_latency_ms
    default_max_loss_percent [Fixtures.ping_of Fixtures.healthy_summary]
    = true.
Proof.
  conjuncts; try (vm_compute; reflexivity).
  intros [H _]. apply H. vm_compute. reflexivity.
Qed.

(** Rounding gives no NaN. *)
Lemma round_pos_number (n d : Z) : Binary64.round_pos n d <> Binary64.NaN.
Proof.
  unfold Binary64.round_pos. cbv zeta.
  match goal with |- (if ?b then _ else _) <> _ => destruct b end;
    discriminate.
Qed.

Lemma round_ratio_number (n d : Z) :
  Binary64.round_ratio n d <> Binary64.NaN.
Proof.
  unfold Binary64.round_ratio.
  destruct (n =? 0); [discriminate|].
  destruct (n <? 0); [|apply round_pos_number].
  pose proof (round_pos_number (- n) d) as H.
  destruct (Binary64.round_pos (- n) d); [discriminate | discriminate |].
  contradiction.
Qed.

Lemma opp_nan (f : Binary64.float) :
  Binary64.opp f = Binary64.NaN -> f = Binary64.NaN.
Proof. destruct f; [discriminate | discriminate | reflexivity]. Qed.

(** [float] reads a NaN from the text [nan] alone, in any case, with or
    without a sign and white space around it. *)
Lemma py_float_nan (text : string) :
  py_float text = Ok Binary64.NaN ->
  lower (snd (sign (strip text))) = "nan".
Proof.
  unfold py_float.
  destruct (sign (strip text)) as [neg body]. cbn [snd].
  assert (Hfinish : forall f,
             Ok (if neg then Binary64.opp f else f) = Ok Binary64.NaN ->
             f = Binary64.NaN).
  { intros f H. injection H as H. destruct neg; [apply opp_nan|]; exact H. }
  destruct (special body) as [f|] eqn:Hsp.
  - intros H. apply Hfinish in H. subst f.
    unfold special in Hsp. cbv zeta in Hsp.
    destruct (String.eqb (lower body) "inf"
              || String.eqb (lower body) "infinity"); [discriminate|].
    destruct (String.eqb_spec (lower body) "nan"); [assumption|discriminate].
  - assert (Htail : forall ip fp ni nf r2,
               match (ni + nf)%nat with
               | O => Raise ValueError
               | S _ =>
                   match exponent r2 with
                   | Some x =>
                       Ok (if neg
                           then Binary64.opp
                                  (decimal (ip * 10 ^ Z.of_nat nf + fp)
                                     (x - Z.of_nat nf))
                           else decimal (ip * 10 ^ Z.of_nat nf + fp)
                                  (x - Z.of_nat nf))
                   | None => Raise ValueError
                   end
               end = Ok Binary64.NaN -> False).
    { intros ip fp ni nf r2.
      destruct (ni + nf)%nat; [discriminate|].
      destruct (exponent r2) as [x|]; [|discriminate].
      intros H. apply Hfinish in H. revert H. unfold decimal.
      destruct (0 <=? x - Z.of_nat nf); apply round_ratio_number. }
    destruct (digitpart body) as [[ip ni] r1].
    destruct r1 as [|ch r];
      [|destruct (Ascii.eqb ch ".");
        [destruct (digitpart r) as [[fp nf] r2]|]];
      intros H; exfalso.
    + exact (Htail ip 0 ni O "" H).
    + exact (Htail ip fp ni nf r2 H).
    + exact (Htail ip 0 ni O (String ch r) H).
Qed.

(** Once a pod has cleared [all_ok], the round fails. *)
Lemma all_pods_cleared {S : Type} (body : S -> pod -> bool) s pods :
  all_pods body s pods false = false.
Proof.
  induction pods as [|p rest IH]; [reflexivity|].
  cbn [all_pods]. destruct (body s p); exact IH.
Qed.

Lemma all_pods_false {S : Type} (body : S -> pod -> bool) s pods flag p :
  In p pods -> body s p = false -> all_pods body s pods flag = false.
Proof.
  revert flag. induction pods as [|q rest IH]; intros flag; [intros []|].
  intros [->|Hin] Hp; cbn [all_pods].
  - rewrite Hp. apply all_pods_cleared.
  - apply IH; assumption.
Qed.

Lemma ping_round_false max_latency_ms max_loss_percent s p :
  In p (ps_pods s) ->
  ping_pod max_latency_ms max_loss_percent s p = false ->
  ping_round max_latency_ms max_loss_percent s = false.
Proof.
  unfold ping_round. intros Hin Hp.
  destruct (ps_pods s) as [|q rest] eqn:Hpods; [reflexivity|].
  rewrite <- Hpods in *. eapply all_pods_false; eassumption.
Qed.

(** A probe that raises clears [all_ok]: the exception is caught. *)
Lemma ping_pod_raise max_latency_ms max_loss_percent s p e :
  ping_output s (p_name p) = Raise e ->
  ping_pod max_latency_ms max_loss_percent s p = false.
Proof. intros H. unfold ping_pod. rewrite H. reflexivity. Qed.

(** C8.  When the summaries of the probed pods give numbers, the network
    predicate returns true only from a round in which at least one pod is
    listed and every listed pod has a packet loss and an average latency,
    read from its output, within the thresholds.  Output without a
    parsable loss summary has its loss taken as 100, and the pod then
    clears the round whenever the loss threshold is below 100, as the
    default 0 is.  When no round before the deadline passes the predicate
    returns false; a probe that raises only fails its pod, and the
    predicate, a boolean in every case, raises nothing.  [float] reads a
    NaN from the text [nan] alone. *)
Theorem ping_recovered_within_thresholds
    (max_latency_ms max_loss_percent : Binary64.float)
    (samples : list ping_sample) :
  max_latency_ms <> Binary64.NaN ->
  max_loss_percent <> Binary64.NaN ->
  (forall s p r output,
      In s samples -> In p (ps_pods s) ->
      ping_output s (p_name p) = Ok (r, output) -> numeric output) ->
  (check_ping_latency_recovered max_latency_ms max_loss_percent samples
   = true ->
   exists s,
     In s samples /\ ps_pods s <> [] /\
     Forall (within_thresholds max_latency_ms max_loss_percent s)
       (ps_pods s)) /\
  (forall s p r output,
      ping_output s (p_name p) = Ok (r, output) ->
      unparsable output ->
      packet_loss_percent output = Ok (Binary64.exact 100) /\
      (Binary64.gtb (Binary64.exact 100) max_loss_percent = true ->
       ping_pod max_latency_ms max_loss_percent s p = false /\
       (In p (ps_pods s) ->
        ping_round max_latency_ms max_loss_percent s = false))) /\
  Binary64.gtb (Binary64.exact 100) default_max_loss_percent = true /\
  ((forall s, In s samples ->
              ping_round max_latency_ms max_loss_percent s = false) ->
   check_ping_latency_recovered max_latency_ms max_loss_percent samples
   = false) /\
  (forall s p e,
      ping_output s (p_name p) = Raise e ->
      ping_pod max_latency_ms max_loss_percent s p = false /\
      (In p (ps_pods s) ->
       ping_round max_latency_ms max_loss_percent s = false)) /\
  (forall text,
      py_float text = Ok Binary64.NaN ->
      lower (snd (sign (strip text))) = "nan").
Proof.
  intros Hlat Hloss Hnum. conjuncts.
  - intros Hcheck.
    destruct (poll_true _ _ Hcheck) as (s & Hin & Hround).
    exists s. split; [exact Hin|]. split.
    + intros Hnil. unfold ping_round in Hround. rewrite Hnil in Hround.
      discriminate.
    + pose proof (ping_round_true _ _ _ Hround) as Hall.
      rewrite List.Forall_forall in Hall. apply List.Forall_forall.
      intros p Hp.
      destruct (ping_pod_within _ _ _ _ Hlat Hloss (Hall p Hp))
        as (r & output & loss & avg & Ho & Hl & Ha & Hwl & Hwa).
      destruct (Hnum s p r output Hin Hp Ho) as [Hnl Hna].
      exists r, output, loss, avg. conjuncts; auto.
      * apply Hwl. intros ->. contradiction.
      * apply Hwa. intros ->. contradiction.
  - intros s p r output Ho Hun.
    pose proof (unparsable_loss output Hun) as H100.
    split; [exact H100|]. intros Hgt.
    pose proof (full_loss_fails max_latency_ms _ _ _ _ _ Ho H100 Hgt) as Hp.
    split; [exact Hp|]. intros Hin. eapply ping_round_false; eassumption.
  - vm_compute. reflexivity.
  - apply ping_timeout.
  - intros s p e He.
    pose proof (ping_pod_raise max_latency_ms max_loss_percent _ _ _ He) as Hp.
    split; [exact Hp|]. intros Hin. eapply ping_round_false; eassumption.
  - apply py_float_nan.
Qed.

Lemma ping_recovered_within_thresholds_witness :
  (exists s,
      In s [Fixtures.ping_of Fixtures.garbage;
            Fixtures.ping_of Fixtures.healthy_summary] /\
      ps_pods s <> [] /\
      Forall (within_thresholds default_max_latency_ms
                default_max_loss_percent s) (ps_pods s)) /\
  ping_round default_max_latency_ms default_max_loss_percent
    (Fixtures.ping_of Fixtures.garbage) = false.
Proof.
  destruct (ping_recovered_within_thresholds default_max_latency_ms
              default_max_loss_percent
              [Fixtures.ping_of Fixtures.garbage;
               Fixtures.ping_of Fixtures.healthy_summary])
    as (Htrue & Hgarbage & Hgt & _).
  - discriminate.
  - discriminate.
  - intros s p r output [<-|[<-|[]]] [<-|[]] Ho;
      vm_compute in Ho; injection Ho as _ <-;
      (split; vm_compute; discriminate).
  - split; [apply Htrue; vm_compute; reflexivity|].
    destruct (Hgarbage (Fixtures.ping_of Fixtures.garbage) Fixtures.db_0
                {| returncode := 0; stdout := Fixtures.garbage;
                   stderr := "" |}
                Fixtures.garbage) as [_ Hfail].
    + vm_compute. reflexivity.
    + intros line Hline. vm_compute in Hline. discriminate.
    + destruct (Hfail Hgt) as [_ Hround]. apply Hround. left. reflexivity.
Defined.

End Network.

(** ** Reassembly of a streamed response *)

Section Stream.
Import Llm.
Local Open Scope list_scope.

Lemma consume_deltas ls a :
  consume ls a = fold_left on_delta (deltas ls) a.
Proof.
  revert a. induction ls as [|l rest IH]; intros a; [reflexivity|].
  destruct l as [|t| |t|c]; simpl; try apply IH; [reflexivity|].
  unfold deltas, on_chunk. simpl.
  destruct (choices c) as [| |[|d ds]]; simpl; apply IH.
Qed.

Lemma calls_fold ds a :
  current_tool_calls (fold_left on_delta ds a)
  = fold_left on_tool_call_chunk (List.concat (List.map fragments_of ds))
      (current_tool_calls a).
Proof.
  revert a. induction ds as [|d ds IH]; intros a; simpl; [reflexivity|].
  rewrite IH, fold_left_app. f_equal.
  unfold on_delta, fragments_of. simpl.
  destruct (d_tool_calls d); reflexivity.
Qed.

Lemma join_app l1 l2 : join (l1 ++ l2) = (join l1 ++ join l2)%string.
Proof.
  induction l1 as [|x l1 IH]; simpl; [reflexivity|].
  unfold join in *. simpl. rewrite IH, append_assoc. reflexivity.
Qed.

Lemma content_fold ds a :
  acc_content (fold_left on_delta ds a)
  = (acc_content a ++ join (List.map content_of ds))%string.
Proof.
  revert a. induction ds as [|d ds IH]; intros a; simpl.
  - symmetry. apply append_nil_r.
  - rewrite IH. unfold join at 2. simpl. fold (join (List.map content_of ds)).
    rewrite <- append_assoc. f_equal.
    unfold on_delta, content_of. simpl.
    destruct (d_content d); simpl; rewrite ?append_nil_r; reflexivity.
Qed.

Lemma for_index_snoc i frs c :
  for_index i (frs ++ [c])
  = for_index i frs ++ (if tcc_index c =? i then [c] else []).
Proof.
  unfold for_index. rewrite List.filter_app. simpl.
  destruct (tcc_index c =? i); reflexivity.
Qed.

Lemma for_index_other i frs c :
  tcc_index c <> i -> for_index i (frs ++ [c]) = for_index i frs.
Proof.
  intros H. rewrite for_index_snoc.
  destruct (Z.eqb_spec (tcc_index c) i); [contradiction|].
  apply app_nil_r.
Qed.

Lemma for_index_same frs c :
  for_index (tcc_index c) (frs ++ [c]) = for_index (tcc_index c) frs ++ [c].
Proof. rewrite for_index_snoc, Z.eqb_refl. reflexivity. Qed.

Lemma arguments_for_same frs c :
  arguments_for (tcc_index c) (frs ++ [c])
  = (arguments_for (tcc_index c) frs ++ argument_fragment c)%string.
Proof.
  unfold arguments_for. rewrite for_index_same, List.map_app, join_app.
  unfold join at 2. simpl. rewrite append_nil_r. reflexivity.
Qed.

Lemma last_name_same frs c :
  last_name (tcc_index c) (frs ++ [c])
  = match name_fragment c with
    | Some n => n
    | None => last_name (tcc_index c) frs
    end.
Proof.
  unfold last_name, names_for. rewrite for_index_same, omap_app. simpl.
  destruct (name_fragment c) as [n|].
  - apply List.last_last.
  - rewrite app_nil_r. reflexivity.
Qed.

(** What the guarded assignments leave in an entry. *)
Lemma update_function_spec fc t :
  name (function (update_function fc t))
  = match truthy_str (fc_name fc) with
    | Some n => n
    | None => name (function t)
    end /\
  arguments (function (update_function fc t))
  = (arguments (function t)
     ++ default "" (truthy_str (fc_arguments fc)))%string.
Proof.
  unfold update_function.
  destruct (truthy_str (fc_name fc)), (truthy_str (fc_arguments fc));
    simpl; rewrite ?append_nil_r; auto.
Qed.

(** One fragment brings the entry of its index up to date, creating it
    when needed. *)
Lemma chunk_entry frs calls c :
  tracks frs calls ->
  exists t,
    on_tool_call_chunk calls c !! tcc_index c = Some t /\
    name (function t) = last_name (tcc_index c) (frs ++ [c]) /\
    arguments (function t) = arguments_for (tcc_index c) (frs ++ [c]).
Proof.
  intros H. specialize (H (tcc_index c)).
  rewrite last_name_same, arguments_for_same.
  unfold on_tool_call_chunk, name_fragment, argument_fragment.
  assert (exists t0,
             match calls !! tcc_index c with
             | Some _ => calls
             | None => <[tcc_index c := fresh c]> calls
             end !! tcc_index c = Some t0 /\
             name (function t0) = last_name (tcc_index c) frs /\
             arguments (function t0) = arguments_for (tcc_index c) frs)
    as (t0 & Hl & Hn & Ha).
  { destruct (calls !! tcc_index c) as [t|] eqn:E.
    - exists t. tauto.
    - exists (fresh c). rewrite lookup_insert_eq.
      unfold last_name, arguments_for, names_for. rewrite H. auto. }
  destruct (tcc_function c) as [fc|].
  - exists (update_function fc t0).
    rewrite lookup_alter_eq, Hl.
    destruct (update_function_spec fc t0) as [-> ->].
    rewrite Hn, Ha. auto.
  - exists t0. rewrite append_nil_r. auto.
Qed.

Lemma chunk_other calls c i :
  tcc_index c <> i -> on_tool_call_chunk calls c !! i = calls !! i.
Proof.
  intros Hne. unfold on_tool_call_chunk.
  assert (match calls !! tcc_index c with
          | Some _ => calls
          | None => <[tcc_index c := fresh c]> calls
          end !! i = calls !! i) as Hl.
  { destruct (calls !! tcc_index c); [reflexivity|].
    apply lookup_insert_ne, Hne. }
  destruct (tcc_function c); [|exact Hl].
  rewrite lookup_alter_ne by exact Hne. exact Hl.
Qed.

Lemma tracks_step frs calls c :
  tracks frs calls -> tracks (frs ++ [c]) (on_tool_call_chunk calls c).
Proof.
  intros H i. destruct (Z.eq_dec (tcc_index c) i) as [<-|Hne].
  - destruct (chunk_entry frs calls c H) as (t & -> & Hn & Ha).
    split; [|auto]. rewrite for_index_same. now destruct (for_index _ frs).
  - rewrite (chunk_other calls c i Hne).
    unfold last_name, arguments_for, names_for.
    rewrite (for_index_other i frs c Hne). apply H.
Qed.

Lemma tracks_fold frs :
  tracks frs (fold_left on_tool_call_chunk frs ∅).
Proof.
  induction frs as [|c frs IH] using rev_ind.
  - intros i. simpl. rewrite lookup_empty. reflexivity.
  - rewrite fold_left_app. apply tracks_step, IH.
Qed.

Lemma strictly_sorted (l : list Z) :
  StronglySorted Z.le l -> NoDup l -> StronglySorted Z.lt l.
Proof.
  induction 1 as [|x l Hl IH Hx]; intros Hnd; constructor.
  - apply IH. now apply NoDup_cons_1_2 in Hnd.
  - apply NoDup_cons in Hnd as [Hx' _].
    rewrite List.Forall_forall in *. intros y Hy.
    specialize (Hx y Hy).
    assert (x <> y) by (intros ->; apply Hx', list_elem_of_In, Hy).
    lia.
Qed.

Lemma sorted_keys_spec (calls : gmap Z tool_call) :
  StronglySorted Z.lt (sorted_keys calls) /\
  forall i, In i (sorted_keys calls) <-> is_Some (calls !! i).
Proof.
  unfold sorted_keys. split.
  - apply strictly_sorted.
    + apply StronglySorted_merge_sort; apply _.
    + rewrite merge_sort_Permutation. apply NoDup_elements.
  - intros i. rewrite <- list_elem_of_In, merge_sort_Permutation.
    rewrite elem_of_elements. apply elem_of_dom.
Qed.

Lemma for_index_nonempty i frs :
  for_index i frs <> [] <-> In i (List.map tcc_index frs).
Proof.
  unfold for_index. induction frs as [|c frs IH]; simpl; [tauto|].
  destruct (Z.eqb_spec (tcc_index c) i) as [->|Hne].
  - split; [auto | discriminate].
  - rewrite IH. tauto.
Qed.

(** Reading the entries back in key order. *)
Lemma entries_in_order frs calls keys :
  tracks frs calls ->
  (forall i, In i keys -> is_Some (calls !! i)) ->
  List.map (fun t => name (function t)) (omap (fun i => calls !! i) keys)
  = List.map (fun i => last_name i frs) keys /\
  List.map (fun t => arguments (function t))
    (omap (fun i => calls !! i) keys)
  = List.map (fun i => arguments_for i frs) keys.
Proof.
  intros Htr. induction keys as [|k keys IH]; intros Hin; simpl; [auto|].
  destruct (Hin k) as [t Ht]; [now left|].
  pose proof (Htr k) as Hk. rewrite Ht in Hk |- *.
  destruct Hk as (_ & Hn & Ha).
  destruct IH as [IHn IHa]; [intros i Hi; apply Hin; now right|].
  simpl. change (list_omap Z tool_call) with (@omap list _ Z tool_call).
  rewrite Hn, Ha, IHn, IHa. auto.
Qed.

Lemma stream_calls stream :
  current_tool_calls
    (consume stream {| acc_content := ""; current_tool_calls := ∅ |})
  = fold_left on_tool_call_chunk (fragments stream) ∅.
Proof. rewrite consume_deltas, calls_fold. reflexivity. Qed.

Lemma stream_content stream :
  acc_content
    (consume stream {| acc_content := ""; current_tool_calls := ∅ |})
  = text stream.
Proof. rewrite consume_deltas, content_fold. reflexivity. Qed.

(** C9, amended.  The tool calls of the reassembled message are listed
    in ascending order of their indices, one per index that occurs in a
    fragment before the [DONE] marker; the arguments of each are the
    argument fragments carried for its index, concatenated in stream
    order; its name is the last non-empty name fragment carried for its
    index; and the content is [None] exactly when there are tool calls
    and no content was accumulated. *)
Theorem streamed_response_reassembled (stream : list sse_line) :
  let m := parse_streamed_response stream in
  let frs := fragments stream in
  exists indices,
    StronglySorted Z.lt indices /\
    (forall i, In i indices <-> In i (List.map tcc_index frs)) /\
    argument_strings m = List.map (fun i => arguments_for i frs) indices /\
    names m = List.map (fun i => last_name i frs) indices /\
    role m = "assistant" /\
    (content m = None <-> tool_calls m <> [] /\ text stream = "") /\
    (content m = None \/ content m = Some (text stream)).
Proof.
  intros m frs. subst m. unfold parse_streamed_response.
  rewrite stream_calls, stream_content. fold frs.
  pose proof (tracks_fold frs) as Htr.
  set (calls := fold_left on_tool_call_chunk frs ∅) in *.
  destruct (decide (calls = ∅)) as [Hempty|Hcalls].
  - exists []. unfold argument_strings, names. simpl. conjuncts; auto.
    + constructor.
    + intros i. split; [tauto|].
      intros Hi. apply for_index_nonempty in Hi.
      specialize (Htr i). rewrite Hempty, lookup_empty in Htr.
      contradiction.
    + split; [discriminate | intros [H _]; contradiction].
  - destruct (sorted_keys_spec calls) as [Hsorted Hkeys].
    destruct (entries_in_order frs calls (sorted_keys calls) Htr)
      as [Hn Ha]; [intros i; apply Hkeys|].
    exists (sorted_keys calls). unfold argument_strings, names. simpl.
    conjuncts; auto.
    + intros i. rewrite Hkeys, <- for_index_nonempty.
      specialize (Htr i). destruct (calls !! i) as [t|].
      * split; [tauto | eauto].
      * split; [intros [? [=]] | congruence].
    + assert (omap (fun i => calls !! i) (sorted_keys calls) <> [])
        as Hne.
      { intros Hnil. rewrite Hnil in Hn. simpl in Hn.
        symmetry in Hn. apply List.map_eq_nil in Hn.
        apply Hcalls, map_empty. intros i.
        destruct (calls !! i) eqn:E; [|reflexivity].
        assert (In i (sorted_keys calls)) as Hi by (apply Hkeys; eauto).
        rewrite Hn in Hi. destruct Hi. }
      destruct (String.eqb_spec (text stream) "") as [Ht|Ht].
      * split; auto.
      * split; [discriminate | intros [_ ?]; contradiction].
    + destruct (String.eqb (text stream) ""); auto.
Qed.

(** Two calls whose fragments arrive interleaved, the higher index first,
    with a fragment after the [DONE] marker. *)
Example interleaved_reassembled :
  names (parse_streamed_response Fixtures.interleaved)
  = ["print_playbook"; "probe"] /\
  argument_strings (parse_streamed_response Fixtures.interleaved)
  = ["{a}"; "{b}"]%string /\
  content (parse_streamed_response Fixtures.interleaved) = None.
Proof. conjuncts; vm_compute; reflexivity. Qed.

(** C9 as stated fails: with two named fragments for one index the
    reassembled call bears the name of the second, not of the first. *)
Lemma streamed_name_not_first :
  names (parse_streamed_response Fixtures.renamed) = ["print_playbook"] /\
  List.map tcc_index (fragments Fixtures.renamed) = [0; 0] /\
  first_name 0 (fragments Fixtures.renamed) = "probe" /\
  names (parse_streamed_response Fixtures.renamed)
  <> List.map (fun i => first_name i (fragments Fixtures.renamed)) [0].
Proof.
  conjuncts; try (vm_compute; reflexivity).
  vm_compute. discriminate.
Qed.

End Stream.

(** ** The remediation loop *)

Section Remediation.
Import ExecutionAgent Coordinator.
Local Open Scope list_scope.

Variable w : world.

Local Abbreviation consistent := (Coordinator.consistent w).

Lemma count_verify_snoc t e :
  count_verify (t ++ [e])
  = (count_verify t + match e with Verify => 1 | _ => 0 end)%nat.
Proof.
  unfold count_verify. rewrite List.filter_app, List.length_app.
  destruct e; reflexivity.
Qed.

Lemma count_execute_snoc t e :
  count_execute (t ++ [e])
  = (count_execute t + match e with Execute _ => 1 | _ => 0 end)%nat.
Proof.
  unfold count_execute. rewrite List.filter_app, List.length_app.
  destruct e; reflexivity.
Qed.

Lemma count_verify_app t1 t2 :
  count_verify (t1 ++ t2) = (count_verify t1 + count_verify t2)%nat.
Proof.
  unfold count_verify. now rewrite List.filter_app, List.length_app.
Qed.

Lemma count_execute_app t1 t2 :
  count_execute (t1 ++ t2) = (count_execute t1 + count_execute t2)%nat.
Proof.
  unfold count_execute. now rewrite List.filter_app, List.length_app.
Qed.

Lemma consistent_append m st : consistent st -> consistent (append m st).
Proof. intros H. exact H. Qed.

Lemma consistent_quiet e st :
  quiet e -> consistent st ->
  consistent (emit e st) /\ executions (emit e st) = executions st.
Proof.
  intros He (Hv & Hcv & Hce). unfold Coordinator.consistent, emit. simpl.
  rewrite count_verify_snoc, count_execute_snoc.
  destruct e; simpl in *; try contradiction;
    rewrite ?Nat.add_0_r; auto.
Qed.

Lemma consistent_probe_tool st tool :
  consistent st ->
  consistent (probe_tool w st tool) /\
  executions (probe_tool w st tool) = executions st.
Proof.
  intros H. unfold probe_tool.
  destruct (cmds_of w (Llm.arguments tool)) as [cmds|]; [|auto].
  destruct (consistent_quiet (Probe cmds) st I H) as [H1 E1].
  destruct (get_probe_response w (probes st)); auto.
Qed.

Lemma consistent_probes tools st :
  consistent st ->
  consistent (fold_left (probe_tool w) tools st) /\
  executions (fold_left (probe_tool w) tools st) = executions st.
Proof.
  revert st. induction tools as [|tool tools IH]; intros st H; simpl; [auto|].
  destruct (consistent_probe_tool st tool H) as [H1 E1].
  destruct (IH _ H1) as [H2 E2]. split; [assumption | congruence].
Qed.

(** Drafting runs no playbook and verifies nothing. *)
Lemma consistent_draft fuel st r st' :
  get_playbook_with_probing fuel w st = Some (r, st') ->
  consistent st ->
  consistent st' /\ executions st' = executions st.
Proof.
  revert st. induction fuel as [|fuel IH]; intros st; simpl; [discriminate|].
  intros Hrun H.
  destruct (consistent_quiet ChatApi st I H) as [H1 E1].
  destruct (chat_api w (chats st)) as [[|first tools]|e].
  - injection Hrun as <- <-. auto.
  - destruct (String.eqb (Llm.name first) "print_playbook").
    + destruct (code_of w (Llm.arguments first)) as [code|e].
      * injection Hrun as <- <-. auto.
      * destruct (malformed e); injection Hrun as <- <-; auto.
    + destruct (consistent_probes (first :: tools) _ H1) as [H2 E2].
      destruct (IH _ Hrun H2) as [H3 E3]. split; [assumption | congruence].
  - injection Hrun as <- <-. auto.
Qed.

(** What one execution does to the state. *)
Lemma execute_and_verify_trace playbook st :
  let r := executor w (executions st) in
  let st' := snd (execute_and_verify w playbook st) in
  trace st'
  = trace st ++ Execute playbook
      :: (if succeeded r then [Sleep WAIT_REME_TIME; Verify] else []) /\
  executions st' = S (executions st) /\
  verifications st'
  = (verifications st + if succeeded r then 1 else 0)%nat.
Proof.
  unfold execute_and_verify, succeeded. simpl.
  destruct (execute_playbook_and_get_response default_timeout
              (executor w (executions st))) as [[[|] output]|e]; simpl;
    rewrite <- ?app_assoc, ?Nat.add_0_r, ?Nat.add_1_r; auto.
Qed.

Lemma consistent_execute playbook st res st' :
  execute_and_verify w playbook st = (res, st') ->
  consistent st ->
  consistent st' /\ executions st' = S (executions st).
Proof.
  intros Hrun (Hv & Hcv & Hce).
  destruct (execute_and_verify_trace playbook st) as (Ht & He & Hvs).
  rewrite Hrun in Ht, He, Hvs. simpl in Ht, He, Hvs.
  split; [|assumption]. unfold Coordinator.consistent.
  rewrite Ht, He, Hvs, count_verify_app, count_execute_app.
  simpl successes.
  destruct (succeeded (executor w (executions st)));
    unfold count_verify, count_execute in *; simpl; lia.
Qed.

(** The retry loop keeps the attempt count equal to the number of
    executions, and never lets it pass [max_retry + 1]. *)
Lemma retry_loop_bound fuel draft_fuel max_retry exec_status status
    try_time st o st' :
  retry_loop fuel draft_fuel w max_retry exec_status status try_time st
    = Some (o, st') ->
  consistent st ->
  Z.of_nat (executions st) = try_time ->
  try_time <= max_retry + 1 ->
  consistent st' /\
  Z.of_nat (executions st') <= max_retry + 1 /\
  match o with
  | Returned _ t => t = Z.of_nat (executions st')
  | ErrorValue => False
  | Raised _ => True
  end.
Proof.
  revert exec_status status try_time st.
  induction fuel as [|fuel IH]; intros exec_status status try_time st;
    simpl; destruct (negb status && (try_time <=? max_retry)) eqn:Hcond;
    try discriminate;
    try (intros [= <- <-] H Ht Hle; conjuncts; auto; lia).
  apply andb_true_iff in Hcond as [_ Hcond]. apply Z.leb_le in Hcond.
  intros Hrun H Ht Hle.
  destruct (get_playbook_with_probing draft_fuel w
              (append (user (retry_prompt exec_status status)) st))
    as [[[code|e] st2]|] eqn:Hdraft; [| |discriminate].
  - destruct (consistent_draft _ _ _ _ Hdraft (consistent_append _ _ H))
      as [H2 E2].
    destruct (execute_and_verify w code st2)
      as [[[[exec_status' status'] output]|e] st3] eqn:Hexec.
    + destruct (consistent_execute _ _ _ _ Hexec H2) as [H3 E3].
      apply IH in Hrun; [assumption| |simpl; unfold append in *; simpl in *; lia|lia].
      apply consistent_append, H3.
    + destruct (consistent_execute _ _ _ _ Hexec H2) as [H3 E3].
      injection Hrun as <- <-. conjuncts; auto.
      unfold append in *; simpl in *. lia.
  - destruct (consistent_draft _ _ _ _ Hdraft (consistent_append _ _ H))
      as [H2 E2].
    injection Hrun as <- <-. unfold append in *; simpl in *.
    conjuncts; auto; lia.
Qed.

Lemma succeeded_iff r :
  succeeded r = true <->
  write_ok r = true /\ exists out err, child r = Exited 0 out err.
Proof.
  unfold succeeded, execute_playbook_and_get_response.
  destruct (write_ok r); simpl.
  - destruct (child r) as [rc out err|out err| |e]; simpl.
    + destruct (Z.eqb_spec rc 0) as [->|Hrc].
      * split; [eauto | reflexivity].
      * split; [discriminate | intros [_ (o & e & [= ? _ _])]; contradiction].
    + split; [discriminate | intros [_ (o & e & [=])]].
    + split; [discriminate | intros [_ (o & e & [=])]].
    + split; [discriminate | intros [_ (o & e' & [=])]].
  - split; [discriminate | intros [[=] _]].
Qed.

Lemma initial_consistent ps : consistent (initial ps).
Proof. repeat split. Qed.

(** The whole loop, from the first draft on. *)
Lemma remediate_failure_bound max_retry fuel envs ns rc fc o st :
  0 <= max_retry ->
  remediate_failure_with max_retry fuel w envs ns rc fc = Some (o, st) ->
  consistent st /\
  Z.of_nat (executions st) <= max_retry + 1 /\
  match o with
  | Returned _ t => t = Z.of_nat (executions st)
  | ErrorValue => executions st = O
  | Raised _ => True
  end.
Proof.
  intros Hmax. unfold remediate_failure_with.
  destruct (inventory w) as [inv|e].
  - set (st0 := initial _).
    destruct (get_playbook_with_probing fuel w st0)
      as [[[code|e] st1]|] eqn:Hdraft; [| |discriminate].
    + destruct (consistent_draft _ _ _ _ Hdraft (initial_consistent _))
        as [H1 E1].
      destruct (execute_and_verify w code st1)
        as [[[[exec_status status] output]|e] st2] eqn:Hexec.
      * destruct (consistent_execute _ _ _ _ Hexec H1) as [H2 E2].
        intros Hrun.
        apply retry_loop_bound in Hrun;
          [|apply consistent_append, H2
           |unfold append; simpl in *; rewrite E2, E1; reflexivity
           |lia].
        destruct Hrun as (Hc & Hb & Ho). conjuncts; auto.
        destruct o; tauto.
      * destruct (consistent_execute _ _ _ _ Hexec H1) as [H2 E2].
        intros [= <- <-]. conjuncts; auto.
        rewrite E2, E1. simpl. lia.
    + destruct (consistent_draft _ _ _ _ Hdraft (initial_consistent _))
        as [H1 E1].
      intros [= <- <-]. conjuncts; auto. rewrite E1. simpl. lia.
  - intros [= <- <-]. conjuncts; [apply initial_consistent|simpl; lia|auto].
Qed.

(** With drafting calls that end, the retry loop ends within
    [max_retry] iterations. *)
Lemma retry_loop_returns fuel draft_fuel max_retry exec_status status
    try_time st :
  responsive w draft_fuel ->
  max_retry + 1 - try_time <= Z.of_nat fuel ->
  retry_loop fuel draft_fuel w max_retry exec_status status try_time st
  <> None.
Proof.
  intros Hresp. revert exec_status status try_time st.
  induction fuel as [|fuel IH]; intros exec_status status try_time st Hfuel;
    simpl; destruct (negb status && (try_time <=? max_retry)) eqn:Hcond;
    try discriminate.
  - apply andb_true_iff in Hcond as [_ Hcond]. apply Z.leb_le in Hcond. lia.
  - destruct (get_playbook_with_probing draft_fuel w
                (append (user (retry_prompt exec_status status)) st))
      as [[[code|e] st2]|] eqn:Hdraft.
    + destruct (execute_and_verify w code st2)
        as [[[[exec_status' status'] output]|e] st3]; [|discriminate].
      apply IH. lia.
    + discriminate.
    + exfalso. exact (Hresp _ Hdraft).
Qed.

Lemma remediate_failure_returns max_retry fuel envs ns rc fc :
  responsive w fuel -> max_retry <= Z.of_nat fuel ->
  remediate_failure_with max_retry fuel w envs ns rc fc <> None.
Proof.
  intros Hresp Hfuel. unfold remediate_failure_with.
  destruct (inventory w) as [inv|e]; [|discriminate].
  set (st0 := initial _).
  destruct (get_playbook_with_probing fuel w st0)
    as [[[code|e] st1]|] eqn:Hdraft.
  - destruct (execute_and_verify w code st1)
      as [[[[exec_status status] output]|e] st2]; [|discriminate].
    apply retry_loop_returns; [assumption | lia].
  - discriminate.
  - exfalso. exact (Hresp _ Hdraft).
Qed.

End Remediation.

Section RemediationClaims.
Import ExecutionAgent Coordinator.
Local Open Scope list_scope.

Lemma successes_le (w : world) (n : nat) : (successes w n <= n)%nat.
Proof.
  induction n as [|n IH]; simpl; [lia|].
  destruct (succeeded (executor w n)); lia.
Qed.

(** C6.  A run of the loop that returns has invoked the action executor
    at most [max_retry + 1] times (and the verification no more often),
    and the attempt count it returns is the number of these invocations;
    the run does return when every drafting call ends.  With
    [MAX_RETRY_TIME = 1] this is at most two invocations. *)
Theorem retry_bound (max_retry : Z) (fuel : nat) (w : world)
    (envs ns rc fc : string) :
  0 <= max_retry ->
  (forall o st,
      remediate_failure_with max_retry fuel w envs ns rc fc = Some (o, st) ->
      Z.of_nat (count_execute (trace st)) <= max_retry + 1 /\
      Z.of_nat (count_verify (trace st)) <= max_retry + 1 /\
      match o with
      | Returned _ try_time =>
          try_time = Z.of_nat (count_execute (trace st))
      | ErrorValue => count_execute (trace st) = O
      | Raised _ => True
      end) /\
  (responsive w fuel -> max_retry <= Z.of_nat fuel ->
   exists r, remediate_failure_with max_retry fuel w envs ns rc fc = Some r).
Proof.
  intros Hmax. split.
  - intros o st Hrun.
    destruct (remediate_failure_bound w _ _ _ _ _ _ _ _ Hmax Hrun)
      as ((Hv & Hcv & Hce) & Hb & Ho).
    rewrite Hcv, Hce, Hv. pose proof (successes_le w (executions st)).
    conjuncts; [lia | lia | exact Ho].
  - intros Hresp Hfuel.
    destruct (remediate_failure_with max_retry fuel w envs ns rc fc)
      as [r|] eqn:E; [eauto|].
    exfalso. revert E. now apply remediate_failure_returns.
Qed.

Lemma retry_bound_witness :
  exists o st,
    Fixtures.run_of Fixtures.stubborn = Some (o, st) /\
    Z.of_nat (count_execute (trace st)) <= 2.
Proof.
  destruct (retry_bound MAX_RETRY_TIME 3 Fixtures.stubborn
              "This microservice system runs on k3s."
              "default" "svc-a" "cpu-stress") as [Hsafe Hlive].
  { unfold MAX_RETRY_TIME. lia. }
  destruct Hlive as [[o st] Hrun].
  { intros st. simpl. discriminate. }
  { unfold MAX_RETRY_TIME. lia. }
  exists o, st. split; [exact Hrun|].
  destruct (Hsafe o st Hrun) as (H & _). exact H.
Defined.

(** C1, amended.  The executor reports success exactly when the playbook
    file was written and the child exited with status 0.  After an
    execution that reports success the loop waits [WAIT_REME_TIME] and
    invokes the verification, whose answer is the outcome of the attempt;
    after one that reports failure it invokes nothing more, and the
    attempt counts as failed.  Over a whole run the verification is
    invoked once per successful execution. *)
Theorem verification_follows_success (w : world) :
  (forall r,
      succeeded r = true <->
      write_ok r = true /\ exists out err, child r = Exited 0 out err) /\
  (forall playbook st,
      let r := executor w (executions st) in
      let res := execute_and_verify w playbook st in
      trace (snd res)
      = trace st ++ Execute playbook
          :: (if succeeded r then [Sleep WAIT_REME_TIME; Verify] else []) /\
      (succeeded r = true ->
       exists out,
         fst res = Ok (true, verify_status w (verifications st), out)) /\
      (succeeded r = false ->
       forall status verified out,
         fst res = Ok (status, verified, out) ->
         status = false /\ verified = false)) /\
  (forall max_retry fuel envs ns rc fc o st,
      0 <= max_retry ->
      remediate_failure_with max_retry fuel w envs ns rc fc = Some (o, st) ->
      count_verify (trace st) = successes w (count_execute (trace st))).
Proof.
  conjuncts.
  - apply succeeded_iff.
  - intros playbook st r res.
    split; [apply (execute_and_verify_trace w playbook st)|].
    subst res r. unfold execute_and_verify, succeeded.
    destruct (execute_playbook_and_get_response default_timeout
                (executor w (executions st))) as [[[|] output]|e]; simpl.
    + split; [eauto | discriminate].
    + split; [discriminate|]. intros _ ? ? ? [= <- <- _]. auto.
    + split; [discriminate|]. intros _ ? ? ? [=].
  - intros max_retry fuel envs ns rc fc o st Hmax Hrun.
    destruct (remediate_failure_bound w _ _ _ _ _ _ _ _ Hmax Hrun)
      as ((Hv & Hcv & Hce) & _).
    congruence.
Qed.

Lemma verification_follows_success_witness :
  (exists out,
      fst (execute_and_verify Fixtures.stubborn "- hosts: all" (initial []))
      = Ok (true, false, out)) /\
  (forall status verified out,
      fst (execute_and_verify Fixtures.failing "- hosts: all" (initial []))
      = Ok (status, verified, out) ->
      status = false /\ verified = false).
Proof.
  split.
  - refine (proj1 (proj2 (proj1 (proj2
              (verification_follows_success Fixtures.stubborn))
              "- hosts: all" (initial []))) _).
    vm_compute. reflexivity.
  - refine (proj2 (proj2 (proj1 (proj2
              (verification_follows_success Fixtures.failing))
              "- hosts: all" (initial []))) _).
    vm_compute. reflexivity.
Defined.

(** C1 as stated fails: when the playbook exits with a non-zero status,
    is killed on time-out, or cannot be started, the run executes twice
    and never verifies. *)
Lemma verification_skipped_after_failure :
  let traced (w : world) :=
    option_map (fun r => trace (snd r)) (Fixtures.run_of w) in
  let unverified :=
    Some [ChatApi; Execute "- hosts: all"; ChatApi; Execute "- hosts: all"] in
  succeeded (executor Fixtures.failing 0) = false /\
  succeeded (executor Fixtures.hanging 0) = false /\
  succeeded (executor Fixtures.missing 0) = false /\
  traced Fixtures.failing = unverified /\
  traced Fixtures.hanging = unverified /\
  traced Fixtures.missing = unverified.
Proof. cbv zeta. conjuncts; vm_compute; reflexivity. Qed.

End RemediationClaims.

(** ** The campaign loop *)

Section CampaignLoop.
Import Campaign.
Local Open Scope list_scope.

Lemma stops_app l1 l2 : stops (l1 ++ l2) = (stops l1 + stops l2)%nat.
Proof. unfold stops. now rewrite List.filter_app, List.length_app. Qed.

Lemma restores_app l1 l2 :
  restores (l1 ++ l2) = (restores l1 + restores l2)%nat.
Proof. unfold restores. now rewrite List.filter_app, List.length_app. Qed.

(** The wait loop neither remediates, nor stops the injection, nor
    restores. *)
Lemma waiting_quiet evs :
  List.Forall waiting evs ->
  stops evs = O /\ restores evs = O /\
  List.existsb is_remediate evs = false.
Proof.
  induction 1 as [|e evs He _ IH]; [auto|].
  destruct IH as (Hs & Hr & Hm).
  unfold stops, restores in *. simpl.
  destruct e; simpl in *; try contradiction; auto.
Qed.

Lemma await_events fuel a x failure_type target_pod deploys ps evs f :
  await_injection fuel a x failure_type target_pod deploys ps
    = Some (evs, f) ->
  List.Forall waiting evs.
Proof.
  revert deploys ps evs f.
  induction fuel as [|fuel IH]; intros deploys ps evs f; simpl;
    [discriminate|].
  destruct ps as [|[[|]|e] rest].
  - destruct (enable_strict_restart a).
    + destruct (deploy_env (redeploy x deploys)).
      * destruct (await_injection fuel a x failure_type target_pod
                    (S deploys) []) as [[evs0 f0]|] eqn:E; [|discriminate].
        intros [= <- <-]. constructor; [exact I | eapply IH, E].
      * intros [= <- <-]. repeat constructor.
      * intros [= <- <-]. repeat constructor.
    + intros [= <- <-]. constructor.
  - destruct (await_injection fuel a x failure_type target_pod deploys rest)
      as [[evs0 f0]|] eqn:E; [|discriminate].
    intros [= <- <-]. repeat (constructor; [exact I|]). eapply IH, E.
  - intros [= <- <-]. repeat constructor.
  - intros [= <- <-]. repeat constructor.
Qed.

(** With redeploys that succeed and polls that return, the wait loop ends
    by returning. *)
Lemma await_returns fuel a x failure_type target_pod deploys ps evs f :
  (forall k, deploy_code (redeploy x k) = 0) ->
  List.forallb is_ok ps = true ->
  await_injection fuel a x failure_type target_pod deploys ps
    = Some (evs, f) ->
  exists injected, f = Return injected.
Proof.
  intros Hdeploy. revert deploys ps evs f.
  induction fuel as [|fuel IH]; intros deploys ps evs f Hps; simpl;
    [discriminate|].
  destruct ps as [|[[|]|e] rest]; simpl in Hps; try discriminate.
  - destruct (enable_strict_restart a).
    + unfold deploy_env. rewrite Hdeploy. simpl.
      destruct (await_injection fuel a x failure_type target_pod
                  (S deploys) []) as [[evs0 f0]|] eqn:E; [|discriminate].
      intros [= <- <-]. eapply (IH _ []); [reflexivity | exact E].
    + intros [= <- <-]. eauto.
  - destruct (await_injection fuel a x failure_type target_pod deploys rest)
      as [[evs0 f0]|] eqn:E; [|discriminate].
    intros [= <- <-]. eapply IH; [exact Hps | exact E].
  - intros [= <- <-]. eauto.
Qed.

(** The remediation phase after a transcript, call by call. *)
Lemma remediation_phase_returned a x failure_type target_pod c
    conversations try_time :
  remediate (remediate_method a) (remediation x)
  = Coordinator.Returned conversations try_time ->
  remediation_phase a x failure_type target_pod c
  = match final_check x with
    | Raise e =>
        ([Remediate failure_type target_pod;
          CheckFinal failure_type target_pod], Exception e)
    | Ok success =>
        let saving :=
          [Remediate failure_type target_pod;
           CheckFinal failure_type target_pod;
           SaveConversation success try_time] in
        match saved x with
        | Raise e => (saving, Exception e)
        | Ok _ =>
            match stopped x with
            | Raise e =>
                (saving ++ [StopInjection failure_type], Exception e)
            | Ok _ =>
                match restored x with
                | Raise e =>
                    (saving ++ [StopInjection failure_type;
                                RestoreByOriginalManifest target_pod],
                     Exception e)
                | Ok _ =>
                    (saving ++ [StopInjection failure_type;
                                RestoreByOriginalManifest target_pod;
                                Wait 5],
                     Return (record failure_type success try_time
                               (estimate_token_count (json_length x)
                                  conversations) c))
                end
            end
        end
    end.
Proof.
  intros Hrem. unfold remediation_phase, invoke. rewrite Hrem.
  destruct (final_check x), (saved x), (stopped x), (restored x);
    reflexivity.
Qed.

(** The passes that reach the remediation phase. *)
Lemma pass_remediates fuel a x c evs f :
  pass fuel a x c = Some (evs, f) ->
  reaches_remediation evs ->
  exists pre,
    List.Forall waiting pre /\
    let '(evs', f') :=
      remediation_phase a x (failure_type_of a x c) (random_service x) c in
    evs = [CheckHealthy (random_service x);
           InjectFailure (failure_type_of a x c) (random_service x)]
          ++ pre ++ evs' /\
    f = f'.
Proof.
  unfold pass, reaches_remediation.
  destruct (healthy x) as [[|]|e0].
  2: { intros [= <- <-]. simpl. discriminate. }
  2: { intros [= <- <-]. simpl. discriminate. }
  destruct (inject_failure (failure_type_of a x c) (injected_by x))
    as [[|]|e].
  - destruct (await_injection fuel a x (failure_type_of a x c)
                (random_service x) 0 (polls x)) as [[pre f0]|] eqn:E;
      [|discriminate].
    pose proof (await_events _ _ _ _ _ _ _ _ _ E) as Hpre.
    destruct (waiting_quiet pre Hpre) as (_ & _ & Hm).
    destruct f0 as [[|]|code|e].
    + destruct (remediation_phase a x (failure_type_of a x c)
                  (random_service x) c) as [evs' f'] eqn:Hphase.
      intros [= <- <-] _. exists pre. split; [assumption|].
      split; reflexivity.
    + intros [= <- <-]. simpl.
      rewrite List.existsb_app, Hm. simpl. discriminate.
    + intros [= <- <-]. simpl. rewrite Hm. discriminate.
    + intros [= <- <-]. simpl. rewrite Hm. discriminate.
  - intros [= <- <-]. simpl. discriminate.
  - intros [= <- <-]. simpl. discriminate.
Qed.

(** The calls of a pass up to a point of the remediation phase, the wait
    loop included, neither stop the injection nor restore. *)
Lemma lead_quiet (e1 e2 : event) (pre mid : list event) :
  is_stop e1 = false -> is_restore e1 = false ->
  is_stop e2 = false -> is_restore e2 = false ->
  List.Forall waiting pre ->
  stops mid = O -> restores mid = O ->
  stops ([e1; e2] ++ pre ++ mid) = O /\
  restores ([e1; e2] ++ pre ++ mid) = O.
Proof.
  intros H1 H1' H2 H2' Hpre Hs Hr.
  destruct (waiting_quiet pre Hpre) as (Hs' & Hr' & _).
  rewrite !stops_app, !restores_app, Hs, Hr, Hs', Hr'.
  unfold stops, restores. cbn [List.filter].
  rewrite H1, H1', H2, H2'. split; reflexivity.
Qed.

Lemma ends_with_intro (e1 e2 : event) (pre mid last : list event) :
  is_stop e1 = false -> is_restore e1 = false ->
  is_stop e2 = false -> is_restore e2 = false ->
  List.Forall waiting pre ->
  stops mid = O -> restores mid = O ->
  ends_with ([e1; e2] ++ pre ++ mid ++ last) last.
Proof.
  intros H1 H1' H2 H2' Hpre Hs Hr.
  exists ([e1; e2] ++ pre ++ mid). split.
  - rewrite <- !List.app_assoc. reflexivity.
  - apply lead_quiet; assumption.
Qed.

Lemma ends_with_counts evs last :
  ends_with evs last ->
  stops evs = stops last /\ restores evs = restores last.
Proof.
  intros (before & -> & Hs & Hr).
  rewrite stops_app, restores_app, Hs, Hr. split; reflexivity.
Qed.

(** What a pass that reaches the remediation phase does, by the call that
    ends it. *)
Lemma pass_remediation_cases fuel a x c evs f :
  pass fuel a x c = Some (evs, f) ->
  reaches_remediation evs ->
  let failure_type := failure_type_of a x c in
  let target_pod := random_service x in
  match remediate (remediate_method a) (remediation x) with
  | Coordinator.Raised e => f = Exception e /\ ends_with evs []
  | Coordinator.ErrorValue => f = Exception TypeError /\ ends_with evs []
  | Coordinator.Returned conversations try_time =>
      match final_check x with
      | Raise e => f = Exception e /\ ends_with evs []
      | Ok success =>
          match saved x with
          | Raise e => f = Exception e /\ ends_with evs []
          | Ok _ =>
              match stopped x with
              | Raise e =>
                  f = Exception e /\
                  ends_with evs [StopInjection failure_type]
              | Ok _ =>
                  match restored x with
                  | Raise e =>
                      f = Exception e /\
                      ends_with evs
                        [StopInjection failure_type;
                         RestoreByOriginalManifest target_pod]
                  | Ok _ =>
                      f = Return (record failure_type success try_time
                                    (estimate_token_count (json_length x)
                                       conversations) c) /\
                      ends_with evs
                        [StopInjection failure_type;
                         RestoreByOriginalManifest target_pod;
                         Wait 5]
                  end
              end
          end
      end
  end.
Proof.
  intros Hpass Hreach. cbv zeta.
  destruct (pass_remediates _ _ _ _ _ _ Hpass Hreach) as (pre & Hpre & H).
  destruct (remediate (remediate_method a) (remediation x))
    as [conversations try_time| |e] eqn:Hrem.
  - rewrite (remediation_phase_returned _ _ _ _ _ _ _ Hrem) in H.
    destruct (final_check x) as [success|e1];
      [destruct (saved x) as [[]|e2];
       [destruct (stopped x) as [[]|e3];
        [destruct (restored x) as [b|e4]|]|]|];
      cbv zeta in H; destruct H as [-> ->]; (split; [reflexivity|]).
    + apply (ends_with_intro _ _ pre [_; _; _] [_; _; _]);
        try reflexivity; assumption.
    + apply (ends_with_intro _ _ pre [_; _; _] [_; _]);
        try reflexivity; assumption.
    + apply (ends_with_intro _ _ pre [_; _; _] [_]);
        try reflexivity; assumption.
    + rewrite <- (List.app_nil_r [_; _; _]).
      apply (ends_with_intro _ _ pre [_; _; _] []);
        try reflexivity; assumption.
    + rewrite <- (List.app_nil_r [_; _]).
      apply (ends_with_intro _ _ pre [_; _] []);
        try reflexivity; assumption.
  - unfold remediation_phase in H. rewrite Hrem in H.
    destruct H as [-> ->]. split; [reflexivity|].
    rewrite <- (List.app_nil_r [_]).
    apply (ends_with_intro _ _ pre [_] []); try reflexivity; assumption.
  - unfold remediation_phase in H. rewrite Hrem in H.
    destruct H as [-> ->]. split; [reflexivity|].
    rewrite <- (List.app_nil_r [_]).
    apply (ends_with_intro _ _ pre [_] []); try reflexivity; assumption.
Qed.

(** C2, amended.  In a pass that reaches the remediation phase,
    [stop_injection] and [restore_by_original_manifest] are each invoked
    at most once, and the second only when the first has been.  A pass
    that advances to the next experiment has invoked each exactly once, in
    that order, as its last calls before the pause that ends it.  When the
    remediation call returns a transcript and the final check and
    [_save_conversation] return, whatever the check answers,
    [stop_injection] is invoked exactly once; when it returns,
    [restore_by_original_manifest] is invoked exactly once, and the pass
    advances when that call returns, whatever it returns; an exception of
    [stop_injection] leaves the pass before the restoration, and an
    exception of [restore_by_original_manifest] leaves it after the one
    invocation of each.  When the remediation call, the final check or
    [_save_conversation] raises, the exception leaves the pass and neither
    is invoked. *)
Theorem restore_once_after_remediation fuel a x c evs f :
  pass fuel a x c = Some (evs, f) ->
  reaches_remediation evs ->
  ((stops evs <= 1)%nat /\ (restores evs <= stops evs)%nat) /\
  (forall c',
      f = Return c' ->
      stops evs = 1%nat /\ restores evs = 1%nat /\
      ends_with evs [StopInjection (failure_type_of a x c);
                     RestoreByOriginalManifest (random_service x);
                     Wait 5] /\
      current_experiment_no c' = current_experiment_no c + 1) /\
  (forall conversation try_time,
      remediate (remediate_method a) (remediation x)
      = Coordinator.Returned conversation try_time ->
      is_ok (final_check x) = true ->
      is_ok (saved x) = true ->
      stops evs = 1%nat /\
      (forall e,
          stopped x = Raise e ->
          restores evs = O /\ f = Exception e /\
          ends_with evs [StopInjection (failure_type_of a x c)]) /\
      (is_ok (stopped x) = true ->
       restores evs = 1%nat /\
       (forall e,
           restored x = Raise e ->
           f = Exception e /\
           ends_with evs [StopInjection (failure_type_of a x c);
                          RestoreByOriginalManifest (random_service x)]) /\
       (forall restored_ok,
           restored x = Ok restored_ok ->
           ends_with evs [StopInjection (failure_type_of a x c);
                          RestoreByOriginalManifest (random_service x);
                          Wait 5] /\
           exists c',
             f = Return c' /\
             current_experiment_no c' = current_experiment_no c + 1))) /\
  (forall e,
      remediate (remediate_method a) (remediation x) = Coordinator.Raised e \/
      (exists conversation try_time,
          remediate (remediate_method a) (remediation x)
          = Coordinator.Returned conversation try_time /\
          (final_check x = Raise e \/
           is_ok (final_check x) = true /\ saved x = Raise e)) ->
      stops evs = O /\ restores evs = O /\ f = Exception e).
Proof.
  intros Hpass Hreach.
  pose proof (pass_remediation_cases _ _ _ _ _ _ Hpass Hreach) as H.
  cbv zeta in H.
  destruct (remediate (remediate_method a) (remediation x))
    as [conversations0 try_time0| |e0];
    [destruct (final_check x) as [success|e1];
     [destruct (saved x) as [[]|e2];
      [destruct (stopped x) as [[]|e3];
       [destruct (restored x) as [b|e4]|]|]|]| |];
    destruct H as [-> Hends];
    destruct (ends_with_counts _ _ Hends) as [Hs Hr];
    rewrite Hs, Hr; unfold stops, restores; cbn [List.filter is_stop
      is_restore length];
    (split; [split; lia|]);
    (split; [intros c' Hc'; try discriminate Hc'|]).
  - injection Hc' as <-. repeat split; try reflexivity. exact Hends.
  - split.
    + intros conversation try_time _ _ _. split; [reflexivity|].
      split; [intros e He; discriminate He|].
      intros _. split; [reflexivity|].
      split; [intros e He; discriminate He|].
      intros restored_ok _. split; [exact Hends|].
      eexists. split; reflexivity.
    + intros e [He|(conversation & t & _ & [He|[_ He]])]; discriminate He.
  - split.
    + intros conversation try_time _ _ _. split; [reflexivity|].
      split; [intros e He; discriminate He|].
      intros _. split; [reflexivity|].
      split; [|intros restored_ok He; discriminate He].
      intros e He. injection He as <-. split; [reflexivity | exact Hends].
    + intros e [He|(conversation & t & _ & [He|[_ He]])]; discriminate He.
  - split.
    + intros conversation try_time _ _ _. split; [reflexivity|].
      split; [|intros He; discriminate He].
      intros e He. injection He as <-.
      split; [reflexivity|]. split; [reflexivity | exact Hends].
    + intros e [He|(conversation & t & _ & [He|[_ He]])]; discriminate He.
  - split.
    + intros conversation try_time _ _ He. discriminate He.
    + intros e [He|(conversation & t & _ & [He|[_ He]])];
        try discriminate He.
      injection He as <-. repeat split; reflexivity.
  - split.
    + intros conversation try_time _ He. discriminate He.
    + intros e [He|(conversation & t & _ & [He|[He _]])];
        try discriminate He.
      injection He as <-. repeat split; reflexivity.
  - split.
    + intros conversation try_time He. discriminate He.
    + intros e [He|(conversation & t & He & _)]; discriminate He.
  - split.
    + intros conversation try_time He. discriminate He.
    + intros e [He|(conversation & t & He & _)]; [|discriminate He].
      injection He as <-. repeat split; reflexivity.
Qed.

Lemma restore_once_after_remediation_witness :
  (exists evs c',
      pass 8 Fixtures.two_slots Scenarios.restore_fails start
      = Some (evs, Return c') /\
      stops evs = 1%nat /\ restores evs = 1%nat) /\
  (exists evs,
      pass 8 Fixtures.two_slots Scenarios.manifest_missing start
      = Some (evs, Exception FileNotFoundError) /\
      stops evs = 1%nat /\ restores evs = 1%nat).
Proof.
  split.
  - destruct (pass 8 Fixtures.two_slots Scenarios.restore_fails start)
      as [[evs f]|] eqn:E; [|vm_compute in E; discriminate].
    destruct (restore_once_after_remediation _ _ _ _ _ _ E)
      as (_ & _ & H & _).
    { vm_compute in E. injection E as <- <-. vm_compute. reflexivity. }
    destruct (H [] 1) as (Hs & _ & Hstopped);
      [vm_compute; reflexivity | reflexivity | reflexivity |].
    destruct (Hstopped eq_refl) as (Hr & _ & Hret).
    destruct (Hret false) as (_ & c' & -> & _); [vm_compute; reflexivity|].
    exists evs, c'. split; [reflexivity|]. split; assumption.
  - destruct (pass 8 Fixtures.two_slots Scenarios.manifest_missing start)
      as [[evs f]|] eqn:E; [|vm_compute in E; discriminate].
    destruct (restore_once_after_remediation _ _ _ _ _ _ E)
      as (_ & _ & H & _).
    { vm_compute in E. injection E as <- <-. vm_compute. reflexivity. }
    destruct (H [] 1) as (Hs & _ & Hstopped);
      [vm_compute; reflexivity | reflexivity | reflexivity |].
    destruct (Hstopped eq_refl) as (Hr & Hraise & _).
    destruct (Hraise FileNotFoundError) as (-> & _);
      [vm_compute; reflexivity|].
    exists evs. split; [reflexivity|]. split; assumption.
Defined.

(** C2 as stated fails: when the remediation call raises, or returns
    its error value, the campaign ends in the first pass without
    stopping the injection or restoring the target, and the second slot
    is never run. *)
Lemma restore_skipped_when_remediation_fails :
  let crashed (x : experiment) (e : exn) :=
    Fixtures.campaign [x; Fixtures.remediated]
    = ([[CheckHealthy "svc-a"; InjectFailure "cpu-stress" "svc-a";
         CheckInjected "cpu-stress" "svc-a";
         Remediate "cpu-stress" "svc-a"]], 1, Crashed e) in
  crashed Fixtures.remediation_raises RuntimeError /\
  crashed Fixtures.remediation_error_value TypeError /\
  stops [CheckHealthy "svc-a"; InjectFailure "cpu-stress" "svc-a";
         CheckInjected "cpu-stress" "svc-a";
         Remediate "cpu-stress" "svc-a"] = O /\
  restores [CheckHealthy "svc-a"; InjectFailure "cpu-stress" "svc-a";
            CheckInjected "cpu-stress" "svc-a";
            Remediate "cpu-stress" "svc-a"] = O.
Proof. cbv zeta. conjuncts; vm_compute; reflexivity. Qed.

(** A pass whose collaborators fail only in absorbed ways returns, and
    either repeats the slot or moves to the next. *)
Lemma pass_absorbed fuel a x c evs f :
  pass fuel a x c = Some (evs, f) ->
  absorbed a x c ->
  exists c',
    f = Return c' /\ proceeds c c' /\
    (healthy x = Ok true ->
     current_experiment_no c' = current_experiment_no c + 1).
Proof.
  intros Hpass (Hdeploy & Hhealthy & Hinject & Hpolls & Hfinal & Hsaved
                & Hstopped & Hrestored & conversation & try_time & Hrem).
  revert Hpass. unfold pass, proceeds.
  destruct (healthy x) as [[|]|e0]; [| |discriminate Hhealthy].
  2: { unfold deploy_env. rewrite Hdeploy. simpl.
       intros [= <- <-]. eexists. split; [reflexivity|].
       split; [left; reflexivity | discriminate]. }
  destruct (inject_failure (failure_type_of a x c) (injected_by x))
    as [[|]|e]; [| |discriminate].
  - destruct (await_injection fuel a x (failure_type_of a x c)
                (random_service x) 0 (polls x)) as [[pre f0]|] eqn:E;
      [|discriminate].
    destruct (await_returns _ _ _ _ _ _ _ _ _ Hdeploy Hpolls E) as [[|] ->].
    + rewrite (remediation_phase_returned _ _ _ _ _ _ _ Hrem).
      destruct (final_check x) as [success|]; [|discriminate].
      destruct (saved x) as [[]|]; [|discriminate].
      destruct (stopped x) as [[]|]; [|discriminate].
      destruct (restored x) as [b|]; [|discriminate].
      intros [= <- <-]. eexists. split; [reflexivity|].
      split; [right; reflexivity | reflexivity].
    + destruct (stopped x) as [[]|]; [|discriminate].
      intros [= <- <-]. eexists. split; [reflexivity|].
      split; [right; reflexivity | reflexivity].
  - intros [= <- <-]. eexists. split; [reflexivity|].
    split; [right; reflexivity | reflexivity].
Qed.

Lemma run_survives fuel a script c :
  (forall x c0, In x script -> absorbed a x c0) ->
  survived (snd (run_experiments fuel a script c)).
Proof.
  revert c. induction script as [|x rest IH]; intros c Habs; simpl.
  - destruct (current_experiment_no c <=? total_experiments a); exact I.
  - destruct (current_experiment_no c <=? total_experiments a); [|exact I].
    destruct (pass fuel a x c) as [[evs f]|] eqn:Hpass; [|exact I].
    destruct (pass_absorbed _ _ _ _ _ _ Hpass (Habs x c (or_introl eq_refl)))
      as (c' & -> & _).
    specialize (IH c' (fun y c0 Hy => Habs y c0 (or_intror Hy))).
    destruct (run_experiments fuel a rest c') as [[log c''] e].
    exact IH.
Qed.

(** Without strict restart the wait loop ends: with the poll that sees the
    failure, with the poll that raises, or at the injection time-out. *)
Lemma await_ends fuel a x failure_type target_pod deploys ps :
  enable_strict_restart a = false ->
  (length ps < fuel)%nat ->
  await_injection fuel a x failure_type target_pod deploys ps <> None.
Proof.
  intros Hstrict. revert ps.
  induction fuel as [|fuel IH]; intros ps Hfuel; simpl; [lia|].
  destruct ps as [|[[|]|e] rest]; [rewrite Hstrict| | |]; try discriminate.
  specialize (IH rest). simpl in Hfuel.
  destruct (await_injection fuel a x failure_type target_pod deploys rest)
    as [[evs f]|]; [discriminate|].
  exfalso. apply IH; [lia | reflexivity].
Qed.

Lemma pass_ends fuel a x c :
  enable_strict_restart a = false ->
  (length (polls x) < fuel)%nat ->
  pass fuel a x c <> None.
Proof.
  intros Hstrict Hfuel. unfold pass.
  destruct (healthy x) as [[|]|e0]; try discriminate.
  destruct (inject_failure (failure_type_of a x c) (injected_by x))
    as [[|]|e]; try discriminate.
  pose proof (await_ends fuel a x (failure_type_of a x c) (random_service x)
                0 (polls x) Hstrict Hfuel) as Hend.
  destruct (await_injection fuel a x (failure_type_of a x c)
              (random_service x) 0 (polls x)) as [[evs f]|]; [|contradiction].
  destruct f as [[|]|code|e]; try discriminate.
  destruct (remediation_phase a x (failure_type_of a x c)
              (random_service x) c). discriminate.
Qed.

(** Without strict restart, a campaign of absorbed passes on healthy
    targets runs every slot when its script has a pass for each. *)
Lemma run_completes fuel a script c :
  enable_strict_restart a = false ->
  (forall x, In x script ->
             (length (polls x) < fuel)%nat /\ healthy x = Ok true) ->
  (forall x c0, In x script -> absorbed a x c0) ->
  total_experiments a - current_experiment_no c < Z.of_nat (length script) ->
  snd (run_experiments fuel a script c) = Completed.
Proof.
  intros Hstrict. revert c.
  induction script as [|x rest IH]; intros c Hx Habs Hlen;
    cbn [run_experiments].
  - cbn [length] in Hlen.
    destruct (Z.leb_spec (current_experiment_no c) (total_experiments a));
      [lia | reflexivity].
  - destruct (Z.leb_spec (current_experiment_no c) (total_experiments a));
      [|reflexivity].
    destruct (Hx x (or_introl eq_refl)) as [Hfuel Hhealthy].
    destruct (pass fuel a x c) as [[evs f]|] eqn:Hpass;
      [|exfalso; revert Hpass; now apply pass_ends].
    destruct (pass_absorbed _ _ _ _ _ _ Hpass (Habs x c (or_introl eq_refl)))
      as (c' & -> & _ & Hnext).
    specialize (Hnext Hhealthy).
    specialize (IH c' (fun y Hy => Hx y (or_intror Hy))
                  (fun y c0 Hy => Habs y c0 (or_intror Hy))).
    destruct (run_experiments fuel a rest c') as [[log c''] e].
    apply IH. cbn [length] in Hlen. lia.
Qed.

(** C3, amended.  A pass of the campaign loop returns, leaving the slot
    to be tried again or moving to the next one, whenever every redeploy
    script succeeds, every call of the pass returns and the remediation
    call returns a transcript: whatever [inject_failure] answers, whether
    the failure shows before the injection time-out, whatever the final
    check answers and whether [restore_by_original_manifest] returns
    [True] or [False]; without strict restart the pass does end.  A
    campaign of such passes is not terminated, and without strict restart
    and with healthy targets it runs every slot.  A redeploy whose script
    fails exits the process with status 1; a missing chaos template, a
    health check that raises and a restoration that raises leave the pass
    as an exception; and a pass that exits or raises ends the campaign:
    no further pass is run. *)
Theorem campaign_absorbs_reported_failures (fuel : nat) (a : args) :
  (forall x c evs f,
      pass fuel a x c = Some (evs, f) ->
      absorbed a x c ->
      exists c', f = Return c' /\ proceeds c c') /\
  (forall x c,
      enable_strict_restart a = false ->
      (length (polls x) < fuel)%nat ->
      absorbed a x c ->
      exists evs c', pass fuel a x c = Some (evs, Return c') /\
                     proceeds c c') /\
  (forall script c,
      (forall x c0, In x script -> absorbed a x c0) ->
      survived (snd (run_experiments fuel a script c))) /\
  (forall script c,
      enable_strict_restart a = false ->
      (forall x, In x script ->
                 (length (polls x) < fuel)%nat /\ healthy x = Ok true) ->
      (forall x c0, In x script -> absorbed a x c0) ->
      total_experiments a - current_experiment_no c
        < Z.of_nat (length script) ->
      snd (run_experiments fuel a script c) = Completed) /\
  (forall x c,
      healthy x = Ok false ->
      deploy_code (redeploy x 0) <> 0 ->
      pass fuel a x c
      = Some ([CheckHealthy (random_service x); DeployEnv], SystemExit 1)) /\
  (forall x c,
      healthy x = Ok true ->
      failure_type_of a x c <> "pod-config-error" ->
      template_exists (injected_by x) = false ->
      pass fuel a x c
      = Some ([CheckHealthy (random_service x);
               InjectFailure (failure_type_of a x c) (random_service x)],
              Exception FileNotFoundError)) /\
  (forall x c e,
      healthy x = Raise e ->
      pass fuel a x c
      = Some ([CheckHealthy (random_service x)], Exception e)) /\
  (forall x c evs f e,
      pass fuel a x c = Some (evs, f) ->
      reaches_remediation evs ->
      (exists conversation try_time,
          remediate (remediate_method a) (remediation x)
          = Coordinator.Returned conversation try_time) ->
      is_ok (final_check x) = true ->
      is_ok (saved x) = true ->
      is_ok (stopped x) = true ->
      restored x = Raise e ->
      f = Exception e) /\
  (forall x rest c evs,
      current_experiment_no c <= total_experiments a ->
      (forall e,
          pass fuel a x c = Some (evs, Exception e) ->
          run_experiments fuel a (x :: rest) c = ([evs], c, Crashed e)) /\
      (forall code,
          pass fuel a x c = Some (evs, SystemExit code) ->
          run_experiments fuel a (x :: rest) c = ([evs], c, Exited code))).
Proof.
  conjuncts.
  - intros x c evs f Hpass Habs.
    destruct (pass_absorbed _ _ _ _ _ _ Hpass Habs) as (c' & Hf & Hc' & _).
    eauto.
  - intros x c Hstrict Hfuel Habs.
    destruct (pass fuel a x c) as [[evs f]|] eqn:Hpass.
    + destruct (pass_absorbed _ _ _ _ _ _ Hpass Habs)
        as (c' & -> & Hc' & _).
      eauto.
    + exfalso. revert Hpass. now apply pass_ends.
  - intros script c. apply run_survives.
  - intros script c. apply run_completes.
  - intros x c Hh Hd. unfold pass, deploy_env. rewrite Hh. simpl.
    destruct (Z.eqb_spec (deploy_code (redeploy x 0)) 0);
      [contradiction | reflexivity].
  - intros x c Hh Hft Ht. unfold pass, inject_failure. rewrite Hh.
    destruct (String.eqb_spec (failure_type_of a x c) "pod-config-error");
      [contradiction|].
    rewrite Ht. reflexivity.
  - intros x c e Hh. unfold pass. rewrite Hh. reflexivity.
  - intros x c evs f e Hpass Hreach (conversation & try_time & Hrem)
      Hfinal Hsaved Hstopped Hrestored.
    pose proof (pass_remediation_cases _ _ _ _ _ _ Hpass Hreach) as H.
    cbv zeta in H. rewrite Hrem, Hrestored in H.
    destruct (final_check x); [|discriminate].
    destruct (saved x) as [[]|]; [|discriminate].
    destruct (stopped x) as [[]|]; [|discriminate].
    exact (proj1 H).
  - intros x rest c evs Hle.
    split; [intros e Hpass | intros code Hpass]; cbn [run_experiments];
      rewrite Hpass;
      (destruct (Z.leb_spec (current_experiment_no c) (total_experiments a));
       [reflexivity | lia]).
Qed.

Lemma campaign_absorbs_reported_failures_witness :
  survived
    (snd (run_experiments 8 Fixtures.two_slots
            [Fixtures.injection_rejected; Fixtures.injection_unseen;
             Fixtures.not_remediated] start)) /\
  snd (run_experiments 8 Fixtures.two_slots
         [Fixtures.injection_unseen; Scenarios.restore_fails] start)
  = Completed /\
  pass 8 Fixtures.two_slots Fixtures.redeploy_fails start
  = Some ([CheckHealthy "svc-a"; DeployEnv], SystemExit 1) /\
  pass 8 Fixtures.two_slots Fixtures.template_missing start
  = Some ([CheckHealthy "svc-a"; InjectFailure "cpu-stress" "svc-a"],
          Exception FileNotFoundError) /\
  pass 8 Fixtures.two_slots Scenarios.check_raises start
  = Some ([CheckHealthy "svc-a"], Exception FileNotFoundError) /\
  (exists evs,
      pass 8 Fixtures.two_slots Scenarios.manifest_missing start
      = Some (evs, Exception FileNotFoundError) /\
      run_experiments 8 Fixtures.two_slots
        [Scenarios.manifest_missing; Fixtures.remediated] start
      = ([evs], start, Crashed FileNotFoundError)).
Proof.
  pose proof (campaign_absorbs_reported_failures 8 Fixtures.two_slots)
    as (_ & _ & Hrun & Hall & Hexit & Hraise & Hcheck & Hrestore & Hend).
  assert (Habs : forall x c0,
             In x [Fixtures.injection_rejected; Fixtures.injection_unseen;
                   Fixtures.not_remediated; Scenarios.restore_fails] ->
             absorbed Fixtures.two_slots x c0).
  { intros x c0 [<-|[<-|[<-|[<-|[]]]]];
      (unfold absorbed; conjuncts;
       [ intros k; reflexivity
       | vm_compute; reflexivity ..
       | eexists _, _; vm_compute; reflexivity ]). }
  conjuncts.
  - apply Hrun. intros x c0 [<-|[<-|[<-|[]]]]; apply Habs; simpl; auto.
  - apply Hall.
    + reflexivity.
    + intros x [<-|[<-|[]]]; split; vm_compute; try reflexivity; lia.
    + intros x c0 [<-|[<-|[]]]; apply Habs; simpl; auto.
    + vm_compute. reflexivity.
  - apply (Hexit Fixtures.redeploy_fails start); vm_compute;
      [reflexivity | discriminate].
  - apply (Hraise Fixtures.template_missing start); vm_compute;
      [reflexivity | discriminate | reflexivity].
  - apply (Hcheck Scenarios.check_raises start). vm_compute. reflexivity.
  - destruct (pass 8 Fixtures.two_slots Scenarios.manifest_missing start)
      as [[evs f]|] eqn:E; [|vm_compute in E; discriminate].
    assert (Hf : f = Exception FileNotFoundError).
    { apply (Hrestore Scenarios.manifest_missing start evs f
               FileNotFoundError E).
      - vm_compute in E. injection E as <- _. vm_compute. reflexivity.
      - eexists _, _. vm_compute. reflexivity.
      - reflexivity.
      - reflexivity.
      - reflexivity.
      - vm_compute. reflexivity. }
    subst f. exists evs. split; [reflexivity|].
    destruct (Hend Scenarios.manifest_missing [Fixtures.remediated] start evs)
      as [Hcrash _]; [vm_compute; discriminate|].
    apply Hcrash. exact E.
Defined.

(** C3 as stated fails: a redeploy whose script fails ends the process
    in the first pass, and a missing chaos template, or a manifest
    missing at the restoration, ends the campaign with an exception; in
    every case the second slot is never run. *)
Lemma campaign_terminated_by_redeploy_failure :
  Fixtures.campaign [Fixtures.redeploy_fails; Fixtures.remediated]
  = ([[CheckHealthy "svc-a"; DeployEnv]], 1, Exited 1) /\
  Fixtures.campaign [Fixtures.template_missing; Fixtures.remediated]
  = ([[CheckHealthy "svc-a"; InjectFailure "cpu-stress" "svc-a"]], 1,
     Crashed FileNotFoundError) /\
  Fixtures.campaign [Scenarios.manifest_missing; Fixtures.remediated]
  = ([[CheckHealthy "svc-a"; InjectFailure "cpu-stress" "svc-a";
       CheckInjected "cpu-stress" "svc-a"; Remediate "cpu-stress" "svc-a";
       CheckFinal "cpu-stress" "svc-a"; SaveConversation true 1;
       StopInjection "cpu-stress"; RestoreByOriginalManifest "svc-a"]], 1,
     Crashed FileNotFoundError) /\
  Campaign.deploy_env Fixtures.deploy_failed = SystemExit 1.
Proof. conjuncts; vm_compute; reflexivity. Qed.

End CampaignLoop.

(** ** Readiness of pods and the dispatcher of the recovery oracle *)

Section Readiness.
Import PyStr CheckStatus Cluster Recovery.
Local Open Scope list_scope.

Lemma ready_conditions_iff (cs : list condition) :
  ready_conditions cs = true <->
  forall c, In c cs -> cond_type c = "Ready" -> cond_status c = "True".
Proof.
  induction cs as [|c rest IH]; simpl.
  - split; [intros _ c [] | reflexivity].
  - destruct (String.eqb_spec (cond_type c) "Ready") as [Ht|Ht]; simpl.
    + destruct (String.eqb_spec (cond_status c) "True") as [Hs|Hs]; simpl.
      * rewrite IH. split.
        -- intros H c' [<-|Hin]; auto.
        -- intros H c' Hin. apply H. right. assumption.
      * split; [discriminate|].
        intros H. exfalso. apply Hs, (H c); auto.
    + rewrite IH. split.
      * intros H c' [<-|Hin]; [contradiction | auto].
      * intros H c' Hin. apply H. right. assumption.
Qed.

(** X1.  A pod counts as running and ready exactly when it is not being
    deleted, its phase is [Running], and no condition of type [Ready] has
    a status other than [True]: a pod without conditions, or without a
    [Ready] condition, counts as ready. *)
Theorem running_and_ready_iff (p : pod) :
  check_pod_running_and_ready p = true <->
  deletion_timestamp p = None /\
  phase p = Some "Running" /\
  forall c, In c (default [] (conditions p)) ->
            cond_type c = "Ready" -> cond_status c = "True".
Proof.
  unfold check_pod_running_and_ready, is_running.
  destruct (deletion_timestamp p) as [t|].
  - split; [discriminate | intros [H _]; discriminate].
  - destruct (phase p) as [ph|]; simpl.
    + destruct (String.eqb_spec ph "Running") as [->|Hph]; simpl.
      * rewrite ready_conditions_iff. tauto.
      * split; [discriminate|]. intros (_ & [= H] & _). contradiction.
    + split; [discriminate | intros (_ & H & _); discriminate].
Qed.

(** *** Deadlines *)

Lemma rounds_before_In {S : Type} (timeout : Z) (tl : timeline S) (s : S) :
  In s (rounds_before timeout tl) ->
  exists elapsed,
    In (elapsed, s) tl /\
    Binary64.ltb elapsed (Binary64.exact timeout) = true.
Proof.
  induction tl as [|[elapsed s'] rest IH]; simpl; [intros []|].
  destruct (Binary64.ltb elapsed (Binary64.exact timeout)) eqn:Hlt;
    [|intros []].
  intros [<-|Hin].
  - exists elapsed. auto.
  - destruct (IH Hin) as (el & Hel & Hlt'). exists el. auto.
Qed.

(** *** The readiness gate *)

Lemma last_cons_default {A : Type} (a : A) (l : list A) (d d' : A) :
  List.last (a :: l) d = List.last (a :: l) d'.
Proof.
  revert a. induction l as [|b l IH]; intros a; [reflexivity|].
  change (List.last (b :: l) d = List.last (b :: l) d'). apply IH.
Qed.

Lemma forallb_exists_false {A : Type} (f : A -> bool) (l : list A) (a : A) :
  List.forallb f (a :: l) = false ->
  exists x, In x (a :: l) /\ f x = false.
Proof.
  intros H.
  destruct (List.forallb f (a :: l)) eqn:E; [discriminate|].
  clear H. revert E. generalize (a :: l). intros l'.
  induction l' as [|b l' IH]; simpl; [discriminate|].
  destruct (f b) eqn:Hb; simpl.
  - intros H. destruct (IH H) as (x & Hx & Hfx). exists x. auto.
  - intros _. exists b. auto.
Qed.

(** The gate leaves its loop with a listing in which every pod is ready,
    or, at the deadline, with the last listing it got. *)
Lemma gate_result (pods : list pod) (later : list (list pod)) :
  settled (gate pods later) = true \/
  gate pods later = List.last later pods.
Proof.
  revert pods. induction later as [|next rest IH]; intros pods; simpl.
  - destruct (settled pods) eqn:Hs; auto.
  - destruct (settled pods) eqn:Hs; [auto|].
    destruct (IH next) as [H|H]; [auto|].
    right. rewrite H. destruct rest as [|l rest]; [reflexivity|].
    change (List.last (l :: rest) next = List.last (l :: rest) pods).
    apply last_cons_default.
Qed.

(** The listings that the gate goes through. *)
Lemma gate_choice (pods : list pod) (later : list (list pod)) :
  exists pre post,
    pods :: later = pre ++ gate pods later :: post /\
    Forall (fun l => settled l = false) pre /\
    (settled (gate pods later) = true \/ post = []).
Proof.
  revert pods. induction later as [|next rest IH]; intros pods; simpl.
  - exists [], []. destruct (settled pods); auto.
  - destruct (settled pods) eqn:Hs.
    + exists [], (next :: rest). auto.
    + destruct (IH next) as (pre & post & Heq & Hpre & Hpost).
      exists (pods :: pre), post. rewrite Heq. auto.
Qed.

(** X2.  The readiness gate does not fail a predicate.  It goes through the
    listings of its rounds, in order, and binds the first one that is not
    empty and whose pods are all running and ready; when its deadline
    comes first it binds the last listing it got, ready or not, and the
    predicate goes on. *)
Theorem readiness_gate_binds (g : gate_script) :
  exists pre post,
    get_pod_list (gs_first g)
      :: List.map get_pod_list (rounds_before START_TIMEOUT (gs_later g))
    = pre ++ readiness_gate g :: post /\
    Forall (fun l => l = [] \/
                     exists p, In p l /\ check_pod_running_and_ready p = false)
      pre /\
    ((readiness_gate g <> [] /\
      Forall (fun p => check_pod_running_and_ready p = true)
        (readiness_gate g))
     \/ post = []).
Proof.
  unfold readiness_gate.
  destruct (gate_choice (get_pod_list (gs_first g))
              (List.map get_pod_list
                 (rounds_before START_TIMEOUT (gs_later g))))
    as (pre & post & Heq & Hpre & Hpost).
  exists pre, post. split; [exact Heq|]. split.
  - eapply List.Forall_impl; [|exact Hpre]. intros l Hl.
    destruct l as [|p l]; [left; reflexivity|right].
    unfold settled in Hl.
    destruct (forallb_exists_false _ l p Hl) as (q & Hq & Hfalse);
      eauto.
  - destruct Hpost as [Hs|Hpost]; [left|right; assumption].
    unfold settled in Hs.
    destruct (gate _ _) as [|p l]; [discriminate|].
    split; [discriminate|].
    apply List.Forall_forall. intros q Hq.
    apply (proj1 (List.forallb_forall _ _) Hs q Hq).
Qed.

(** *** The CPU predicate and the pods bound by the gate *)

(** A row that names a pod which is not among the bound ones is not
    judged. *)
Lemma cpu_line_unlisted pods threshold line :
  (forall pod_name rest,
      split_ws line = pod_name :: rest -> find_pod pods pod_name = None) ->
  cpu_line pods threshold line = Ok Skipped.
Proof.
  intros H. unfold cpu_line.
  destruct (split_ws line) as [|pod_name [|container_name [|cpu_str rest]]];
    try reflexivity.
  rewrite (H pod_name _ eq_refl).
  destruct (is_sidecar container_name); reflexivity.
Qed.

Lemma cpu_lines_skipped pods threshold ls flag :
  (forall line, In line ls -> cpu_line pods threshold line = Ok Skipped) ->
  cpu_lines pods threshold ls flag = Ok flag.
Proof.
  revert flag. induction ls as [|line rest IH]; intros flag H; simpl.
  - reflexivity.
  - rewrite (H line) by (left; reflexivity). simpl.
    apply IH. intros l Hl. apply H. right. assumption.
Qed.

(** A table is a [kubectl top] that exits with status 0 and prints at
    least two lines. *)
Lemma cpu_round_unlisted pods threshold top :
  (forall r line pod_name rest,
      top = Ok r -> In line (data_lines r) ->
      split_ws line = pod_name :: rest -> find_pod pods pod_name = None) ->
  cpu_round pods threshold top = true <->
  exists r, top = Ok r /\ returncode r = 0 /\
            (2 <= length (lines (strip (stdout r))))%nat.
Proof.
  intros H. unfold cpu_round. destruct top as [r|e]; simpl.
  - destruct (Z.eqb_spec (returncode r) 0) as [Hc|Hc]; simpl.
    + destruct (Nat.ltb_spec (length (lines (strip (stdout r)))) 2)
        as [Hl|Hl]; simpl.
      * split; [discriminate|]. intros (r' & [= <-] & _ & Hl'). lia.
      * rewrite cpu_lines_skipped.
        -- simpl. split; [|reflexivity]. intros _. exists r. auto.
        -- intros line Hline. apply cpu_line_unlisted.
           intros pod_name rest. apply (H r line); auto.
    + split; [discriminate|]. intros (r' & [= <-] & Hc' & _). contradiction.
  - split; [discriminate|]. intros (r & [=] & _).
Qed.

Lemma poll_iff {S : Type} (round : S -> bool) (samples : list S) :
  poll round samples = true <-> exists s, In s samples /\ round s = true.
Proof.
  induction samples as [|s rest IH]; simpl.
  - split; [discriminate | intros (s & [] & _)].
  - destruct (round s) eqn:Hs.
    + split; [|reflexivity]. intros _. exists s. auto.
    + rewrite IH. split.
      * intros (s' & Hin & H). exists s'. auto.
      * intros (s' & [<-|Hin] & H); [congruence|]. exists s'. auto.
Qed.

(** X3.  When the readiness gate ends without a pod, the CPU predicate
    compares no usage with any limit: it returns [True] exactly when some
    round before the deadline gets a table from [kubectl top]. *)
Theorem cpu_check_without_pods (s : cpu_script) (timeout : Z)
    (threshold : Binary64.float) :
  readiness_gate (cpu_gate s) = [] ->
  Recovery.check_cpu_stress_recovered s timeout threshold = true <->
  exists r,
    In (Ok r) (rounds_before timeout (cpu_tops s)) /\
    returncode r = 0 /\
    (2 <= length (lines (strip (stdout r))))%nat.
Proof.
  intros Hgate. unfold Recovery.check_cpu_stress_recovered,
    CheckStatus.check_cpu_stress_recovered.
  rewrite Hgate. simpl List.map. rewrite poll_iff. split.
  - intros (top & Hin & Hround).
    apply cpu_round_unlisted in Hround as (r & -> & Hc & Hl);
      [|reflexivity].
    exists r. auto.
  - intros (r & Hin & Hc & Hl). exists (Ok r). split; [assumption|].
    apply cpu_round_unlisted; [reflexivity|]. exists r. auto.
Qed.

Lemma cpu_check_without_pods_witness :
  Recovery.readiness_gate (Recovery.cpu_gate Scenarios.unlisted) = [] /\
  Recovery.check_cpu_stress_recovered Scenarios.unlisted 300
    Recovery.default_ratio_threshold = true.
Proof.
  split; [reflexivity|].
  apply (cpu_check_without_pods Scenarios.unlisted 300
           Recovery.default_ratio_threshold eq_refl).
  eexists. split; [left; reflexivity|].
  split; [reflexivity | vm_compute; lia].
Defined.

(** *** [check_pod_ready_recovered] *)

Lemma ready_round_true (s : ready_sample) :
  ready_round s = Ok true ->
  exists pods r,
    rs_pods s = Ok pods /\ pods <> [] /\
    Forall (fun p => check_pod_running_and_ready p = true) pods /\
    rs_top s = Ok r /\ returncode r = 0 /\
    contains "error: metrics not available" (stdout r ++ stderr r)%string
    = false /\
    contains "No resources found" (stdout r ++ stderr r)%string = false.
Proof.
  unfold ready_round, get_pod_list, catch.
  destruct (rs_pods s) as [pods|e]; [|discriminate].
  destruct pods as [|p pods]; [discriminate|].
  destruct (List.forallb check_pod_running_and_ready (p :: pods)) eqn:Hall;
    [|discriminate].
  destruct (rs_top s) as [r|e]; [|destruct e; discriminate].
  unfold metrics_accessible. cbv zeta.
  destruct (contains "error: metrics not available" _) eqn:H1;
    [discriminate|].
  destruct (contains "No resources found" _) eqn:H2; [discriminate|].
  destruct (Z.eqb_spec (returncode r) 0) as [Hc|Hc]; [|discriminate].
  intros _. exists (p :: pods), r.
  split; [reflexivity|]. split; [discriminate|].
  split; [|conjuncts; auto].
  apply List.Forall_forall. intros q Hq.
  apply (proj1 (List.forallb_forall _ _) Hall q Hq).
Qed.

Lemma ready_round_raise (s : ready_sample) (e : exn) :
  ready_round s = Raise e -> e <> TimeoutExpired /\ rs_top s = Raise e.
Proof.
  unfold ready_round.
  destruct (get_pod_list (rs_pods s)) as [|p pods]; [discriminate|].
  destruct (List.forallb _ _); [|discriminate].
  destruct (rs_top s) as [r|e']; [discriminate|].
  destruct e'; intros [= <-]; split; reflexivity || discriminate.
Qed.

(** A round with pods, all running and ready, in which [kubectl top pod]
    raises anything but its time-out raises the same. *)
Lemma ready_round_raises (s : ready_sample) (pods : list pod) (e : exn) :
  rs_pods s = Ok pods -> pods <> [] ->
  Forall (fun p => check_pod_running_and_ready p = true) pods ->
  rs_top s = Raise e -> e <> TimeoutExpired ->
  ready_round s = Raise e.
Proof.
  intros Hpods Hne Hall Htop He.
  unfold ready_round, get_pod_list, catch. rewrite Hpods.
  destruct pods as [|p rest]; [contradiction|].
  replace (List.forallb check_pod_running_and_ready (p :: rest)) with true.
  - rewrite Htop. destruct e; try reflexivity. contradiction.
  - symmetry. apply List.forallb_forall.
    intros q Hq. rewrite List.Forall_forall in Hall. exact (Hall q Hq).
Qed.

(** X4.  The pod-readiness predicate returns [True] only from a round, begun
    before the deadline, that lists at least one pod, finds every listed
    pod running and ready, and gets from [kubectl top pod] an exit status
    of 0 and an output free of the two markers of missing metrics.  A
    time-out of [kubectl top pod] fails the round; any other exception of
    that call leaves the predicate: an exception that leaves the predicate
    is one of that call, and is not its time-out; and when, after rounds
    that fail, a round lists pods that are all running and ready and
    [kubectl top pod] raises anything but its time-out, the predicate
    raises that exception. *)
Theorem pod_ready_recovered_sound (tl : timeline ready_sample)
    (timeout : Z) :
  (check_pod_ready_recovered tl timeout = Ok true ->
   exists s pods r,
     In s (rounds_before timeout tl) /\
     rs_pods s = Ok pods /\ pods <> [] /\
     Forall (fun p => check_pod_running_and_ready p = true) pods /\
     rs_top s = Ok r /\ returncode r = 0 /\
     contains "error: metrics not available" (stdout r ++ stderr r)%string
     = false /\
     contains "No resources found" (stdout r ++ stderr r)%string = false) /\
  (forall e,
      check_pod_ready_recovered tl timeout = Raise e ->
      e <> TimeoutExpired /\
      exists s, In s (rounds_before timeout tl) /\ rs_top s = Raise e) /\
  (forall s,
      In s (rounds_before timeout tl) -> rs_top s = Raise TimeoutExpired ->
      ready_round s = Ok false) /\
  (forall before s rest pods e,
      rounds_before timeout tl = (before ++ s :: rest)%list ->
      Forall (fun s0 => ready_round s0 = Ok false) before ->
      rs_pods s = Ok pods -> pods <> [] ->
      Forall (fun p => check_pod_running_and_ready p = true) pods ->
      rs_top s = Raise e -> e <> TimeoutExpired ->
      check_pod_ready_recovered tl timeout = Raise e).
Proof.
  unfold check_pod_ready_recovered.
  split; [|split; [|split]].
  - induction (rounds_before timeout tl) as [|s rest IH]; simpl;
      [discriminate|].
    destruct (ready_round s) as [[|]|e] eqn:Hs; simpl; try discriminate.
    + intros _. destruct (ready_round_true s Hs) as (pods & r & H).
      exists s, pods, r. tauto.
    + intros H. destruct (IH H) as (s' & pods & r & Hin & H').
      exists s', pods, r. auto.
  - intros e.
    induction (rounds_before timeout tl) as [|s rest IH]; simpl;
      [discriminate|].
    destruct (ready_round s) as [[|]|e'] eqn:Hs; simpl; try discriminate.
    + intros H. destruct (IH H) as (Hne & s' & Hin & H').
      split; [assumption|]. exists s'. auto.
    + intros [= <-]. destruct (ready_round_raise s e' Hs) as [Hne Htop].
      split; [assumption|]. exists s. auto.
  - intros s _ Htop. unfold ready_round. rewrite Htop.
    destruct (get_pod_list (rs_pods s)); [reflexivity|].
    destruct (List.forallb _ _); reflexivity.
  - intros before s rest pods e -> Hbefore Hpods Hne Hall Htop He.
    induction Hbefore as [|s0 before Hs0 _ IH]; cbn [app poll_r].
    + rewrite (ready_round_raises s pods e Hpods Hne Hall Htop He).
      reflexivity.
    + rewrite Hs0. cbn [rbind]. exact IH.
Qed.

(** *** The dispatcher *)

Lemma member_In (x : string) (l : list string) :
  Failures.member x l = true <-> In x l.
Proof.
  unfold Failures.member. rewrite List.existsb_exists. split.
  - intros (y & Hy & Heq). apply String.eqb_eq in Heq. congruence.
  - intros H. exists x. split; [assumption | apply String.eqb_refl].
Qed.

(** X5.  [check] answers [False] for a type that is not in the list of
    failures, without consulting the cluster; every type of the list has
    its predicate in the dictionary, so that the lookup cannot fail;
    [network-loss] and [network-delay] share one predicate; and only the
    pod-readiness predicate lets an exception of a probe through. *)
Theorem check_dispatch (c : cluster) (timeout : Z) :
  (forall type_,
      ~ In type_ Failures.failures -> check c type_ timeout = Ok false) /\
  (forall type_,
      In type_ Failures.failures ->
      exists k,
        Failures.lookup type_ checkers = Some k /\
        check c type_ timeout
        = call k c (if 0 <? timeout then Some timeout else None)) /\
  check c "network-delay" timeout = check c "network-loss" timeout /\
  (forall type_,
      type_ <> "pod-fail" -> exists b, check c type_ timeout = Ok b).
Proof.
  assert (Hin : forall type_,
             In type_ Failures.failures ->
             exists k,
               Failures.lookup type_ checkers = Some k /\
               check c type_ timeout
               = call k c (if 0 <? timeout then Some timeout else None)).
  { intros type_ H. simpl in H.
    repeat (destruct H as [<-|H]; [eexists; split; reflexivity|]).
    destruct H. }
  conjuncts.
  - intros type_ H. unfold check.
    destruct (Failures.member type_ Failures.failures) eqn:Hm;
      [|reflexivity].
    apply member_In in Hm. contradiction.
  - exact Hin.
  - reflexivity.
  - intros type_ Hne. unfold check.
    destruct (Failures.member type_ Failures.failures) eqn:Hm;
      [|eauto].
    apply member_In in Hm. simpl in Hm.
    repeat (destruct Hm as [<-|Hm];
            [first [contradiction | eexists; reflexivity]|]).
    destruct Hm.
Qed.

(** X6.  A timeout that is not positive stands for the default of the
    predicate: 300 seconds for the CPU and the pod-readiness predicate,
    10 seconds for the memory, network and disk predicates.  For
    [pod-config-error] it stands for the 10 seconds of
    [check_config_error_recovered], which hands them to both of its
    parts: by way of [check], the CPU part of a configuration check never
    runs with the 300 seconds of its own default. *)
Theorem check_default_timeouts (c : cluster) (timeout : Z) :
  timeout <= 0 ->
  check c "cpu-stress" timeout = check c "cpu-stress" 300 /\
  check c "memory-stress" timeout = check c "memory-stress" 10 /\
  check c "pod-fail" timeout = check c "pod-fail" 300 /\
  check c "network-loss" timeout = check c "network-loss" 10 /\
  check c "network-delay" timeout = check c "network-delay" 10 /\
  check c "disk-io" timeout = check c "disk-io" 10 /\
  check c "pod-config-error" timeout
  = Ok (Recovery.check_cpu_stress_recovered (cl_cpu c) 10
          default_ratio_threshold
        && Recovery.check_memory_stress_recovered (cl_memory c) 10
             default_ratio_threshold).
Proof.
  intros Hle.
  assert ((0 <? timeout) = false) as Hneg by (apply Z.ltb_ge; assumption).
  unfold check.
  repeat match goal with
         | |- context [Failures.member ?t Failures.failures] =>
             change (Failures.member t Failures.failures) with true
         end.
  cbv iota.
  repeat match goal with
         | |- context [Failures.lookup ?t checkers] =>
             let v := eval vm_compute in (Failures.lookup t checkers) in
             change (Failures.lookup t checkers) with v
         end.
  cbv iota. rewrite Hneg.
  change (0 <? 300) with true. change (0 <? 10) with true. cbv iota.
  conjuncts; reflexivity.
Qed.

Lemma check_default_timeouts_witness :
  Recovery.check Scenarios.idle "pod-config-error" 0
  = Ok (Recovery.check_cpu_stress_recovered
          (Recovery.cl_cpu Scenarios.idle) 10
          Recovery.default_ratio_threshold
        && Recovery.check_memory_stress_recovered
             (Recovery.cl_memory Scenarios.idle) 10
             Recovery.default_ratio_threshold).
Proof.
  apply (check_default_timeouts Scenarios.idle 0). lia.
Defined.

End Readiness.

(** ** Deployment of an environment *)

Section Deploy.
Import PyStr PyText CheckStatus Env.
Local Open Scope list_scope.

Lemma existsb_false_forall {A : Type} (f : A -> bool) (l : list A) :
  List.existsb f l = false <-> forall x, In x l -> f x = false.
Proof.
  split.
  - intros H x Hx. destruct (f x) eqn:Hfx; [|reflexivity].
    rewrite <- H. symmetry. apply List.existsb_exists. eauto.
  - intros H. destruct (List.existsb f l) eqn:E; [|reflexivity].
    apply List.existsb_exists in E as (x & Hx & Hfx).
    rewrite (H x Hx) in Hfx. discriminate.
Qed.

(** One pass of the loop: it returns [True] when what it meets is up,
    and otherwise pauses and hands over to the next pass. *)
Lemma wait_for_pods_pass (n i : nat) (s : deployment_script) :
  (all_up (ds_attempt s i) /\
   wait_for_pods (S n) i s = ([GetPods; TopPods], true))
  \/
  (~ all_up (ds_attempt s i) /\
   exists pre,
     (pre = [GetPods] \/ pre = [GetPods; TopPods]) /\
     wait_for_pods (S n) i s
     = (pre ++ Sleep RETRY_INTERVAL :: fst (wait_for_pods n (S i) s),
        snd (wait_for_pods n (S i) s))).
Proof.
  unfold all_up, pod_status, metrics_out, metrics_err.
  cbn [wait_for_pods].
  destruct (run_cmd (at_pods (ds_attempt s i))) as [[out err] code].
  destruct (run_cmd (at_metrics (ds_attempt s i)))
    as [[mout merr] mcode].
  cbn [fst snd].
  destruct (wait_for_pods n (S i) s) as [evs' res]. cbn [fst snd].
  destruct (String.eqb_spec (strip out) "") as [Hout|Hout].
  { right. split; [tauto|]. exists [GetPods]. auto. }
  destruct (List.existsb not_running (splitlines (strip out))) eqn:Hnr;
    cbn [negb andb].
  { right. split; [|exists [GetPods]; auto].
    intros (_ & Hlines & _).
    apply List.existsb_exists in Hnr as (line & Hin & Hline).
    unfold not_running in Hline.
    destruct (Hlines line Hin) as [Hrun _]. rewrite Hrun in Hline.
    discriminate. }
  destruct (List.existsb partially_ready (splitlines (strip out)))
    eqn:Hpr; cbn [negb].
  { right. split; [|exists [GetPods]; auto].
    intros (_ & Hlines & _).
    apply List.existsb_exists in Hpr as (line & Hin & Hline).
    destruct (Hlines line Hin) as [_ Hp]. congruence. }
  unfold metrics_missing.
  destruct (contains "error: metrics not available" mout) eqn:Hm1;
    cbn [orb].
  { right. split; [|exists [GetPods; TopPods]; auto].
    intros (_ & _ & H & _). discriminate. }
  destruct (contains "error: metrics not available" merr) eqn:Hm2.
  { right. split; [|exists [GetPods; TopPods]; auto].
    intros (_ & _ & _ & H & _). discriminate. }
  destruct (contains "No resources found" mout) eqn:Hm3.
  { right. split; [|exists [GetPods; TopPods]; auto].
    intros (_ & _ & _ & _ & H). discriminate. }
  left. split; [|reflexivity].
  conjuncts; auto.
  intros line Hin. split.
  - pose proof (proj1 (existsb_false_forall _ _) Hnr line Hin) as H.
    unfold not_running in H. apply negb_false_iff in H. exact H.
  - exact (proj1 (existsb_false_forall _ _) Hpr line Hin).
Qed.

Lemma listings_app l1 l2 :
  listings (l1 ++ l2) = (listings l1 + listings l2)%nat.
Proof. unfold listings. now rewrite List.filter_app, List.length_app. Qed.

Lemma pauses_app l1 l2 : pauses (l1 ++ l2) = (pauses l1 + pauses l2)%nat.
Proof. unfold pauses. now rewrite List.filter_app, List.length_app. Qed.

(** The loop returns [True] from the first pass that meets pods which
    are up, and [False] when none of its [n] passes does. *)
Lemma wait_for_pods_spec (n i : nat) (s : deployment_script) :
  (snd (wait_for_pods n i s) = true <->
   exists k, (k < n)%nat /\ all_up (ds_attempt s (i + k))) /\
  (listings (fst (wait_for_pods n i s)) <= n)%nat /\
  (snd (wait_for_pods n i s) = false ->
   listings (fst (wait_for_pods n i s)) = n /\
   pauses (fst (wait_for_pods n i s)) = n).
Proof.
  revert i. induction n as [|n IH]; intros i.
  - simpl. split; [|auto].
    split; [discriminate | intros (k & Hk & _); lia].
  - destruct (IH (S i)) as (IHt & IHb & IHf).
    destruct (wait_for_pods_pass n i s) as [[Hup ->]|(Hdown & pre & Hpre & ->)];
      cbn [fst snd].
    + split; [|split; [cbv; lia | discriminate]].
      split; [|reflexivity]. intros _. exists O.
      rewrite Nat.add_0_r. split; [lia | assumption].
    + assert (listings pre = 1%nat) as Hl
        by (destruct Hpre as [-> | ->]; reflexivity).
      assert (pauses pre = O) as Hp
        by (destruct Hpre as [-> | ->]; reflexivity).
      rewrite listings_app, pauses_app, Hl, Hp.
      change (listings (Sleep RETRY_INTERVAL :: ?l)) with (listings l).
      change (pauses (Sleep RETRY_INTERVAL :: ?l)) with (S (pauses l)).
      split; [|split; [lia|]].
      * rewrite IHt. split.
        -- intros (k & Hk & Hup). exists (S k).
           rewrite Nat.add_succ_r. split; [lia | assumption].
        -- intros (k & Hk & Hup). destruct k as [|k].
           ++ rewrite Nat.add_0_r in Hup. contradiction.
           ++ exists k. rewrite Nat.add_succ_r in Hup.
              split; [lia | assumption].
      * intros H. destruct (IHf H) as [-> ->]. split; reflexivity.
Qed.

(** X7.  [deploy_env] returns [True] exactly when the deploy script exits with
    status 0 and one of the first 60 listings of the pods is up, that is,
    is not empty, shows [Running] on every line and equal counts in every
    READY column, and is followed by a [kubectl top pod] without a marker
    of missing metrics.  It exits the process with status 1 exactly when
    the deploy script fails, before any listing.  It lists the pods at
    most 60 times, and exactly 60 times, each followed by a pause, before
    it returns [False].  No exception leaves it. *)
Theorem deploy_env_outcomes (s : deployment_script) :
  let code := snd (run_cmd (ds_deploy s)) in
  let evs := fst (deploy_env s) in
  (snd (deploy_env s) = Campaign.Return true <->
   code = 0 /\
   exists k, (k < MAX_RETRIES)%nat /\ all_up (ds_attempt s k)) /\
  (forall c, snd (deploy_env s) = Campaign.SystemExit c <->
             code <> 0 /\ c = 1) /\
  (code <> 0 -> evs = [DeployScript]) /\
  (listings evs <= MAX_RETRIES)%nat /\
  (snd (deploy_env s) = Campaign.Return false ->
   listings evs = MAX_RETRIES /\ pauses evs = MAX_RETRIES) /\
  (forall e, snd (deploy_env s) <> Campaign.Exception e).
Proof.
  cbv zeta. unfold deploy_env.
  destruct (run_cmd (ds_deploy s)) as [[out err] code]. cbn [snd].
  destruct (wait_for_pods_spec MAX_RETRIES O s) as (Ht & Hb & Hf).
  destruct (wait_for_pods MAX_RETRIES O s) as [evs res].
  cbn [fst snd] in *.
  destruct (Z.eqb_spec code 0) as [Hc|Hc]; cbn [negb fst snd].
  - conjuncts.
    + split.
      * intros [= ->]. split; [assumption|]. apply Ht. reflexivity.
      * intros [_ H]. apply Ht in H. congruence.
    + intros c. split; [discriminate | intros [H _]; contradiction].
    + contradiction.
    + exact Hb.
    + intros [= ->]. exact (Hf eq_refl).
    + discriminate.
  - conjuncts.
    + split; [discriminate | intros [H _]; contradiction].
    + intros c. split; [intros [= <-]; auto | intros [_ ->]; reflexivity].
    + reflexivity.
    + cbv. lia.
    + discriminate.
    + discriminate.
Qed.

Lemma choice_In (l : list string) (r : nat) :
  l <> [] -> In (choice l r) l.
Proof.
  intros Hl. unfold choice. apply List.nth_In.
  apply Nat.mod_upper_bound. destruct l; [contradiction | discriminate].
Qed.

(** X8.  Whatever the generator draws for one of the three environments, the
    failure type is one of the list of failures: [check] has a predicate
    for it and [stop_injection] an entry of [stop_chaos].  For any other
    environment [get_random_failure] and [get_random_service] return
    nothing. *)
Theorem random_failure_is_known (target_env : string) (r : nat) :
  (forall failure_type,
      get_random_failure target_env r = Some failure_type ->
      In failure_type Failures.failures /\
      (exists k, Failures.lookup failure_type Recovery.checkers = Some k) /\
      (exists cmd,
          Failures.lookup failure_type Failures.stop_chaos = Some cmd)) /\
  (get_random_failure target_env r = None <->
   ~ In target_env ["simple-micro"; "train-ticket"; "online-boutique"]) /\
  (forall failure_type r',
      get_random_service target_env failure_type r' = None <->
      get_random_failure target_env r = None).
Proof.
  assert (Hknown : In (choice failure_types r) failure_types)
    by (apply choice_In; discriminate).
  assert (Hall : forall failure_type,
             In failure_type failure_types ->
             In failure_type Failures.failures /\
             (exists k,
                 Failures.lookup failure_type Recovery.checkers = Some k) /\
             (exists cmd,
                 Failures.lookup failure_type Failures.stop_chaos
                 = Some cmd)).
  { intros failure_type H. simpl in H.
    repeat (destruct H as [<-|H];
            [split; [simpl; tauto | split; eexists; reflexivity]|]).
    destruct H. }
  unfold get_random_failure, get_random_service.
  destruct (String.eqb_spec target_env "simple-micro") as [->|H1].
  { conjuncts.
    - intros failure_type [= <-]. auto.
    - split; [discriminate | intros H; exfalso; apply H; simpl; auto].
    - intros ft r'. split; discriminate. }
  destruct (String.eqb_spec target_env "train-ticket") as [->|H2].
  { conjuncts.
    - intros failure_type [= <-]. auto.
    - split; [discriminate | intros H; exfalso; apply H; simpl; auto].
    - intros ft r'. split; [|discriminate].
      destruct ft as [t|]; [destruct (String.eqb t "disk-io")|];
        discriminate. }
  destruct (String.eqb_spec target_env "online-boutique") as [->|H3].
  { conjuncts.
    - intros failure_type [= <-]. auto.
    - split; [discriminate | intros H; exfalso; apply H; simpl; auto].
    - intros ft r'. split; [|discriminate].
      destruct ft as [t|]; [destruct (String.eqb t "disk-io")|];
        discriminate. }
  conjuncts.
  - discriminate.
  - split; [|reflexivity]. intros _ [H|[H|[H|[]]]]; congruence.
  - intros ft r'. tauto.
Qed.

End Deploy.

(** ** Injection and its undoing *)

Section InjectionFiles.
Import PyStr PyText CheckStatus Injection.
Local Open Scope list_scope.

Lemma append_injective_l (a b c : string) :
  (a ++ b)%string = (a ++ c)%string -> b = c.
Proof.
  induction a as [|x a IH]; [auto|].
  rewrite !append_cons. intros [= H]. auto.
Qed.

(** The manifest to apply is another file than the template. *)
Lemma inject_file_fresh (failure_type : string) :
  inject_file failure_type <> template_path failure_type.
Proof.
  unfold inject_file, template_path. intros H.
  apply append_injective_l, append_injective_l in H. discriminate.
Qed.

(** What [inject_failure] does to the files and what it returns. *)
Lemma inject_failure_files (failure_type target_pod target_namespace : string)
    (config_patch : result bool) (apply : result completed) (fs : files) :
  let '(res, fs', evs) :=
    inject_failure failure_type target_pod target_namespace config_patch
      apply fs in
  (forall path, path <> inject_file failure_type -> fs' !! path = fs !! path) /\
  fs' !! template_path failure_type = fs !! template_path failure_type /\
  (forall template_content,
      failure_type <> "pod-config-error" ->
      fs !! template_path failure_type = Some template_content ->
      fs' !! inject_file failure_type
      = Some (fill template_content target_pod target_namespace) /\
      evs = [KubectlApply (inject_file failure_type)]) /\
  (failure_type = "pod-config-error" \/
   fs !! template_path failure_type = None ->
   fs' = fs /\ evs = []) /\
  res = Campaign.inject_failure failure_type
          {| Campaign.config_patch := config_patch;
             Campaign.template_exists :=
               bool_decide (is_Some (fs !! template_path failure_type));
             Campaign.apply := apply |}.
Proof.
  unfold inject_failure, Campaign.inject_failure.
  destruct (String.eqb_spec failure_type "pod-config-error") as [Hc|Hc].
  { conjuncts; auto. intros ? H. contradiction. }
  destruct (fs !! template_path failure_type) as [content|] eqn:Ht.
  - rewrite bool_decide_eq_true_2 by eauto. cbn [negb Campaign.template_exists
      Campaign.apply].
    assert (Hother : forall path fs1,
               fs1 = <[inject_file failure_type :=
                         fill content target_pod target_namespace]> fs ->
               path <> inject_file failure_type ->
               fs1 !! path = fs !! path).
    { intros path fs1 -> Hp. apply lookup_insert_ne. congruence. }
    assert (Hsame : (<[inject_file failure_type :=
                         fill content target_pod target_namespace]> fs)
                    !! inject_file failure_type
                    = Some (fill content target_pod target_namespace))
      by apply lookup_insert_eq.
    pose proof (inject_file_fresh failure_type) as Hfresh.
    destruct apply as [r|e]; [|destruct e]; conjuncts;
      try (intros path Hp; eapply Hother; [reflexivity | exact Hp]);
      try (rewrite <- Ht; eapply Hother; [reflexivity | congruence]);
      try (intros tc _ [= <-]; split; [exact Hsame | reflexivity]);
      try (intros [H|H]; [contradiction | discriminate]);
      try reflexivity.
  - rewrite bool_decide_eq_false_2 by (intros [? [=]]).
    cbn [negb Campaign.template_exists]. conjuncts; auto.
    intros ? _ [=].
Qed.

(** X9.  [inject_failure] writes one file and no other: the manifest
    [<type>.yaml.injecting], which holds the template with its
    placeholders filled in.  It writes it before it applies it, and leaves
    it in place whatever [kubectl apply] does; the template itself is not
    changed.  For ["pod-config-error"] and for a missing template no file
    is written.  What it returns is what the campaign loop is told. *)
Theorem inject_failure_writes (failure_type target_pod target_namespace : string)
    (config_patch : result bool) (apply : result completed) (fs : files) :
  let '(res, fs', evs) :=
    inject_failure failure_type target_pod target_namespace config_patch
      apply fs in
  (forall path, path <> inject_file failure_type -> fs' !! path = fs !! path) /\
  fs' !! template_path failure_type = fs !! template_path failure_type /\
  (forall template_content,
      failure_type <> "pod-config-error" ->
      fs !! template_path failure_type = Some template_content ->
      fs' !! inject_file failure_type
      = Some (fill template_content target_pod target_namespace) /\
      evs = [KubectlApply (inject_file failure_type)]) /\
  (failure_type = "pod-config-error" \/
   fs !! template_path failure_type = None ->
   fs' = fs /\ evs = []) /\
  res = Campaign.inject_failure failure_type
          {| Campaign.config_patch := config_patch;
             Campaign.template_exists :=
               bool_decide (is_Some (fs !! template_path failure_type));
             Campaign.apply := apply |}.
Proof.
  exact (inject_failure_files failure_type target_pod target_namespace
           config_patch apply fs).
Qed.

Lemma remove_if_exists_lookup (path p : string) (fs : files) :
  remove_if_exists path fs !! p
  = if String.eqb p path then None else fs !! p.
Proof.
  unfold remove_if_exists.
  destruct (String.eqb_spec p path) as [->|Hp].
  - destruct (fs !! path) eqn:H; [apply lookup_delete_eq | assumption].
  - destruct (fs !! path); [apply lookup_delete_ne; congruence | reflexivity].
Qed.

(** X10.  [stop_injection] undoes what [inject_failure] did to the files: when
    the manifest did not exist before the injection, the files after
    injection and stop are the files before, also when the stop command
    timed out.  Only when the stop command ends with another exception
    does the manifest stay. *)
Theorem stop_injection_restores_files
    (failure_type target_pod target_namespace : string)
    (config_patch : result bool) (apply stop : result completed)
    (fs : files) :
  fs !! inject_file failure_type = None ->
  (forall e, stop = Raise e -> e = TimeoutExpired) ->
  let fs1 :=
    snd (fst (inject_failure failure_type target_pod target_namespace
                config_patch apply fs)) in
  fst (stop_injection failure_type target_namespace stop fs1) = (Ok tt, fs).
Proof.
  intros Hfresh Hstop. cbv zeta.
  pose proof (inject_failure_files failure_type target_pod
                target_namespace config_patch apply fs) as Hw.
  destruct (inject_failure failure_type target_pod target_namespace
              config_patch apply fs) as [[res fs1] evs].
  destruct Hw as (Hother & _ & _ & Hnone & _). cbn [fst snd].
  assert (Hback : remove_if_exists (inject_file failure_type) fs1 = fs).
  { apply map_eq. intros p. rewrite remove_if_exists_lookup.
    destruct (String.eqb_spec p (inject_file failure_type)) as [->|Hp].
    - symmetry. exact Hfresh.
    - apply Hother. exact Hp. }
  unfold stop_injection.
  destruct (String.eqb_spec failure_type "pod-config-error") as [Hc|Hc].
  - destruct (Hnone (or_introl Hc)) as [-> _]. reflexivity.
  - destruct (Failures.lookup failure_type Failures.stop_chaos) as [t|].
    + destruct stop as [r|e].
      * cbn [fst]. rewrite Hback. reflexivity.
      * rewrite (Hstop e eq_refl). cbn [fst]. rewrite Hback. reflexivity.
    + cbn [fst]. rewrite Hback. reflexivity.
Qed.

Lemma stop_injection_restores_files_witness :
  fst (Injection.stop_injection "cpu-stress" "default"
         (Raise TimeoutExpired)
         (snd (fst (Injection.inject_failure "cpu-stress" "svc-a" "default"
                      (Ok true) (Fixtures.top_ok "") Scenarios.templates))))
  = (Ok tt, Scenarios.templates).
Proof.
  apply (stop_injection_restores_files "cpu-stress" "svc-a" "default"
           (Ok true) (Fixtures.top_ok "") (Raise TimeoutExpired)
           Scenarios.templates).
  - vm_compute. reflexivity.
  - intros e H. injection H as <-. reflexivity.
Defined.

End InjectionFiles.

(** ** Restoration from the original manifest *)

Section Restoration.
Import PyStr PyText PyNum CheckStatus Cluster Recovery Deployment.
Local Open Scope list_scope.

(** X11.  For a pod that is not being deleted, [_is_pod_abnormal] is the
    negation of [check_pod_running_and_ready]: the two agree on the
    phase, on the [Ready] conditions and on a pod without conditions,
    which is ready and not abnormal.  A pod that is being deleted is
    never ready, while [_is_pod_abnormal] does not look at the deletion
    time stamp. *)
Theorem abnormal_iff_not_ready (p : pod) :
  (deletion_timestamp p = None ->
   _is_pod_abnormal p = negb (check_pod_running_and_ready p)) /\
  (deletion_timestamp p <> None -> check_pod_running_and_ready p = false) /\
  _is_pod_abnormal p
  = _is_pod_abnormal
      {| pd_name := pd_name p; deletion_timestamp := None;
         phase := phase p; conditions := conditions p;
         containers := containers p |}.
Proof.
  unfold _is_pod_abnormal, check_pod_running_and_ready, is_running.
  conjuncts.
  - intros ->. destruct (phase p) as [ph|]; simpl; [|reflexivity].
    destruct (String.eqb ph "Running"); simpl; [|reflexivity].
    destruct (conditions p); reflexivity.
  - destruct (deletion_timestamp p); [reflexivity | contradiction].
  - reflexivity.
Qed.

(** *** Comparison of resources *)

Lemma put_lookup {A : Type} (k k' : string) (o : option A)
    (m : gmap string A) :
  put k o m !! k' = if String.eqb k' k then (match o with
                                             | Some a => Some a
                                             | None => m !! k
                                             end)
                    else m !! k'.
Proof.
  unfold put. destruct (String.eqb_spec k' k) as [->|Hne].
  - destruct o; [apply lookup_insert_eq | reflexivity].
  - destruct o; [apply lookup_insert_ne; congruence | reflexivity].
Qed.

(** X12.  The comparison reads the [cpu] and [memory] items of the [requests]
    and [limits] sections and nothing else: a section of another name, and
    an item of another name inside the two sections, leave the normal
    form as it is.  A difference in, say, [ephemeral-storage] is not
    seen. *)
Theorem normalize_resources_reads (r : resources) :
  (forall k sec,
      k <> "requests" -> k <> "limits" ->
      _normalize_resources (Some (<[k := sec]> r))
      = _normalize_resources (Some r)) /\
  (forall name items k v,
      name = "requests" \/ name = "limits" ->
      r !! name = Some (Some items) ->
      k <> "cpu" -> k <> "memory" ->
      _normalize_resources (Some (<[name := Some (<[k := v]> items)]> r))
      = _normalize_resources (Some r)).
Proof.
  split.
  - intros k sec Hr Hl. unfold _normalize_resources, normalized_section.
    destruct (decide (<[k := sec]> r = ∅)) as [He|_].
    { apply insert_non_empty in He. destruct He. }
    rewrite !lookup_insert_ne by congruence.
    destruct (decide (r = ∅)) as [->|_]; [|reflexivity].
    rewrite !lookup_empty. reflexivity.
  - intros name items k v Hname Hsec Hc Hm.
    unfold _normalize_resources.
    destruct (decide (<[name := Some (<[k := v]> items)]> r = ∅)) as [He|_].
    { apply insert_non_empty in He. destruct He. }
    destruct (decide (r = ∅)) as [->|_].
    { rewrite lookup_empty in Hsec. discriminate. }
    assert (Hsame : normalize_section (Some (<[k := v]> items))
                    = normalize_section (Some items)).
    { unfold normalize_section. rewrite !lookup_insert_ne by congruence.
      reflexivity. }
    unfold normalized_section.
    destruct Hname as [-> | ->].
    + rewrite lookup_insert_eq.
      rewrite (lookup_insert_ne _ "requests" "limits") by discriminate.
      rewrite Hsec, Hsame. reflexivity.
    + rewrite lookup_insert_eq.
      rewrite (lookup_insert_ne _ "limits" "requests") by discriminate.
      rewrite Hsec, Hsame. reflexivity.
Qed.

Lemma live_resources_sections (res : requirements) :
  live_resources res <> ∅ /\
  (exists sec, live_resources res !! "requests" = Some (Some sec)) /\
  (exists sec, live_resources res !! "limits" = Some (Some sec)).
Proof.
  unfold live_resources, live_section. conjuncts.
  - apply insert_non_empty.
  - rewrite lookup_insert_eq. eauto.
  - rewrite lookup_insert_ne by discriminate. rewrite lookup_insert_eq.
    eauto.
Qed.

Lemma sections_lookup (requests limits : option (gmap string string)) :
  put "requests" requests (put "limits" limits ∅) !! "requests" = requests /\
  put "requests" requests (put "limits" limits ∅) !! "limits" = limits.
Proof.
  unfold put. destruct requests, limits;
    rewrite ?lookup_insert_eq, ?(lookup_insert_ne _ "requests" "limits"),
      ?(lookup_insert_ne _ "limits" "requests"), ?lookup_insert_eq,
      ?lookup_empty by discriminate;
    split; reflexivity.
Qed.

(** The sections of the normal form are those of the resources. *)
Lemma normalize_resources_sections (r : resources)
    (n : gmap string (gmap string string)) (name : string) :
  name = "requests" \/ name = "limits" ->
  _normalize_resources (Some r) = Ok n ->
  (r !! name = None -> n !! name = None) /\
  (r !! name <> None -> n !! name <> None).
Proof.
  intros Hname. unfold _normalize_resources.
  destruct (decide (r = ∅)) as [->|_].
  { intros [= <-].
    rewrite !lookup_empty. split; [reflexivity | contradiction]. }
  unfold normalized_section.
  destruct (r !! "requests") as [sq|] eqn:Hq.
  - destruct (normalize_section sq) as [nq|e]; [|discriminate].
    cbn [rbind].
    destruct (r !! "limits") as [sl|] eqn:Hl.
    + destruct (normalize_section sl) as [nl|e]; [|discriminate].
      cbn [rbind]. intros [= <-].
      destruct (sections_lookup (Some nq) (Some nl)) as [H1 H2]. unfold put in *.
      destruct Hname as [-> | ->].
      * rewrite Hq, H1. split; [discriminate | discriminate].
      * rewrite Hl, H2. split; [discriminate | discriminate].
    + cbn [rbind]. intros [= <-].
      destruct (sections_lookup (Some nq) None) as [H1 H2]. unfold put in *.
      destruct Hname as [-> | ->].
      * rewrite Hq, H1. split; discriminate.
      * rewrite Hl, H2. split; [reflexivity | contradiction].
  - cbn [rbind].
    destruct (r !! "limits") as [sl|] eqn:Hl.
    + destruct (normalize_section sl) as [nl|e]; [|discriminate].
      cbn [rbind]. intros [= <-].
      destruct (sections_lookup None (Some nl)) as [H1 H2]. unfold put in *.
      destruct Hname as [-> | ->].
      * rewrite Hq, H1. split; [reflexivity | contradiction].
      * rewrite Hl, H2. split; discriminate.
    + cbn [rbind]. intros [= <-].
      destruct (sections_lookup None None) as [H1 H2]. unfold put in *.
      destruct Hname as [-> | ->].
      * rewrite Hq, H1. split; [reflexivity | contradiction].
      * rewrite Hl, H2. split; [reflexivity | contradiction].
Qed.

(** X13.  What is read of a running container always has both sections, be
    they empty.  So a container whose manifest leaves out [requests] or
    [limits], or gives no resources at all, never compares equal to a
    running container that has a [resources] object. *)
Theorem manifest_sections_must_match (r : resources) (res : requirements)
    (b : bool) :
  r !! "requests" = None \/ r !! "limits" = None ->
  _resources_equal (Some r) (Some (live_resources res)) = Ok b ->
  b = false.
Proof.
  intros Hmiss. unfold _resources_equal.
  destruct (_normalize_resources (Some r)) as [n1|e] eqn:H1;
    [|discriminate].
  destruct (_normalize_resources (Some (live_resources res))) as [n2|e]
    eqn:H2; [|discriminate].
  cbn [rbind]. intros [= <-]. apply bool_decide_eq_false. intros ->.
  destruct (live_resources_sections res) as (_ & (sq & Hq) & (sl & Hl)).
  destruct Hmiss as [Hm|Hm].
  - destruct (normalize_resources_sections r n2 "requests"
                (or_introl eq_refl) H1) as [Hnone _].
    destruct (normalize_resources_sections (live_resources res) n2
                "requests" (or_introl eq_refl) H2) as [_ Hsome].
    apply Hsome; [rewrite Hq; discriminate | exact (Hnone Hm)].
  - destruct (normalize_resources_sections r n2 "limits"
                (or_intror eq_refl) H1) as [Hnone _].
    destruct (normalize_resources_sections (live_resources res) n2
                "limits" (or_intror eq_refl) H2) as [_ Hsome].
    apply Hsome; [rewrite Hl; discriminate | exact (Hnone Hm)].
Qed.

Lemma manifest_sections_must_match_witness :
  Deployment._resources_equal (Some Scenarios.half_core)
    (Some (Deployment.live_resources Scenarios.running_half_core))
  = Ok false.
Proof.
  destruct (Deployment._resources_equal (Some Scenarios.half_core)
              (Some (Deployment.live_resources Scenarios.running_half_core)))
    as [b|e] eqn:E; [|vm_compute in E; discriminate].
  f_equal.
  apply (manifest_sections_must_match Scenarios.half_core
           Scenarios.running_half_core b); [left; reflexivity | exact E].
Defined.

(** *** The cache of the manifest *)

(** X14.  The manifest is read at most once.  A call that finds the cache
    empty reads the file at its path; when the file is missing, the cache
    stays empty, so that a later call reads again; when the file is
    there, the cache is set, also when a document of the file fails to
    load.  From then on every call answers from the cache, whatever
    path it is given and whatever the files hold: it reads nothing and
    raises nothing. *)
Theorem manifest_read_once (fs : string -> option manifest)
    (app_label manifest_path : string) :
  let first := get_original_resource_by_app fs app_label manifest_path None in
  (fs manifest_path = None ->
   first = (Raise FileNotFoundError, None)) /\
  (forall docs,
      fs manifest_path = Some docs ->
      exists idx,
        snd first = Some idx /\
        idx = snd (load_documents docs ∅) /\
        (forall r, fst first = Ok r -> r = idx !! app_label) /\
        forall fs' app_label' manifest_path',
          get_original_resource_by_app fs' app_label' manifest_path'
            (Some idx)
          = (Ok (idx !! app_label'), Some idx)).
Proof.
  cbv zeta. unfold get_original_resource_by_app, _load_original_resources.
  split.
  - intros ->. reflexivity.
  - intros docs ->. exists (snd (load_documents docs ∅)).
    destruct (load_documents docs ∅) as [[[]|e] idx]; cbn [fst snd];
      conjuncts; auto; try discriminate.
    intros r [= <-]. reflexivity.
Qed.

Lemma load_documents_app (pre post : manifest) (cache : cache_index) :
  fst (load_documents pre cache) = Ok tt ->
  load_documents (pre ++ post) cache
  = load_documents post (snd (load_documents pre cache)).
Proof.
  revert cache. induction pre as [|doc pre IH]; intros cache; simpl.
  - reflexivity.
  - destruct doc as [d|e]; [|discriminate].
    destruct (index_document d) as [[[l ent]|]|e]; [| |discriminate];
      apply IH.
Qed.

Lemma load_documents_prefix_ok (pre post : manifest) (cache : cache_index) :
  fst (load_documents (pre ++ post) cache) = Ok tt ->
  fst (load_documents pre cache) = Ok tt.
Proof.
  revert cache. induction pre as [|doc pre IH]; intros cache; simpl.
  - reflexivity.
  - destruct doc as [d|e]; [|discriminate].
    destruct (index_document d) as [[[l ent]|]|e]; [| |discriminate];
      apply IH.
Qed.

Lemma load_documents_silent (docs : manifest) (cache : cache_index)
    (app_label : string) :
  Forall (silent_on app_label) docs ->
  snd (load_documents docs cache) !! app_label = cache !! app_label.
Proof.
  revert cache. induction docs as [|doc docs IH]; intros cache H; simpl.
  - reflexivity.
  - apply List.Forall_cons_iff in H as [Hdoc Hrest].
    destruct doc as [d|e]; [|reflexivity].
    destruct (index_document d) as [[[l ent]|]|e] eqn:Hd;
      [| apply IH; assumption | reflexivity].
    rewrite IH by assumption.
    apply lookup_insert_ne. intros <-.
    apply (Hdoc ent). exists d. auto.
Qed.

(** X15.  The entry that the cache holds for a label is the one of the last
    document of the manifest that carries the label: a later document
    with the same label replaces an earlier one.  A label that no
    document carries has no entry. *)
Theorem cache_keeps_last (docs : manifest) (app_label : string) :
  fst (load_documents docs ∅) = Ok tt ->
  (forall pre doc post ent,
      docs = pre ++ doc :: post ->
      adds doc app_label ent ->
      Forall (silent_on app_label) post ->
      snd (load_documents docs ∅) !! app_label = Some ent) /\
  (Forall (silent_on app_label) docs ->
   snd (load_documents docs ∅) !! app_label = None).
Proof.
  intros Hok. split.
  - intros pre doc post ent -> (d & -> & Hd) Hpost.
    rewrite load_documents_app
      by (eapply load_documents_prefix_ok; exact Hok).
    simpl. rewrite Hd.
    rewrite load_documents_silent by assumption.
    apply lookup_insert_eq.
  - intros H. rewrite load_documents_silent by assumption.
    apply lookup_empty.
Qed.

Lemma cache_keeps_last_witness :
  snd (Deployment.load_documents Scenarios.twice ∅) !! "svc-a"
  = Some {| Deployment.e_kind := "Deployment";
            Deployment.e_name := Some "second";
            Deployment.e_doc := Scenarios.workload "second" |}.
Proof.
  destruct (cache_keeps_last Scenarios.twice "svc-a") as [Hlast _].
  { vm_compute. reflexivity. }
  apply (Hlast [Ok (Some (Scenarios.workload "first"))]
           (Ok (Some (Scenarios.workload "second"))) []).
  - reflexivity.
  - eexists. split; [reflexivity | vm_compute; reflexivity].
  - constructor.
Defined.

(** *** The restoration *)

Lemma deleted_app (l1 l2 : list event) :
  deleted (l1 ++ l2) = deleted l1 ++ deleted l2.
Proof. unfold deleted. apply omap_app. Qed.

(** What the body of the loop does for one pod. *)
Lemma judge_pod_cases (w : restore_world) (app_label : string)
    (target_resources : option resources) (p : pod) (k : nat) :
  let '(r, evs, _) := judge_pod w app_label target_resources p k in
  (evs = [] \/ evs = [ReadResources]) /\
  (_is_pod_abnormal p = true -> r = Ok true).
Proof.
  unfold judge_pod.
  destruct (_is_pod_abnormal p) eqn:Hab.
  - split; [left; reflexivity | reflexivity].
  - destruct target_resources as [t|];
      [|split; [left; reflexivity | discriminate]].
    destruct (_get_current_pod_resources (rw_current w k) app_label)
      as [current|]; [|split; [right; reflexivity | discriminate]].
    destruct (_resources_equal (Some t) (Some current)) as [equal|e];
      split; try (right; reflexivity); discriminate.
Qed.

Lemma restore_pods_trace (w : restore_world) (app_label : string)
    (target_resources : option resources) (pods : list pod) (k : nat) :
  let '(r, evs) := restore_pods w app_label target_resources pods k in
  Forall judging evs /\
  deleted evs `sublist_of` List.map pd_name pods /\
  (r = Ok tt ->
   forall p, In p pods -> _is_pod_abnormal p = true ->
             In (pd_name p) (deleted evs)).
Proof.
  revert k. induction pods as [|p rest IH]; intros k.
  - simpl. conjuncts; [constructor | constructor | intros _ p []].
  - cbn [restore_pods].
    pose proof (judge_pod_cases w app_label target_resources p k) as Hj.
    destruct (judge_pod w app_label target_resources p k)
      as [[[abnormal|e] evs] k'].
    + destruct Hj as [Hevs Hab].
      specialize (IH k').
      destruct (restore_pods w app_label target_resources rest k')
        as [r evs2].
      destruct IH as (IHj & IHs & IHd).
      assert (Forall judging evs /\ deleted evs = []) as [Hjudge Hnone]
        by (destruct Hevs as [-> | ->]; split; repeat constructor).
      destruct abnormal.
      * conjuncts.
        -- apply List.Forall_app. split; [|assumption].
           apply List.Forall_app. split; [assumption|].
           repeat constructor.
        -- rewrite !deleted_app, Hnone. simpl.
           apply sublist_skip. assumption.
        -- intros Hr q [<-|Hq] Hq'.
           ++ rewrite !deleted_app, Hnone. simpl. left. reflexivity.
           ++ rewrite !deleted_app, Hnone. simpl. right. auto.
      * conjuncts.
        -- apply List.Forall_app. split; assumption.
        -- rewrite deleted_app, Hnone. simpl.
           apply sublist_cons. assumption.
        -- intros Hr q [<-|Hq] Hq'.
           ++ specialize (Hab Hq'). discriminate.
           ++ rewrite deleted_app, Hnone. simpl. auto.
    + destruct Hj as [Hevs _]. conjuncts.
      * destruct Hevs as [-> | ->]; repeat constructor.
      * destruct Hevs as [-> | ->]; apply sublist_nil_l.
      * discriminate.
Qed.

Lemma apply_and_wait_cases (w : restore_world) :
  let '(r, evs) := apply_and_wait w in
  (evs = [KubectlApply] \/ evs = [KubectlApply; AwaitReady]) /\
  (r = Ok true <->
   exists c, rw_apply w = Ok c /\ returncode c = 0 /\
             check_pod_ready_recovered (rw_ready w) START_TIMEOUT = Ok true).
Proof.
  unfold apply_and_wait. destruct (rw_apply w) as [c|e].
  - destruct (Z.eqb_spec (returncode c) 0) as [Hc|Hc]; cbn [negb].
    + split; [right; reflexivity|]. split.
      * intros H. exists c. auto.
      * intros (c' & [= <-] & _ & H). exact H.
    + split; [left; reflexivity|]. split; [discriminate|].
      intros (c' & [= <-] & H & _). contradiction.
  - split; [left; reflexivity|]. split; [discriminate|].
    intros (c' & [=] & _).
Qed.

(** X16.  [restore_by_original_manifest] touches the cluster only for an
    application that the manifest defines.  For such an application whose
    pods can be listed it deletes pods first and applies the manifest
    after, once: the pods it deletes are among the listed ones, each at
    most once and in the order of the listing, and every pod that is found
    abnormal is among them.  It returns [True] exactly when
    [kubectl apply] exits with status 0 and the wait for ready pods that
    follows succeeds. *)
Theorem restore_deletes_then_applies (fs : string -> option manifest)
    (w : restore_world) (app_label manifest_path : string)
    (cache : option cache_index) :
  let found :=
    fst (get_original_resource_by_app fs app_label manifest_path cache) in
  let '(r, evs, _) :=
    restore_by_original_manifest fs w app_label manifest_path cache in
  (found = Ok None -> r = Ok false /\ evs = []) /\
  (forall ent, found = Ok (Some ent) ->
     (forall e, rw_pods w = Raise e -> r = Ok false /\ evs = [ListPods]) /\
     (forall pods b,
         rw_pods w = Ok pods -> r = Ok b ->
         exists body tail,
           evs = ListPods :: body ++ tail /\
           Forall judging body /\
           deleted body `sublist_of` List.map pd_name pods /\
           (forall p, In p pods -> _is_pod_abnormal p = true ->
                      In (pd_name p) (deleted body)) /\
           (tail = [KubectlApply] \/ tail = [KubectlApply; AwaitReady]) /\
           (b = true <->
            exists c,
              rw_apply w = Ok c /\ returncode c = 0 /\
              check_pod_ready_recovered (rw_ready w) START_TIMEOUT
              = Ok true))).
Proof.
  cbv zeta. unfold restore_by_original_manifest.
  destruct (get_original_resource_by_app fs app_label manifest_path cache)
    as [[[ent|]|e] cache1]; cbn [fst].
  - destruct (rw_pods w) as [pods|e].
    + pose proof (restore_pods_trace w app_label
                    (_extract_container_resources_from_yaml (e_doc ent)
                       app_label) pods O) as Hp.
      destruct (restore_pods w app_label _ pods O) as [[[]|e] body].
      * pose proof (apply_and_wait_cases w) as Ha.
        destruct (apply_and_wait w) as [r tail].
        destruct Hp as (Hj & Hs & Hd). destruct Ha as [Ht Hr].
        split; [discriminate|]. intros ent' _. split; [discriminate|].
        intros pods' b [= <-] ->. exists body, tail.
        split; [reflexivity|]. split; [exact Hj|]. split; [exact Hs|].
        split; [exact (Hd eq_refl)|]. split; [exact Ht|].
        split.
        -- intros ->. apply Hr. reflexivity.
        -- intros H. apply Hr in H. congruence.
      * split; [discriminate|]. intros ent' _. split; [discriminate|].
        intros pods' b _ [=].
    + split; [discriminate|]. intros ent' _. split; [auto|].
      intros pods b [=].
  - split; [auto|]. intros ent [=].
  - split; [discriminate|]. intros ent [=].
Qed.

End Restoration.

(** ** Normal form of a resource quantity *)

Section ResourceValues.
Import PyStr PyText PyNum Binary64 Deployment.

(** The nearest integer is within half a unit. *)
Lemma rne_bounds (a d : Z) :
  0 <= a -> 0 < d ->
  0 <= rne a d /\ - d <= 2 * (d * rne a d - a) <= d.
Proof.
  intros Ha Hd. unfold rne.
  pose proof (Z.div_mod a d ltac:(lia)) as Hdm.
  pose proof (Z.mod_pos_bound a d Hd) as Hr.
  pose proof (Z.div_pos a d Ha Hd) as Hk.
  destruct (Z.compare_spec (2 * (a mod d)) d) as [He|Hl|Hg].
  - destruct (Z.even (a / d)); split; nia.
  - split; nia.
  - split; nia.
Qed.

(** An integer within less than half a unit is the nearest one. *)
Lemma rne_unique (a d n : Z) :
  0 < d -> - d < 2 * (a - n * d) < d -> rne a d = n.
Proof.
  intros Hd Hn. unfold rne.
  pose proof (Z.div_mod a d ltac:(lia)) as Hdm.
  pose proof (Z.mod_pos_bound a d Hd) as Hr.
  assert (a / d = n \/ a / d = n - 1) as [Hk|Hk] by nia.
  - rewrite Hk in *.
    destruct (Z.compare_spec (2 * (a mod d)) d) as [He|Hl|Hg]; nia.
  - rewrite Hk in *.
    destruct (Z.compare_spec (2 * (a mod d)) d) as [He|Hl|Hg]; nia.
Qed.

(** The quotient of a millicore count by 1000, as a float: its exponent
    is at most [-12]. *)
Lemma div_int_thousand (n : Z) :
  0 < n < 10 ^ 15 ->
  exists q,
    q <= -12 /\
    div_int n 1000 = Ok (Finite (rne (n * 2 ^ (- q)) 1000) q).
Proof.
  intros [Hpos Hlt]. unfold div_int.
  change (1000 =? 0) with false. change (1000 <? 0) with false. cbv iota.
  unfold round_ratio.
  destruct (Z.eqb_spec n 0) as [|_]; [lia|].
  destruct (Z.ltb_spec n 0) as [|_]; [lia|].
  unfold round_pos.
  set (e := ilog2_ratio n 1000).
  assert (He : e <= 40).
  { subst e. unfold ilog2_ratio.
    change (Z.log2 1000) with 9.
    assert (Z.log2 n < 50).
    { apply Z.log2_lt_pow2; [assumption|].
      eapply Z.lt_trans; [exact Hlt | reflexivity]. }
    destruct (_ <? _); lia. }
  set (q := Z.max (e - 52) emin).
  assert (Hq : q <= -12) by (subst q; unfold emin; lia).
  exists q. split; [assumption|].
  replace (Z.max 0 (- q)) with (- q) by lia.
  replace (Z.max 0 q) with 0 by lia.
  change (1000 * 2 ^ 0) with 1000.
  replace (emax_q <? q) with false
    by (symmetry; apply Z.ltb_ge; unfold emax_q; lia).
  replace (q =? emax_q) with false
    by (symmetry; apply Z.eqb_neq; unfold emax_q; lia).
  reflexivity.
Qed.

(** Written with three decimals, the quotient of a millicore count by
    1000 shows the count: the rounding of the division is not seen. *)
Lemma format_thousandths (n : Z) :
  0 <= n < 10 ^ 15 ->
  exists x,
    div_int n 1000 = Ok x /\
    format_fixed 3 x
    = (pretty (n / 1000) ++ "." ++ zero_pad 3 (n mod 1000))%string.
Proof.
  intros [Hpos Hlt].
  destruct (Z.eq_dec n 0) as [->|Hn].
  { exists (Finite 0 0). split; reflexivity. }
  destruct (div_int_thousand n ltac:(lia)) as (q & Hq & Hdiv).
  eexists. split; [exact Hdiv|].
  assert (Hpow : 4096 <= 2 ^ (- q)).
  { change 4096 with (2 ^ 12). apply Z.pow_le_mono_r; lia. }
  assert (Ha : 0 <= n * 2 ^ (- q)) by nia.
  destruct (rne_bounds (n * 2 ^ (- q)) 1000 Ha ltac:(lia)) as [Hm Hb].
  set (m := rne (n * 2 ^ (- q)) 1000) in *.
  unfold format_fixed.
  change (10 ^ Z.of_nat 3) with 1000.
  rewrite (Z.abs_eq m Hm).
  destruct (Z.leb_spec 0 q) as [|_]; [lia|].
  destruct (Z.ltb_spec m 0) as [|_]; [lia|].
  rewrite (rne_unique (m * 1000) (2 ^ (- q)) n) by lia.
  reflexivity.
Qed.

Lemma py_int_numeral (s : string) : numeral s -> py_int s = Ok (value s).
Proof.
  intros [H Hne]. unfold py_int. rewrite (strip_numeral s H).
  destruct s as [|c s]; [contradiction|].
  pose proof H as H'. simpl in H'. apply andb_true_iff in H' as [Hc Hs].
  destruct (digit_visible c Hc) as (_ & Hm & Hp & _).
  unfold sign. rewrite Hm, Hp.
  unfold digitpart. rewrite digits_go_numeral by assumption.
  reflexivity.
Qed.

(** A numeral followed by a letter has no white space to strip. *)
Lemma strip_numeral_suffixed (s : string) (c : ascii) :
  numeral s -> is_space c = false ->
  strip (s ++ String c "") = (s ++ String c "")%string.
Proof.
  intros [H Hne] Hc. unfold strip, rstrip.
  assert (Hl : lstrip (s ++ String c "") = (s ++ String c "")%string).
  { destruct s as [|d s]; [contradiction|].
    rewrite append_cons. simpl in H.
    apply andb_true_iff in H as [Hd _].
    destruct (digit_visible d Hd) as [Hsp _].
    simpl. rewrite Hsp. reflexivity. }
  rewrite Hl, rev_append.
  change (rev (String c "")) with (String c "").
  rewrite append_cons. simpl lstrip. rewrite Hc.
  change (String c ("" ++ rev s)) with (rev (String c "") ++ rev s)%string.
  rewrite <- rev_append. apply rev_involutive.
Qed.

(** X17.  The normal form of a quantity in millicores is the exact decimal of
    the quantity in cores, without its trailing zeros: for every count
    below [10^15], neither the division by 1000 on floats nor the
    formatting with three decimals loses a millicore. *)
Theorem millicores_normalized_exactly (s : string) :
  numeral s -> value s < 10 ^ 15 ->
  _normalize_resource_value (of_str (s ++ "m"))
  = Ok (rstrip_chars "." (rstrip_chars "0"
          (pretty (value s / 1000) ++ "."
           ++ zero_pad 3 (value s mod 1000))%string)).
Proof.
  intros Hs Hlt. unfold _normalize_resource_value, of_str.
  cbn [truth text].
  assert (Hne : String.eqb (s ++ "m") "" = false).
  { destruct s; [destruct Hs; contradiction | reflexivity]. }
  rewrite Hne. cbn [negb].
  rewrite (strip_numeral_suffixed s "m" Hs eq_refl).
  rewrite endswith_append.
  replace (drop_last 1 (s ++ "m")) with s
    by (symmetry; apply (drop_last_append s "m")).
  rewrite (py_int_numeral s Hs).
  pose proof (horner_bounds s 0 (proj1 Hs) (Z.le_refl 0)) as Hv.
  fold (value s) in Hv.
  destruct (format_thousandths (value s) ltac:(lia)) as (x & Hx & Hf).
  rewrite Hx. cbn [rbind]. rewrite Hf. reflexivity.
Qed.

Lemma millicores_normalized_exactly_witness :
  Deployment._normalize_resource_value (Deployment.of_str "500m") = Ok "0.5" /\
  Deployment._normalize_resource_value (Deployment.of_str "1250m")
  = Ok "1.25".
Proof.
  split.
  - refine (eq_trans (millicores_normalized_exactly "500" _ _) _).
    + split; [reflexivity | discriminate].
    + vm_compute. reflexivity.
    + vm_compute. reflexivity.
  - refine (eq_trans (millicores_normalized_exactly "1250" _ _) _).
    + split; [reflexivity | discriminate].
    + vm_compute. reflexivity.
    + vm_compute. reflexivity.
Defined.

End ResourceValues.

(** ** Splitting at a character *)

Section Splitting.
Import PyStr PyText.

Lemma split_go_length (sep : ascii) (s acc : string) :
  length (split_go sep acc s) = S (count sep s).
Proof.
  revert acc. induction s as [|c s IH]; intros acc; [reflexivity|].
  simpl. destruct (Ascii.eqb c sep); simpl; rewrite IH; reflexivity.
Qed.

Lemma rev_acc_cons (c : ascii) (acc s : string) :
  (rev (String c acc) ++ s)%string = (rev acc ++ String c s)%string.
Proof.
  rewrite rev_cons, append_assoc. reflexivity.
Qed.

Lemma join_cons (sep x : string) (l : list string) :
  l <> [] -> join sep (x :: l) = (x ++ sep ++ join sep l)%string.
Proof. destruct l; [congruence | reflexivity]. Qed.

Lemma split_go_join (sep : ascii) (s acc : string) :
  join (String sep "") (split_go sep acc s) = (rev acc ++ s)%string.
Proof.
  revert acc. induction s as [|c s IH]; intros acc.
  - simpl. rewrite append_nil_r. reflexivity.
  - cbn [split_go]. destruct (Ascii.eqb_spec c sep) as [->|Hne].
    + rewrite join_cons, IH; [reflexivity|].
      intros Hnil. pose proof (split_go_length sep s "") as Hlen.
      rewrite Hnil in Hlen. discriminate.
    + rewrite IH. apply rev_acc_cons.
Qed.

Lemma count_append (c : ascii) (a b : string) :
  count c (a ++ b) = (count c a + count c b)%nat.
Proof.
  induction a as [|d a IH]; [reflexivity|].
  simpl. rewrite IH. lia.
Qed.

Lemma count_rev (c : ascii) (s : string) : count c (rev s) = count c s.
Proof.
  induction s as [|d s IH]; [reflexivity|].
  rewrite rev_cons, count_append, IH. simpl. lia.
Qed.

Lemma split_go_pieces (sep : ascii) (s acc : string) :
  count sep acc = O ->
  Forall (fun piece => count sep piece = O) (split_go sep acc s).
Proof.
  revert acc. induction s as [|c s IH]; intros acc Hacc.
  - constructor; [|constructor]. rewrite count_rev. assumption.
  - cbn [split_go]. destruct (Ascii.eqb c sep) eqn:Hc.
    + constructor; [rewrite count_rev; assumption|].
      apply IH. reflexivity.
    + apply IH. simpl. rewrite Hc. assumption.
Qed.

(** A piece without the separator is not cut. *)
Lemma split_go_whole (sep : ascii) (s acc : string) :
  count sep s = O -> split_go sep acc s = [(rev acc ++ s)%string].
Proof.
  revert acc. induction s as [|c s IH]; intros acc Hs.
  - simpl. rewrite append_nil_r. reflexivity.
  - simpl in Hs. cbn [split_go].
    destruct (Ascii.eqb c sep); [discriminate|].
    rewrite IH by assumption. rewrite rev_acc_cons. reflexivity.
Qed.

Lemma split_go_append (sep : ascii) (a b acc : string) :
  count sep a = O ->
  split_go sep acc (a ++ String sep b)
  = (rev acc ++ a)%string :: split_go sep "" b.
Proof.
  revert acc. induction a as [|c a IH]; intros acc Ha.
  - simpl. rewrite Ascii.eqb_refl, append_nil_r. reflexivity.
  - simpl in Ha. rewrite append_cons. cbn [split_go].
    destruct (Ascii.eqb c sep); [discriminate|].
    rewrite IH by assumption. rewrite rev_acc_cons. reflexivity.
Qed.

Lemma contains_count (c : ascii) (s : string) :
  contains (String c "") s = false <-> count c s = O.
Proof.
  induction s as [|d s IH]; [simpl; tauto|].
  cbn [contains count String.prefix].
  destruct (ascii_dec c d) as [->|Hne].
  - rewrite Ascii.eqb_refl. simpl. destruct s; simpl; split; discriminate.
  - replace (Ascii.eqb d c) with false
      by (symmetry; apply Ascii.eqb_neq; congruence).
    simpl. exact IH.
Qed.

End Splitting.

(** ** The probe agent *)

Section Probes.
Import PyStr PyText ProbeAgent.

(** X18.  A command line is cut at every semicolon, wherever it stands: the
    commands are one more than the semicolons, none contains a semicolon,
    and joined by semicolons they give the line back. *)
Theorem probe_line_cut_at_semicolons (s : string) :
  length (cmd_list (Line s)) = S (count ";" s) /\
  Forall (fun cmd => count ";" cmd = O) (cmd_list (Line s)) /\
  join ";" (cmd_list (Line s)) = s.
Proof.
  unfold cmd_list.
  destruct (contains ";" s) eqn:Hc.
  - unfold split. split; [apply split_go_length|].
    split; [apply split_go_pieces; reflexivity|].
    apply (split_go_join ";" s "").
  - apply (contains_count ";" s) in Hc. rewrite Hc.
    split; [reflexivity|]. split; [|reflexivity].
    constructor; [assumption | constructor].
Qed.

Lemma response_unchecked (cmd : string) (o : outcome) :
  exists text, response false cmd o = Ok text.
Proof.
  destruct o as [rc out err| | |]; simpl; eauto.
  destruct (rc =? 0); eauto.
Qed.

Lemma run_commands_unchecked run k cmds outputs :
  exists out, run_commands false run k cmds outputs = (Ok out, cmds).
Proof.
  revert k outputs. induction cmds as [|cmd rest IH]; intros k outputs.
  - simpl. eauto.
  - cbn [run_commands].
    destruct (response_unchecked cmd (run k cmd)) as [text ->].
    destruct (IH (S k) (outputs ++ text)%string) as [out ->]. eauto.
Qed.

Lemma response_zero check cmd o :
  exits_zero o -> response check cmd o = response false cmd o.
Proof.
  intros (out & err & ->). reflexivity.
Qed.

Lemma response_checked cmd o :
  ~ exits_zero o -> exists e, response true cmd o = Raise e.
Proof.
  intros Hn. destruct o as [rc out err| | |]; simpl; eauto.
  destruct (Z.eqb_spec rc 0) as [->|_]; [|eauto].
  exfalso. apply Hn. exists out, err. reflexivity.
Qed.

Lemma exits_zero_dec (o : outcome) : {exits_zero o} + {~ exits_zero o}.
Proof.
  destruct o as [rc out err| | |];
    try (right; intros (? & ? & ?); discriminate).
  destruct (Z.eq_dec rc 0) as [->|Hne].
  - left. exists out, err. reflexivity.
  - right. intros (? & ? & H). injection H as -> _ _. contradiction.
Qed.

Lemma run_commands_checked run k cmds outputs :
  (Forall exits_zero (outcomes run k cmds) /\
   run_commands true run k cmds outputs
   = run_commands false run k cmds outputs) \/
  (exists before cmd after e,
     cmds = (before ++ cmd :: after)%list /\
     Forall exits_zero (outcomes run k before) /\
     ~ exits_zero (run (k + length before)%nat cmd) /\
     run_commands true run k cmds outputs
     = (Raise e, (before ++ [cmd])%list)).
Proof.
  revert k outputs. induction cmds as [|cmd rest IH]; intros k outputs.
  - left. split; [constructor | reflexivity].
  - cbn [run_commands outcomes].
    destruct (exits_zero_dec (run k cmd)) as [Hz|Hn].
    + rewrite (response_zero true cmd _ Hz).
      destruct (response_unchecked cmd (run k cmd)) as [text ->].
      destruct (IH (S k) (outputs ++ text)%string)
        as [[Hall ->]|(before & c & after & e & -> & Hall & Hn & ->)].
      * left. split; [constructor; assumption | reflexivity].
      * right. exists (cmd :: before), c, after, e.
        split; [reflexivity|].
        split; [constructor; assumption|].
        split; [|reflexivity].
        cbn [length]. replace (k + S (length before))%nat
          with (S k + length before)%nat by lia. assumption.
    + right. destruct (response_checked cmd _ Hn) as [e ->].
      exists [], cmd, rest, e.
      split; [reflexivity|]. split; [constructor|].
      split; [|reflexivity].
      cbn [length]. rewrite Nat.add_0_r. assumption.
Qed.

(** X19.  Without [check] no outcome of a command makes the probe raise:
    every command is run, in order, also after one that failed, timed out
    or was not found. *)
Theorem probe_unchecked_runs_every_command (cmds : commands)
    (run : nat -> string -> outcome) :
  exists out, get_probe_response cmds false run = (Ok out, cmd_list cmds).
Proof.
  apply run_commands_unchecked.
Qed.

(** X20.  With [check] the probe returns what it returns without it when every
    command exits with code 0; otherwise it raises at the first command
    that does not, which is the last one run. *)
Theorem probe_checked_stops_at_first_failure (cmds : commands)
    (run : nat -> string -> outcome) :
  (Forall exits_zero (outcomes run O (cmd_list cmds)) /\
   get_probe_response cmds true run = get_probe_response cmds false run) \/
  (exists before cmd after e,
     cmd_list cmds = (before ++ cmd :: after)%list /\
     Forall exits_zero (outcomes run O before) /\
     ~ exits_zero (run (length before) cmd) /\
     get_probe_response cmds true run = (Raise e, (before ++ [cmd])%list)).
Proof.
  apply run_commands_checked.
Qed.

End Probes.

(** ** Tool calls written in the text of an answer *)

Section ToolCalls.
Import PyStr PyText LlmClient.

Lemma scan_offered names name ls :
  Forall (fun c => In (Llm.name c) names) (scan names name ls).
Proof.
  revert name. induction ls as [|line rest IH]; intros name; cbn [scan].
  - constructor.
  - destruct (startswith line "Action: "); [apply IH|].
    destruct (startswith line "Action Input: "); [|apply IH].
    destruct name as [n|]; [|apply IH].
    destruct (Failures.member n names) eqn:Hm; [|apply IH].
    constructor; [|apply IH]. apply member_In. exact Hm.
Qed.

Lemma scan_bound names name ls :
  (length (scan names name ls)
   <= length (List.filter (fun line => startswith line "Action Input: ") ls))%nat.
Proof.
  revert name. induction ls as [|line rest IH]; intros name;
    cbn [scan List.filter]; [cbn [length]; lia|].
  destruct (startswith line "Action: ").
  - specialize (IH (Some (drop_first 8 line))).
    destruct (startswith line "Action Input: "); cbn [length]; lia.
  - destruct (startswith line "Action Input: "); [|apply IH].
    specialize (IH name).
    destruct name as [n|];
      [destruct (Failures.member n names)|];
      cbn [length]; lia.
Qed.

(** X21.  The calls read from a text name tools of the given list only, and
    are at most as many as the lines that give an input. *)
Theorem tool_calls_named_as_offered (content : string)
    (tool_names : list string) :
  Forall (fun c => In (Llm.name c) tool_names)
    (get_tool_from_content content tool_names) /\
  (length (get_tool_from_content content tool_names)
   <= length (List.filter (fun line => startswith line "Action Input: ")
                (lines content)))%nat.
Proof.
  split; [apply scan_offered | apply scan_bound].
Qed.

Lemma nl_append (x : string) : (nl ++ x)%string = String newline x.
Proof. reflexivity. Qed.

Lemma one_line_count (s : string) : one_line s -> count newline s = O.
Proof. intros H. apply (contains_count newline s). exact H. Qed.

Lemma one_line_append (a b : string) :
  count newline a = O -> count newline b = O -> count newline (a ++ b) = O.
Proof. intros Ha Hb. rewrite count_append, Ha, Hb. reflexivity. Qed.

Lemma lines_call (c : Llm.function_call) :
  one_line (Llm.name c) -> one_line (Llm.arguments c) ->
  lines (render_call c)
  = [("Action: " ++ Llm.name c)%string;
     ("Action Input: " ++ Llm.arguments c)%string].
Proof.
  intros Hn Ha. apply one_line_count in Hn, Ha.
  unfold lines, split, render_call.
  rewrite nl_append, <- append_assoc.
  rewrite split_go_append by (apply one_line_append; [reflexivity | exact Hn]).
  rewrite split_go_whole by (apply one_line_append; [reflexivity | exact Ha]).
  reflexivity.
Qed.

Lemma lines_call_more (c : Llm.function_call) (t : string) :
  one_line (Llm.name c) -> one_line (Llm.arguments c) ->
  lines (render_call c ++ nl ++ t)
  = ("Action: " ++ Llm.name c)%string
    :: ("Action Input: " ++ Llm.arguments c)%string :: lines t.
Proof.
  intros Hn Ha. apply one_line_count in Hn, Ha.
  unfold lines, split, render_call.
  rewrite !nl_append.
  replace (("Action: " ++ Llm.name c
            ++ String newline ("Action Input: " ++ Llm.arguments c))
           ++ String newline t)%string
    with (("Action: " ++ Llm.name c)
          ++ String newline
               (("Action Input: " ++ Llm.arguments c) ++ String newline t))%string.
  2:{ rewrite !append_assoc. rewrite !append_cons. rewrite !append_assoc.
      reflexivity. }
  rewrite split_go_append by (apply one_line_append; [reflexivity | exact Hn]).
  rewrite split_go_append by (apply one_line_append; [reflexivity | exact Ha]).
  reflexivity.
Qed.

Lemma startswith_action (n : string) :
  startswith ("Action: " ++ n) "Action: " = true.
Proof. apply prefix_append. Qed.

Lemma startswith_input (a : string) :
  startswith ("Action Input: " ++ a) "Action: " = false /\
  startswith ("Action Input: " ++ a) "Action Input: " = true.
Proof. split; [reflexivity | apply prefix_append]. Qed.

Lemma scan_call names name (c : Llm.function_call) rest :
  In (Llm.name c) names ->
  scan names name
    (("Action: " ++ Llm.name c)%string
     :: ("Action Input: " ++ Llm.arguments c)%string :: rest)
  = c :: scan names (Some (Llm.name c)) rest.
Proof.
  intros Hin. apply member_In in Hin.
  cbn [scan]. rewrite startswith_action.
  destruct (startswith_input (Llm.arguments c)) as [-> ->].
  change (drop_first 8 ("Action: " ++ Llm.name c)) with (Llm.name c).
  change (drop_first 14 ("Action Input: " ++ Llm.arguments c))
    with (Llm.arguments c).
  rewrite Hin. destruct c. reflexivity.
Qed.

Lemma scan_render names name cs :
  Forall (fun c => one_line (Llm.name c) /\ one_line (Llm.arguments c) /\
                   In (Llm.name c) names) cs ->
  cs <> [] ->
  scan names name (lines (render cs)) = cs.
Proof.
  intros Hall. revert name.
  induction Hall as [|c rest (Hn & Ha & Hin) Hrest IH]; intros name Hne;
    [congruence|].
  unfold render. cbn [List.map].
  destruct rest as [|c2 rest].
  - cbn [List.map join]. rewrite lines_call by assumption.
    rewrite scan_call by assumption. reflexivity.
  - rewrite join_cons by discriminate.
    rewrite lines_call_more by assumption.
    rewrite scan_call by assumption.
    f_equal. apply IH. discriminate.
Qed.

(** X22.  Calls written in the format of the prompt, one line for the name
    and one for the input, are read back as they were, when their names are
    among the tools and neither names nor inputs hold a line break. *)
Theorem rendered_calls_read_back (cs : list Llm.function_call)
    (tool_names : list string) :
  Forall (fun c => one_line (Llm.name c) /\ one_line (Llm.arguments c) /\
                   In (Llm.name c) tool_names) cs ->
  get_tool_from_content (render cs) tool_names = cs.
Proof.
  intros Hall. destruct cs as [|c rest]; [reflexivity|].
  apply scan_render; [assumption | discriminate].
Qed.

Lemma rendered_calls_read_back_witness :
  LlmClient.get_tool_from_content
    (LlmClient.render [Scenarios.probe_call; Fixtures.playbook_call])
    ["probe"; "print_playbook"]
  = [Scenarios.probe_call; Fixtures.playbook_call].
Proof.
  apply rendered_calls_read_back.
  constructor;
    [split; [reflexivity | split; [reflexivity | left; reflexivity]]|].
  constructor;
    [split; [reflexivity | split; [reflexivity | right; left; reflexivity]]|].
  constructor.
Defined.

End ToolCalls.

(** ** The request loop of the client *)

Section Requests.
Import PyStr PyText LlmClient Coordinator.

Lemma generate_loop_step fuel model tools dumps replies retry_time requests
    prompts :
  0 <= retry_time ->
  generate_loop (S fuel) model tools dumps replies retry_time requests prompts
  = match payload_messages model tools dumps retry_time prompts with
    | Raise e =>
        Some {| returned := Raise e; prompts_left := prompts;
                sent := requests |}
    | Ok messages =>
        let requests1 := (requests ++ [messages])%list in
        match replies (length requests) with
        | Unreachable =>
            generate_loop fuel model tools dumps replies
              (retry_time - 1) requests1 messages
        | Answered a =>
            match read_answer model tools a with
            | Raise e =>
                Some {| returned := Raise e; prompts_left := messages;
                        sent := requests1 |}
            | Ok (Some value) =>
                Some {| returned := Ok value; prompts_left := messages;
                        sent := requests1 |}
            | Ok None =>
                if retry_time - 1 =? 0
                then Some {| returned := Ok ("", []);
                             prompts_left := messages;
                             sent := requests1 |}
                else
                  generate_loop fuel model tools dumps replies
                    (retry_time - 1) requests1 messages
            end
        end
    end.
Proof.
  intros H. cbn [generate_loop].
  destruct (Z.ltb_spec retry_time 0) as [|_]; [lia | reflexivity].
Qed.

Lemma generate_loop_done fuel model tools dumps replies retry_time requests
    prompts :
  retry_time < 0 ->
  generate_loop fuel model tools dumps replies retry_time requests prompts
  = Some {| returned := Ok ("", []); prompts_left := prompts;
            sent := requests |}.
Proof.
  intros H. destruct fuel; cbn [generate_loop];
    destruct (Z.ltb_spec retry_time 0) as [_|]; try lia; reflexivity.
Qed.

Lemma payload_later model tools dumps ps :
  payload_messages model tools dumps (max_retry_time - 1) ps = Ok ps.
Proof.
  unfold payload_messages.
  change (max_retry_time - 1 =? max_retry_time) with false.
  destruct tools as [[|t l]|]; try reflexivity.
  destruct (payload_family model); reflexivity.
Qed.

(** The loop ends within two turns. *)
Lemma generate_two_turns n model tools dumps replies prompts :
  generate (S (S n)) model tools dumps replies prompts
  = match payload_messages model tools dumps max_retry_time prompts with
    | Raise e =>
        Some {| returned := Raise e; prompts_left := prompts; sent := [] |}
    | Ok m =>
        match replies O with
        | Answered a => settle model tools m [m] a
        | Unreachable =>
            match replies 1%nat with
            | Answered a => settle model tools m [m; m] a
            | Unreachable =>
                Some {| returned := Ok ("", []); prompts_left := m;
                        sent := [m; m] |}
            end
        end
    end.
Proof.
  unfold generate.
  rewrite generate_loop_step by (unfold max_retry_time; lia).
  destruct (payload_messages model tools dumps max_retry_time prompts)
    as [m|e]; [|reflexivity].
  cbn [length app]. cbv zeta.
  destruct (replies O) as [|a].
  - rewrite generate_loop_step by (unfold max_retry_time; lia).
    rewrite payload_later. cbn [length app]. cbv zeta.
    destruct (replies 1%nat) as [|a].
    + apply generate_loop_done. unfold max_retry_time. lia.
    + unfold settle.
      change (max_retry_time - 1 - 1 =? 0) with false. cbv iota.
      destruct (read_answer model tools a) as [[v|]|e]; try reflexivity.
      apply generate_loop_done. unfold max_retry_time. lia.
  - unfold settle.
    change (max_retry_time - 1 =? 0) with true. cbv iota.
    destruct (read_answer model tools a) as [[v|]|e]; reflexivity.
Qed.

Lemma payload_kept model tools dumps retry_time ps :
  payload_family model <> Prompted \/ offered tools = false ->
  payload_messages model tools dumps retry_time ps = Ok ps.
Proof.
  intros H. unfold payload_messages.
  destruct tools as [[|t l]|]; try reflexivity.
  destruct (payload_family model); try reflexivity.
  destruct H as [H|H]; [congruence | discriminate].
Qed.

Lemma payload_raises model tools dumps retry_time ps x :
  payload_messages model tools dumps retry_time ps = Raise x ->
  x = IndexError /\ ps = [].
Proof.
  unfold payload_messages, rewrite_last.
  destruct tools as [[|t l]|]; try discriminate.
  destruct (payload_family model); try discriminate.
  destruct (retry_time =? max_retry_time); [|discriminate].
  destruct (List.rev ps) as [|last before] eqn:Hrev; [|discriminate].
  intros H. injection H as <-. split; [reflexivity|].
  rewrite <- (List.rev_involutive ps), Hrev. reflexivity.
Qed.

(** X23.  The loop ends within two turns and sends at most two requests, the
    second only when the first met an exception or an error status: an
    answer without a tool call is not asked again, the result is then the
    empty text with no call, as it is after two unanswered requests.  No
    request is sent only when the call raises [IndexError] on an empty list
    of messages.  Unless the model is one that is prompted for its tools,
    the caller's messages are left as they were. *)
Theorem generate_sends_at_most_two (model : string)
    (tools : option (list tool)) (dumps : list tool -> string)
    (replies : nat -> reply) (prompts : list message) :
  exists e,
    (forall n, generate (S (S n)) model tools dumps replies prompts = Some e) /\
    (length (sent e) <= 2)%nat /\
    (length (sent e) = 2%nat -> replies O = Unreachable) /\
    (sent e = [] -> returned e = Raise IndexError /\ prompts = []) /\
    (sent e <> [] ->
     (forall a,
         replies O = Answered a -> read_answer model tools a = Ok None ->
         returned e = Ok ("", []) /\ length (sent e) = 1%nat) /\
     (replies O = Unreachable -> replies 1%nat = Unreachable ->
      returned e = Ok ("", []))) /\
    (payload_family model <> Prompted \/ offered tools = false ->
     prompts_left e = prompts).
Proof.
  destruct (payload_messages model tools dumps max_retry_time prompts)
    as [m|x] eqn:Hp.
  - assert (Hkept : payload_family model <> Prompted \/ offered tools = false ->
                    m = prompts).
    { intros H. rewrite (payload_kept _ _ _ _ _ H) in Hp. congruence. }
    destruct (replies O) as [|a] eqn:H0.
    + destruct (replies 1%nat) as [|a] eqn:H1.
      * eexists. split.
        { intros n. rewrite generate_two_turns, Hp, H0, H1. reflexivity. }
        cbn [sent returned prompts_left length].
        split; [lia|]. split; [reflexivity|]. split; [discriminate|].
        split; [|exact Hkept].
        intros _. split; [discriminate | reflexivity].
      * eexists. split.
        { intros n. rewrite generate_two_turns, Hp, H0, H1. reflexivity. }
        cbn [sent returned prompts_left length].
        split; [lia|]. split; [reflexivity|]. split; [discriminate|].
        split; [|exact Hkept].
        intros _. split; discriminate.
    + eexists. split.
      { intros n. rewrite generate_two_turns, Hp, H0. reflexivity. }
      cbn [sent returned prompts_left length].
      split; [lia|]. split; [discriminate|]. split; [discriminate|].
      split; [|exact Hkept].
      intros _. split; [|discriminate].
      intros a' Ha' Hr. injection Ha' as <-. rewrite Hr.
      split; reflexivity.
  - destruct (payload_raises _ _ _ _ _ _ Hp) as [-> ->].
    eexists. split.
    { intros n. rewrite generate_two_turns, Hp. reflexivity. }
    cbn [sent returned prompts_left length].
    split; [lia|]. split; [discriminate|].
    split; [intros _; split; reflexivity|].
    split; [intros H; contradiction | reflexivity].
Qed.

Lemma rewrite_last_snoc tool_text tool_names before last :
  rewrite_last tool_text tool_names (before ++ [last])
  = Ok (before
        ++ [ {| role := role last;
                content := TOOL_CALL_PROMPT (content last) tool_text
                             tool_names |} ])%list.
Proof.
  unfold rewrite_last. rewrite List.rev_app_distr. cbn [List.rev app].
  rewrite List.rev_involutive. reflexivity.
Qed.

(** X24.  For a model that is prompted for its tools, the call changes the
    caller's list of messages: the content of the last message is replaced
    by the tool prompt built around it, once, also when two requests are
    sent, and every request carries the changed list.  On an empty list
    the call raises [IndexError] before any request. *)
Theorem prompted_model_rewrites_last_message (model : string) (t : tool)
    (l : list tool) (dumps : list tool -> string) (replies : nat -> reply)
    (before : list message) (last : message) :
  payload_family model = Prompted ->
  let rewritten :=
    (before
     ++ [ {| role := role last;
             content :=
               TOOL_CALL_PROMPT (content last) (dumps (t :: l))
                 (join "," (List.map tool_name (t :: l))) |} ])%list in
  (exists e,
      generate 2 model (Some (t :: l)) dumps replies (before ++ [last])
      = Some e /\
      prompts_left e = rewritten /\
      sent e <> [] /\
      Forall (eq rewritten) (sent e)) /\
  generate 2 model (Some (t :: l)) dumps replies []
  = Some {| returned := Raise IndexError; prompts_left := []; sent := [] |}.
Proof.
  intros Hf rewritten. split.
  - rewrite generate_two_turns.
    unfold payload_messages. rewrite Hf.
    change (max_retry_time =? max_retry_time) with true. cbv iota.
    rewrite rewrite_last_snoc. fold rewritten.
    destruct (replies O) as [|a]; [destruct (replies 1%nat) as [|a]|];
      eexists; (split; [reflexivity|]); cbn;
      (split; [reflexivity|]); (split; [discriminate|]);
      repeat constructor.
  - rewrite generate_two_turns.
    unfold payload_messages. rewrite Hf. reflexivity.
Qed.

Lemma prompted_model_rewrites_last_message_witness :
  (exists e,
      LlmClient.generate 2 "llama-3-8b" (Some [Scenarios.print_playbook])
        Scenarios.dumps Scenarios.answering [Scenarios.system_prompt]
      = Some e /\
      LlmClient.prompts_left e
      = [ {| Coordinator.role := "system";
             Coordinator.content :=
               LlmClient.TOOL_CALL_PROMPT "Remediate." "print_playbook"
                 "print_playbook" |} ]) /\
  LlmClient.generate 2 "llama-3-8b" (Some [Scenarios.print_playbook])
    Scenarios.dumps Scenarios.answering []
  = Some {| LlmClient.returned := Raise IndexError;
            LlmClient.prompts_left := [];
            LlmClient.sent := [] |}.
Proof.
  destruct (prompted_model_rewrites_last_message "llama-3-8b"
              Scenarios.print_playbook [] Scenarios.dumps Scenarios.answering
              [] Scenarios.system_prompt eq_refl)
    as [(e & He & Hleft & _) Hempty].
  split; [|exact Hempty].
  exists e. split; [exact He | exact Hleft].
Defined.

(** X25.  Without tools, a model of the qwen, qwq or glm family gets no
    answer through: whatever the answer holds, reading it raises
    [KeyError]; the call returns only when both requests met an exception,
    with the empty text and no call. *)
Theorem qwen_family_needs_tools (model : string) (stream : bool)
    (tools : option (list tool)) (dumps : list tool -> string)
    (replies : nat -> reply) (prompts : list message) :
  answer_family model = Qwen stream ->
  offered tools = false ->
  exists e,
    generate 2 model tools dumps replies prompts = Some e /\
    prompts_left e = prompts /\
    returned e
    = match replies O, replies 1%nat with
      | Unreachable, Unreachable => Ok ("", [])
      | _, _ => Raise KeyError
      end.
Proof.
  intros Hf Ho.
  rewrite generate_two_turns.
  rewrite payload_kept by (right; exact Ho).
  assert (Hread : forall a, read_answer model tools a = Raise KeyError).
  { intros a. unfold read_answer. rewrite Hf, Ho. reflexivity. }
  destruct (replies O) as [|a]; [destruct (replies 1%nat) as [|a]|];
    unfold settle; try rewrite Hread; eexists; cbn; repeat split.
Qed.

Lemma qwen_family_needs_tools_witness :
  exists e,
    LlmClient.generate 2 "qwen-max" None Scenarios.dumps Scenarios.answering
      [Scenarios.system_prompt]
    = Some e /\
    LlmClient.returned e = Raise KeyError.
Proof.
  destruct (qwen_family_needs_tools "qwen-max" false None Scenarios.dumps
              Scenarios.answering [Scenarios.system_prompt] eq_refl eq_refl)
    as (e & He & _ & Hr).
  exists e. split; [exact He | exact Hr].
Defined.

(** X26.  For a model that is prompted for its tools, the calls returned are
    those read from the content of an answer, and name tools that were
    offered; there is at least one, or the result is the empty text with
    no call. *)
Theorem prompted_model_calls_offered_tools (model : string)
    (tools : option (list tool)) (dumps : list tool -> string)
    (replies : nat -> reply) (prompts : list message) (e : ending)
    (text : string) (calls : list Llm.function_call) :
  answer_family model = Prompted ->
  generate 2 model tools dumps replies prompts = Some e ->
  returned e = Ok (text, calls) ->
  (text = "" /\ calls = []) \/
  (exists l a,
      tools = Some l /\
      (replies O = Answered a \/
       replies O = Unreachable /\ replies 1%nat = Answered a) /\
      message_content a = Ok text /\
      calls = get_tool_from_content text (List.map tool_name l) /\
      calls <> [] /\
      Forall (fun c => In (Llm.name c) (List.map tool_name l)) calls).
Proof.
  intros Hf Hg Hr.
  assert (Hread : forall a v,
             read_answer model tools a = Ok (Some v) ->
             exists l,
               tools = Some l /\
               message_content a = Ok (fst v) /\
               snd v = get_tool_from_content (fst v) (List.map tool_name l) /\
               snd v <> []).
  { intros a v. unfold read_answer. rewrite Hf.
    destruct (message_content a) as [c|x]; [|discriminate].
    cbn [rbind].
    destruct tools as [l|]; [|discriminate].
    cbn [get_tool_names rbind].
    destruct (get_tool_from_content c (List.map tool_name l)) as [|f fs] eqn:Hc;
      [discriminate|].
    intros H. injection H as <-. exists l. cbn [fst snd].
    rewrite Hc. repeat split. discriminate. }
  assert (Hsettle : forall a m rs,
             settle model tools m rs a = Some e ->
             (text = "" /\ calls = []) \/
             exists l,
               tools = Some l /\
               message_content a = Ok text /\
               calls = get_tool_from_content text (List.map tool_name l) /\
               calls <> []).
  { intros a m rs. unfold settle. intros H. injection H as <-.
    cbn [returned] in Hr.
    destruct (read_answer model tools a) as [[v|]|x] eqn:Ha.
    - destruct (Hread a v Ha) as (l & Ht & Hc & Hs & Hne).
      injection Hr as ->. cbn [fst snd] in *. right. exists l. auto.
    - injection Hr as <- <-. left. auto.
    - discriminate. }
  rewrite generate_two_turns in Hg.
  destruct (payload_messages model tools dumps max_retry_time prompts)
    as [m|x]; [|injection Hg as <-; discriminate].
  destruct (replies O) as [|a] eqn:H0.
  - destruct (replies 1%nat) as [|a] eqn:H1.
    + injection Hg as <-. injection Hr as <- <-. left. auto.
    + destruct (Hsettle a _ _ Hg) as [?|(l & Ht & Hc & Hs & Hne)];
        [left; assumption|].
      right. exists l, a. repeat split; auto.
      rewrite Hs. apply scan_offered.
  - destruct (Hsettle a _ _ Hg) as [?|(l & Ht & Hc & Hs & Hne)];
      [left; assumption|].
    right. exists l, a. repeat split; auto.
    rewrite Hs. apply scan_offered.
Qed.

Lemma prompted_model_calls_offered_tools_witness :
  exists e text,
    LlmClient.generate 2 "llama-3-8b" (Some [Scenarios.print_playbook])
      Scenarios.dumps Scenarios.answering [Scenarios.system_prompt]
    = Some e /\
    LlmClient.returned e = Ok (text, [Fixtures.playbook_call]) /\
    Forall (fun c => In (Llm.name c) ["print_playbook"])
      [Fixtures.playbook_call].
Proof.
  destruct (LlmClient.generate 2 "llama-3-8b" (Some [Scenarios.print_playbook])
              Scenarios.dumps Scenarios.answering [Scenarios.system_prompt])
    as [e|] eqn:Hg; [|vm_compute in Hg; discriminate].
  assert (Hr : LlmClient.returned e
               = Ok (LlmClient.render [Fixtures.playbook_call],
                     [Fixtures.playbook_call])).
  { vm_compute in Hg. injection Hg as <-. vm_compute. reflexivity. }
  exists e, (LlmClient.render [Fixtures.playbook_call]).
  split; [reflexivity|]. split; [exact Hr|].
  destruct (prompted_model_calls_offered_tools "llama-3-8b"
              (Some [Scenarios.print_playbook]) Scenarios.dumps
              Scenarios.answering [Scenarios.system_prompt] e _ _
              eq_refl Hg Hr)
    as [[_ Hnone]|(l & a & Ht & _ & _ & _ & _ & Hall)];
    [discriminate Hnone|].
  injection Ht as <-. exact Hall.
Defined.

End Requests.

(** ** Remediation in one shot *)

Section OneShot.
Import ExecutionAgent Coordinator.

Lemma draft_cases (w : world) (tools : list Llm.function_call) (st : state) :
  let '(r, st') := SoloGen.draft w tools st in
  trace st' = trace st /\
  forall code,
    r = Ok code -> code <> "" ->
    exists first rest,
      tools = first :: rest /\
      Llm.name first = "print_playbook" /\
      code_of w (Llm.arguments first) = Ok code.
Proof.
  unfold SoloGen.draft.
  destruct tools as [|first rest].
  { split; [reflexivity|]. intros code H Hne. injection H as <-. congruence. }
  destruct (String.eqb_spec (Llm.name first) "print_playbook") as [Hn|_].
  2:{ split; [reflexivity|]. intros code H Hne. injection H as <-. congruence. }
  destruct (code_of w (Llm.arguments first)) as [code|e] eqn:Hc.
  - split; [reflexivity|]. intros code' H _. injection H as <-.
    exists first, rest. auto.
  - destruct (malformed e).
    + split; [reflexivity|]. intros code H Hne. injection H as <-. congruence.
    + split; [reflexivity|]. discriminate.
Qed.

(** X27.  The one-shot method asks the model once and runs one playbook, the
    empty one when the answer does not yield a playbook; it never verifies,
    never hands back an error value, and reports one attempt whatever the
    playbook did. *)
Theorem sologen_single_attempt (w : world)
    (runtime_envs namespace root_cause failure_category : string) :
  let '(o, st) :=
    SoloGen.remediate_failure w runtime_envs namespace root_cause
      failure_category in
  o <> ErrorValue /\
  count_verify (trace st) = O /\
  (chats st <= 1)%nat /\
  (executions st <= 1)%nat /\
  forall conversation try_time,
    o = Returned conversation try_time ->
    try_time = 1 /\
    conversation = prompts st /\
    exists code,
      trace st = [ChatApi; Execute code; Sleep SoloGen.WAIT_REME_TIME] /\
      (code <> "" ->
       exists first rest,
         chat_api w O = Ok (first :: rest) /\
         Llm.name first = "print_playbook" /\
         code_of w (Llm.arguments first) = Ok code).
Proof.
  unfold SoloGen.remediate_failure.
  destruct (inventory w) as [inventory_content|e].
  2:{ cbn. repeat split; try discriminate; lia. }
  set (p := SoloGen.root_prompt _ _ _ _ _). clearbody p.
  cbn [initial chats].
  destruct (chat_api w O) as [tools|e] eqn:Hchat.
  2:{ cbn. repeat split; try discriminate; lia. }
  set (st1 := emit ChatApi (initial [{| role := "system"; content := p |}])).
  pose proof (draft_cases w tools st1) as Hd.
  destruct (SoloGen.draft w tools st1) as [[code|e] st2] eqn:Hdraft.
  2:{ destruct Hd as [Ht _]. rewrite Ht.
      assert (Hc : chats st2 = 1%nat /\ executions st2 = O).
      { unfold SoloGen.draft in Hdraft.
        destruct tools as [|first rest]; [discriminate|].
        destruct (String.eqb (Llm.name first) "print_playbook");
          [|discriminate].
        destruct (code_of w (Llm.arguments first)); [discriminate|].
        destruct (malformed e0); [discriminate|].
        injection Hdraft as _ <-. split; reflexivity. }
      destruct Hc as [-> ->].
      split; [discriminate|]. split; [reflexivity|].
      split; [lia|]. split; [lia|]. discriminate. }
  destruct Hd as [Ht Hcode].
  assert (Hc : chats st2 = 1%nat /\ executions st2 = O).
  { unfold SoloGen.draft in Hdraft.
    destruct tools as [|first rest]; [injection Hdraft as _ <-; auto|].
    destruct (String.eqb (Llm.name first) "print_playbook");
      [|injection Hdraft as _ <-; auto].
    destruct (code_of w (Llm.arguments first));
      [injection Hdraft as _ <-; auto|].
    destruct (malformed e); [injection Hdraft as _ <-; auto | discriminate]. }
  destruct Hc as [Hchats Hexec].
  rewrite Hexec.
  destruct (execute_playbook_and_get_response default_timeout (executor w O))
    as [res|e].
  - cbn [emit trace chats executions prompts]. rewrite Ht, Hchats, Hexec.
    split; [discriminate|]. split; [reflexivity|].
    split; [lia|]. split; [lia|].
    intros conversation try_time H. injection H as <- <-.
    split; [reflexivity|]. split; [reflexivity|].
    exists code. split; [reflexivity|].
    intros Hne.
    destruct (Hcode code eq_refl Hne) as (first & rest & -> & Hn & Hc).
    exists first, rest. auto.
  - cbn [emit trace chats executions prompts]. rewrite Ht, Hchats, Hexec.
    split; [discriminate|]. split; [reflexivity|].
    split; [lia|]. split; [lia|]. discriminate.
Qed.

End OneShot.

(** ** The tallies of the campaign *)

Section Tallies.
Import Campaign Tally.

Lemma bump_lookup (k key : string) (d : gmap string Z) :
  bump k d !! key
  = if decide (k = key) then Some (default 0 (d !! k) + 1) else d !! key.
Proof.
  unfold bump. destruct (decide (k = key)) as [->|Hne].
  - apply lookup_insert_eq.
  - apply lookup_insert_ne. exact Hne.
Qed.

Lemma tallied_abandon a c :
  current_experiment_no c <= total_experiments a ->
  tallied a c -> tallied a (abandon c).
Proof.
  intros Hle (Hno & Hf & Hs & Hsum & Hrem & Hinj).
  unfold tallied, remediations in *. cbn [abandon current_experiment_no
    failure_injection_failures success_count
    failure_type_success_remediation_dict
    failure_type_success_injection_dict].
  split; [lia|]. split; [lia|]. split; [lia|]. split; [lia|].
  split; assumption.
Qed.

Lemma tallied_record a c failure_type success try_time tokens :
  current_experiment_no c <= total_experiments a ->
  tallied a c -> tallied a (record failure_type success try_time tokens c).
Proof.
  intros Hle (Hno & Hf & Hs & Hsum & Hrem & Hinj).
  unfold tallied, remediations in *. cbn [record current_experiment_no
    failure_injection_failures success_count
    failure_type_success_remediation_dict
    failure_type_success_injection_dict].
  split; [lia|]. split; [lia|].
  split; [destruct success; lia|]. split; [destruct success; lia|].
  split.
  - intros key. specialize (Hrem key). pose proof (Hrem' := Hrem).
    rewrite bump_lookup.
    destruct success; cbn [id]; [rewrite bump_lookup|];
      destruct (decide (failure_type = key)) as [->|Hne];
      cbn [from_option id]; lia.
  - intros key v. rewrite bump_lookup.
    destruct (decide (failure_type = key)) as [->|Hne].
    + intros H. injection H as <-. specialize (Hrem key). lia.
    + apply Hinj.
Qed.

Lemma pass_tallied fuel a x c evs c' :
  current_experiment_no c <= total_experiments a ->
  pass fuel a x c = Some (evs, Return c') ->
  tallied a c -> tallied a c'.
Proof.
  intros Hle Hpass Ht. unfold pass in Hpass.
  destruct (healthy x) as [[|]|e0]; [| |discriminate].
  2:{ destruct (deploy_env (redeploy x 0)); try discriminate.
      injection Hpass as _ <-. exact Ht. }
  destruct (inject_failure (failure_type_of a x c) (injected_by x))
    as [[|]|e]; [| |discriminate].
  2:{ injection Hpass as _ <-.
      apply tallied_abandon; assumption. }
  destruct (await_injection fuel a x (failure_type_of a x c)
              (random_service x) 0 (polls x)) as [[evs0 f]|];
    [|discriminate].
  destruct f as [[|]|code|e]; try discriminate.
  - unfold remediation_phase, invoke in Hpass.
    destruct (remediate (remediate_method a) (remediation x))
      as [conversations try_time| |e]; try discriminate.
    destruct (final_check x) as [success|]; [|discriminate].
    destruct (saved x) as [[]|]; [|discriminate].
    destruct (stopped x) as [[]|]; [|discriminate].
    destruct (restored x) as [b|]; [|discriminate].
    injection Hpass as _ <-.
    apply tallied_record; assumption.
  - destruct (stopped x) as [[]|]; [|discriminate].
    injection Hpass as _ <-.
    apply tallied_abandon; assumption.
Qed.

Lemma run_tallied fuel a script c log c' e :
  run_experiments fuel a script c = (log, c', e) ->
  tallied a c ->
  tallied a c' /\ (e = Completed -> total_experiments a < current_experiment_no c').
Proof.
  revert c log. induction script as [|x rest IH]; intros c log Hrun Ht.
  - cbn [run_experiments] in Hrun.
    destruct (Z.leb_spec (current_experiment_no c) (total_experiments a));
      injection Hrun as <- <- <-; split; auto; try discriminate.
  - cbn [run_experiments] in Hrun.
    destruct (Z.leb_spec (current_experiment_no c) (total_experiments a))
      as [Hle|Hgt].
    2:{ injection Hrun as <- <- <-. split; auto. }
    destruct (pass fuel a x c) as [[evs [c1|code|x0]]|] eqn:Hpass.
    + destruct (run_experiments fuel a rest c1) as [[log1 c2] e1] eqn:Hrest.
      injection Hrun as <- <- <-.
      apply (IH c1 log1 Hrest).
      exact (pass_tallied _ _ _ _ _ _ Hle Hpass Ht).
    + injection Hrun as <- <- <-. split; [assumption | discriminate].
    + injection Hrun as <- <- <-. split; [assumption | discriminate].
    + injection Hrun as <- <- <-. split; [assumption | discriminate].
Qed.

Lemma tallied_start a : tallied a start.
Proof.
  unfold tallied, remediations. cbn [start current_experiment_no
    failure_injection_failures success_count
    failure_type_success_remediation_dict
    failure_type_success_injection_dict].
  split; [lia|]. split; [lia|]. split; [lia|]. split; [lia|].
  split.
  - intros key. rewrite lookup_empty. cbn [from_option id]. lia.
  - intros key v. rewrite lookup_empty. discriminate.
Qed.

(** X28.  When the campaign completes with a successful remediation, none of
    the divisors of its summary is zero: the experiments less the injection
    failures are at least the successes, and every failure type of the
    dictionary of injections has a positive count, not below its count of
    remediations. *)
Theorem summary_divisors_positive (fuel : nat) (a : args)
    (script : list experiment) (log : list (list event)) (c : counters) :
  run_experiments fuel a script start = (log, c, Completed) ->
  0 < success_count c ->
  0 < success_count c
    <= total_experiments a - failure_injection_failures c /\
  forall key v,
    failure_type_success_injection_dict c !! key = Some v ->
    0 < v /\ 0 <= remediations c key <= v.
Proof.
  intros Hrun Hpos.
  destruct (run_tallied _ _ _ _ _ _ _ Hrun (tallied_start a))
    as [(Hno & Hf & Hs & Hsum & Hrem & Hinj) Hend].
  specialize (Hend eq_refl).
  split; [lia|].
  intros key v Hv. specialize (Hrem key). rewrite Hv in Hrem.
  cbn [from_option id] in Hrem. specialize (Hinj key v Hv). lia.
Qed.

Lemma summary_divisors_positive_witness :
  exists log c,
    Campaign.run_experiments 8 Fixtures.two_slots
      [Fixtures.remediated; Fixtures.injection_unseen] Campaign.start
    = (log, c, Campaign.Completed) /\
    0 < Campaign.success_count c
      <= Campaign.total_experiments Fixtures.two_slots
         - Campaign.failure_injection_failures c.
Proof.
  destruct (Campaign.run_experiments 8 Fixtures.two_slots
              [Fixtures.remediated; Fixtures.injection_unseen] Campaign.start)
    as [[log c] e] eqn:Hrun.
  assert (He : e = Campaign.Completed)
    by (vm_compute in Hrun; injection Hrun as _ _ <-; reflexivity).
  subst e.
  assert (Hs : 0 < Campaign.success_count c)
    by (vm_compute in Hrun; injection Hrun as _ <-; reflexivity).
  exists log, c. split; [reflexivity|].
  exact (proj1 (summary_divisors_positive _ _ _ _ _ Hrun Hs)).
Defined.

(** X29.  A pass that finds its target unhealthy redeploys and leaves the
    counters as they are: the slot is tried again.  As long as every pass
    does, no slot is consumed and the campaign does not end. *)
Theorem unhealthy_target_consumes_no_slot (fuel : nat) (a : args)
    (script : list experiment) (c : counters) :
  Forall (fun x => healthy x = Ok false /\ deploy_code (redeploy x 0) = 0)
    script ->
  current_experiment_no c <= total_experiments a ->
  run_experiments fuel a script c
  = (List.map redeployed script, c, Unfinished).
Proof.
  intros Hall Hle. induction Hall as [|x rest [Hh Hd] _ IH].
  - cbn [run_experiments List.map].
    destruct (Z.leb_spec (current_experiment_no c) (total_experiments a));
      [reflexivity | lia].
  - cbn [run_experiments List.map].
    destruct (Z.leb_spec (current_experiment_no c) (total_experiments a));
      [|lia].
    unfold pass. rewrite Hh.
    unfold deploy_env. rewrite Hd. cbn [Z.eqb negb].
    rewrite IH. reflexivity.
Qed.

Lemma unhealthy_target_consumes_no_slot_witness :
  Campaign.run_experiments 8 Fixtures.two_slots
    [Scenarios.unhealthy; Scenarios.unhealthy; Scenarios.unhealthy]
    Campaign.start
  = ([ [Campaign.CheckHealthy "svc-a"; Campaign.DeployEnv];
       [Campaign.CheckHealthy "svc-a"; Campaign.DeployEnv];
       [Campaign.CheckHealthy "svc-a"; Campaign.DeployEnv] ],
     Campaign.start, Campaign.Unfinished).
Proof.
  apply (unhealthy_target_consumes_no_slot 8 Fixtures.two_slots
           [Scenarios.unhealthy; Scenarios.unhealthy; Scenarios.unhealthy]
           Campaign.start).
  - repeat constructor.
  - vm_compute. discriminate.
Defined.

End Tallies.

(** ** The experiment file *)

Section Experiments.
Import PyStr PyText ExperimentFile.

Lemma lstrip_head (s : string) :
  lstrip s = "" \/
  exists c r, lstrip s = String c r /\ is_space c = false.
Proof.
  induction s as [|c s IH]; [left; reflexivity|].
  simpl. destruct (is_space c) eqn:Hc; [exact IH|].
  right. exists c, s. auto.
Qed.

Lemma lstrip_visible (c : ascii) (r : string) :
  is_space c = false -> lstrip (String c r) = String c r.
Proof. intros H. simpl. rewrite H. reflexivity. Qed.

Lemma lstrip_idempotent (s : string) : lstrip (lstrip s) = lstrip s.
Proof.
  destruct (lstrip_head s) as [->|(c & r & -> & Hc)]; [reflexivity|].
  apply lstrip_visible. exact Hc.
Qed.

Lemma rstrip_visible (c : ascii) (r : string) :
  is_space c = false -> rstrip (String c r) = String c (rstrip r).
Proof.
  intros Hc. unfold rstrip.
  rewrite rev_cons, (lstrip_append _ c "" Hc), rev_append. reflexivity.
Qed.

Lemma rstrip_idempotent (s : string) : rstrip (rstrip s) = rstrip s.
Proof.
  unfold rstrip. rewrite rev_involutive, lstrip_idempotent. reflexivity.
Qed.

Lemma strip_idempotent (s : string) : strip (strip s) = strip s.
Proof.
  unfold strip.
  destruct (lstrip_head s) as [->|(c & r & -> & Hc)]; [reflexivity|].
  rewrite (rstrip_visible c r Hc), (lstrip_visible c _ Hc).
  rewrite <- (rstrip_visible c r Hc). apply rstrip_idempotent.
Qed.

Lemma count_lstrip (c : ascii) (s : string) :
  (count c (lstrip s) <= count c s)%nat.
Proof.
  induction s as [|d s IH]; [reflexivity|].
  cbn [lstrip]. destruct (is_space d); [|reflexivity].
  cbn [count]. lia.
Qed.

Lemma count_rstrip (c : ascii) (s : string) :
  (count c (rstrip s) <= count c s)%nat.
Proof.
  unfold rstrip. rewrite count_rev.
  etransitivity; [apply count_lstrip|]. rewrite count_rev. reflexivity.
Qed.

(** Stripping a line drops the line feed that ends it. *)
Lemma lstrip_terminated (c : ascii) (p : string) :
  lstrip (p ++ String newline "") = "" \/
  exists q,
    lstrip (p ++ String newline "") = (q ++ String newline "")%string /\
    (count c q <= count c p)%nat.
Proof.
  induction p as [|d p IH]; [left; reflexivity|].
  rewrite append_cons. cbn [lstrip].
  destruct (is_space d).
  - destruct IH as [H|(q & Hq & Hle)]; [left; exact H|].
    right. exists q. split; [exact Hq|]. cbn [count]. lia.
  - right. exists (String d p). split; [reflexivity | reflexivity].
Qed.

Lemma rstrip_terminated (q : string) :
  rstrip (q ++ String newline "") = rstrip q.
Proof.
  unfold rstrip. rewrite rev_append. reflexivity.
Qed.

Lemma count_strip_terminated (c : ascii) (p : string) :
  (count c (strip (p ++ String newline "")) <= count c p)%nat.
Proof.
  unfold strip.
  destruct (lstrip_terminated c p) as [->|(q & -> & Hle)]; [cbn; lia|].
  rewrite rstrip_terminated.
  etransitivity; [apply count_rstrip | exact Hle].
Qed.

Lemma count_strip (c : ascii) (s : string) :
  (count c (strip s) <= count c s)%nat.
Proof.
  unfold strip. etransitivity; [apply count_rstrip | apply count_lstrip].
Qed.

(** Text read with universal newlines holds no carriage return. *)
Lemma universal_newlines_cr (n : nat) (s : string) :
  (String.length s <= n)%nat -> count cr (universal_newlines s) = O.
Proof.
  revert s. induction n as [|n IH]; intros s Hlen.
  - destruct s; [reflexivity | simpl in Hlen; lia].
  - destruct s as [|c r]; [reflexivity|].
    cbn [universal_newlines]. cbn [String.length] in Hlen.
    destruct (Ascii.eqb c cr) eqn:Hc.
    + destruct r as [|d r']; [reflexivity|].
      cbn [String.length] in Hlen.
      destruct (Ascii.eqb d newline); cbn [count];
        change (Ascii.eqb newline cr) with false; cbn [Nat.add];
        apply IH; cbn [String.length]; lia.
    + cbn [count]. rewrite Hc. cbn [Nat.add]. apply IH. lia.
Qed.

(** A line holds at most the line feed that ends it, and no more
    carriage returns than the text. *)
Lemma readlines_go_lines (s acc : string) :
  count newline acc = O ->
  Forall (fun line =>
            (exists p, (line = p \/ line = (p ++ String newline "")%string) /\
                       count newline p = O) /\
            (count cr line <= count cr (rev acc ++ s))%nat)
    (readlines_go acc s).
Proof.
  revert acc. induction s as [|c s IH]; intros acc Hacc.
  - cbn [readlines_go]. destruct acc as [|a acc']; constructor; [|constructor].
    split.
    + exists (rev (String a acc')). split; [left; reflexivity|].
      rewrite count_rev. exact Hacc.
    + rewrite append_nil_r. reflexivity.
  - cbn [readlines_go]. destruct (Ascii.eqb_spec c newline) as [->|Hc].
    + constructor.
      * split.
        -- exists (rev acc). split; [right; apply rev_cons|].
           rewrite count_rev. exact Hacc.
        -- rewrite rev_cons, !count_append. cbn [count].
           change (Ascii.eqb newline cr) with false. cbv iota. lia.
      * eapply List.Forall_impl; [|apply (IH "" eq_refl)].
        intros line [Hl Hcr]. split; [exact Hl|].
        change (rev "" ++ s)%string with s in Hcr.
        etransitivity; [exact Hcr|].
        rewrite count_append. cbn [count].
        change (Ascii.eqb newline cr) with false. cbv iota. lia.
    + eapply List.Forall_impl; [|apply (IH (String c acc))].
      * intros line [Hl Hcr]. split; [exact Hl|].
        rewrite rev_acc_cons in Hcr. exact Hcr.
      * cbn [count].
        replace (Ascii.eqb c newline) with false
          by (symmetry; apply Ascii.eqb_neq; exact Hc).
        exact Hacc.
Qed.

Lemma readlines_lines (content : string) :
  Forall (fun line =>
            count newline (strip line) = O /\ count cr (strip line) = O)
    (readlines content).
Proof.
  unfold readlines.
  eapply List.Forall_impl;
    [|apply (readlines_go_lines (universal_newlines content) "" eq_refl)].
  intros line [(p & Hp & Hnl) Hcr].
  change (rev "" ++ universal_newlines content)%string
    with (universal_newlines content) in Hcr.
  rewrite (universal_newlines_cr _ content (Nat.le_refl _)) in Hcr.
  split.
  - destruct Hp as [-> | ->].
    + pose proof (count_strip newline p). lia.
    + pose proof (count_strip_terminated newline p). lia.
  - pose proof (count_strip cr line). lia.
Qed.

(** X30.  The failure types read from an experiment file are the lines of the
    file, in order, without the blank ones and the comments, each without
    the white space around it: no entry is empty, begins with [#], has
    white space at either end or holds a line break.  A file of blank lines
    and comments gives no list, and the campaign then runs the number of
    experiments of its arguments with failures drawn at random, as it does
    without a file. *)
Theorem failure_list_entries (content : string) (a : Campaign.args) :
  Forall (fun t => t <> "" /\ startswith t "#" = false /\ strip t = t /\
                   count newline t = O /\ count cr t = O)
    (load_failure_list content) /\
  (length (load_failure_list content) <= length (readlines content))%nat /\
  (Forall (fun line => strip line = "" \/ startswith (strip line) "#" = true)
     (readlines content) ->
   load_failure_list content = [] /\
   Campaign.total_experiments (with_experiment_file (Some content) a)
   = Campaign.total_experiments (with_experiment_file None a)) /\
  (load_failure_list content <> [] ->
   Campaign.total_experiments (with_experiment_file (Some content) a)
   = Z.of_nat (length (load_failure_list content))).
Proof.
  unfold load_failure_list.
  pose proof (readlines_lines content) as Hlines.
  split; [|split; [|split]].
  - induction Hlines as [|line rest [Hnl Hcr] _ IH]; cbn [List.filter List.map];
      [constructor|].
    destruct (listed line) eqn:Hl; [|exact IH].
    cbn [List.map]. constructor; [|exact IH].
    unfold listed in Hl. apply andb_true_iff in Hl as [He Hs].
    apply negb_true_iff in He, Hs.
    split; [intros H; rewrite H in He; discriminate|].
    split; [exact Hs|]. split; [apply strip_idempotent|].
    split; assumption.
  - rewrite List.length_map. apply List.filter_length_le.
  - intros Hall.
    assert (Hnone : List.filter listed (readlines content) = []).
    { clear Hlines.
      induction Hall as [|line rest Hline _ IH]; [reflexivity|].
      cbn [List.filter]. unfold listed at 1.
      destruct Hline as [-> | ->]; cbn [negb andb]; [exact IH|].
      rewrite andb_false_r. exact IH. }
    unfold Campaign.total_experiments, with_experiment_file, load_failure_list.
    cbn [Campaign.failure_list Campaign.experiments].
    rewrite Hnone. split; reflexivity.
  - intros Hne.
    unfold Campaign.total_experiments, with_experiment_file, load_failure_list.
    cbn [Campaign.failure_list Campaign.experiments].
    destruct (List.map strip (List.filter listed (readlines content)));
      [contradiction | reflexivity].
Qed.

End Experiments.
